(** * Patent drawing parser: label normalisation, merge and page preparation

    A shallow embedding of [src/vision_lmm.py] and [src/pdf_utils.py].

    Python strings are sequences of Unicode code points.  The development
    covers the code points below 256: one [ascii] stands for the code point
    of the same number, and the character classes below are Python's
    classes restricted to that range.  External collaborators (the JSON
    decoder, the text detector, image rotation, float arithmetic) are
    arguments of the functions that call them. *)

From Stdlib Require Import ZArith List String Ascii Bool Lia Permutation.
From Stdlib Require Import Sorting.Sorted QArith.
Import ListNotations.

Set Warnings "-register-all".

Open Scope string_scope.
Open Scope Z_scope.

(** ** Characters *)

Definition code (c : ascii) : N := N_of_ascii c.

Definition in_range (lo hi : N) (c : ascii) : bool :=
  ((lo <=? code c) && (code c <=? hi))%N.

(** [\d] of [re] on [str] patterns (Unicode decimal digits). *)
Definition is_decimal (c : ascii) : bool := in_range 48 57 c.

(** [\s] of [re], and the characters removed by [str.strip()]. *)
Definition is_space (c : ascii) : bool :=
  in_range 9 13 c || in_range 28 32 c
  || (code c =? 133)%N || (code c =? 160)%N.

(** The characters [str.isdigit()] accepts: the decimal digits and the
    superscripts two, three and one. *)
Definition is_digit_char (c : ascii) : bool :=
  is_decimal c || (code c =? 178)%N || (code c =? 179)%N || (code c =? 185)%N.

(** [[A-Z]], [[a-z]] and [[A-Za-z]]. *)
Definition is_upper (c : ascii) : bool := in_range 65 90 c.
Definition is_lower (c : ascii) : bool := in_range 97 122 c.
Definition is_letter (c : ascii) : bool := is_upper c || is_lower c.

(** [[a-zA-Z0-9\-]], the class of the main part of a component label. *)
Definition is_main_char (c : ascii) : bool :=
  is_letter c || is_decimal c || (code c =? 45)%N.

Definition squote : ascii := ascii_of_N 39.
Definition dquote : ascii := ascii_of_N 34.

(** The prime marks: the class of the apostrophe (39) and the double
    quote (34). *)
Definition is_prime_char (c : ascii) : bool :=
  (code c =? 39)%N || (code c =? 34)%N.

Definition lower_char (c : ascii) : ascii :=
  if is_upper c then ascii_of_N (code c + 32) else c.

Definition upper_char (c : ascii) : ascii :=
  if is_lower c then ascii_of_N (code c - 32) else c.

(** ** Strings *)

Fixpoint str_map (f : ascii -> ascii) (s : string) : string :=
  match s with
  | EmptyString => EmptyString
  | String c r => String (f c) (str_map f r)
  end.

Fixpoint str_all (p : ascii -> bool) (s : string) : bool :=
  match s with
  | EmptyString => true
  | String c r => p c && str_all p r
  end.

(** [str.lower()] and [str.upper()]; the source applies them to ASCII
    text only (a main part, a single ASCII letter). *)
Definition lower (s : string) : string := str_map lower_char s.
Definition upper (s : string) : string := str_map upper_char s.

Definition is_empty (s : string) : bool :=
  match s with EmptyString => true | _ => false end.

(** [str.isdigit()]: non-empty and every character a digit. *)
Definition isdigit (s : string) : bool :=
  negb (is_empty s) && str_all is_digit_char s.

Definition len (s : string) : Z := Z.of_nat (String.length s).

Fixpoint lstrip (s : string) : string :=
  match s with
  | EmptyString => EmptyString
  | String c r => if is_space c then lstrip r else s
  end.

Fixpoint rstrip (s : string) : string :=
  match s with
  | EmptyString => EmptyString
  | String c r =>
      let r' := rstrip r in
      if is_empty r' && is_space c then EmptyString else String c r'
  end.

(** [str.strip()]. *)
Definition strip (s : string) : string := rstrip (lstrip s).

(** The longest prefix of [s] in class [p]. *)
Fixpoint take_while (p : ascii -> bool) (s : string) : string :=
  match s with
  | EmptyString => EmptyString
  | String c r => if p c then String c (take_while p r) else EmptyString
  end.

Fixpoint drop_while (p : ascii -> bool) (s : string) : string :=
  match s with
  | EmptyString => EmptyString
  | String c r => if p c then drop_while p r else s
  end.

Definition digit_value (c : ascii) : Z := Z.of_N (code c) - 48.

(** [int(s)] for a run of decimal digits. *)
Definition int_of_digits (s : string) : Z :=
  (fix go (acc : Z) (s : string) : Z :=
     match s with
     | EmptyString => acc
     | String c r => go (10 * acc + digit_value c) r
     end) 0 s.

(** [a < b] on [str]: lexicographic on code points. *)
Definition str_ltb (a b : string) : bool :=
  match String.compare a b with Lt => true | _ => false end.

(** [s.endswith(suffix)]. *)
Fixpoint endswith (s suffix : string) : bool :=
  String.eqb s suffix
  || match s with
     | EmptyString => false
     | String _ r => endswith r suffix
     end.

(** ** Regular expressions of the source

    Each matcher follows Python's backtracking semantics for its pattern.
    In every pattern of this program the character classes of adjacent
    pieces are disjoint, so the greedy choice is the only one that can
    succeed and no alternative needs to be retried. *)

(** [$]: at the end of the string, or just before a newline that ends it. *)
Definition at_dollar (rest : string) : bool :=
  match rest with
  | EmptyString => true
  | String c EmptyString => (code c =? 10)%N
  | _ => false
  end.

(** [_COMPONENT_RE.fullmatch(s)]: a main part, one or more characters of
    [[a-zA-Z0-9\-]], then a prime part, zero to two prime marks, up to the
    end of the string; the groups [(main, prime)] on a match. *)
Definition _COMPONENT_RE_fullmatch (s : string) : option (string * string) :=
  let main := take_while is_main_char s in
  let prime := drop_while is_main_char s in
  if is_empty main then None
  else if str_all is_prime_char prime && (len prime <=? 2)
       then Some (main, prime) else None.

(** The rank table of the prime part, [.get(prime_part, 9)]: empty 0, one
    apostrophe 1, one double quote 2, two apostrophes 3, two double
    quotes 4, anything else 9. *)
Definition prime_rank (prime : string) : Z :=
  if String.eqb prime EmptyString then 0
  else if String.eqb prime (String squote EmptyString) then 1
  else if String.eqb prime (String dquote EmptyString) then 2
  else if String.eqb prime (String squote (String squote EmptyString)) then 3
  else if String.eqb prime (String dquote (String dquote EmptyString)) then 4
  else 9.

(** ** [_component_sort_key] *)

Definition sort_key : Type := Z * string * Z.

Definition _component_sort_key (s : string) : sort_key :=
  let s := strip s in
  match _COMPONENT_RE_fullmatch s with
  | None => (9999, s, 9)
  | Some (main_part, prime_part) =>
      (* re.match on (\d+): the leading digit run of main_part *)
      let digits := take_while is_decimal main_part in
      let num := if is_empty digits then 0 else int_of_digits digits in
      (num, lower main_part, prime_rank prime_part)
  end.

(** [<] on the key tuples: lexicographic. *)
Definition key_ltb (a b : sort_key) : bool :=
  let '(n1, s1, p1) := a in
  let '(n2, s2, p2) := b in
  (n1 <? n2)
  || ((n1 =? n2)
      && (str_ltb s1 s2 || (String.eqb s1 s2 && (p1 <? p2)))).

(** ** [sorted(xs, key=...)]: the stable sort *)

Section Sorted.
Context {A K : Type}.
Variable key : A -> K.
Variable ltb : K -> K -> bool.

(** [x] goes before the first element whose key is strictly greater. *)
Fixpoint insert_sorted (x : A) (l : list A) : list A :=
  match l with
  | [] => [x]
  | y :: r => if ltb (key x) (key y) then x :: l else y :: insert_sorted x r
  end.

Definition sorted (l : list A) : list A :=
  fold_left (fun acc x => insert_sorted x acc) l [].

End Sorted.

(** ** [list(set(xs))]

    The iteration order of a Python set of strings depends on the hash
    seed of the process.  A [set_iteration] is any enumeration of the
    distinct elements of a list. *)
Record set_iteration : Type := {
  set_list :> list string -> list string;
  set_list_NoDup : forall l, NoDup (set_list l);
  set_list_In : forall l x, In x (set_list l) <-> In x l
}.

(** One such enumeration: first occurrences, in order. *)
Definition first_seen (l : list string) : list string :=
  rev (nodup string_dec (rev l)).

(** ** Python dictionaries: items in insertion order, keys distinct *)

Section Dict.
Context {K V : Type}.
Variable keq : K -> K -> bool.

(** [d.get(k)] *)
Fixpoint dict_find (k : K) (d : list (K * V)) : option V :=
  match d with
  | [] => None
  | (k', v) :: r => if keq k k' then Some v else dict_find k r
  end.

(** [d[k] = v]: an existing key keeps its place, a new one goes last. *)
Fixpoint dict_set (k : K) (v : V) (d : list (K * V)) : list (K * V) :=
  match d with
  | [] => [(k, v)]
  | (k', v') :: r =>
      if keq k k' then (k', v) :: r else (k', v') :: dict_set k v r
  end.

End Dict.

(** ** Values decoded from JSON *)

Inductive json : Type :=
| JNull
| JBool (b : bool)
| JInt (n : Z)
| JFloat (repr : string)
| JStr (s : string)
| JArr (items : list json)
| JObj (fields : list (string * json)).

Inductive exn : Type := AttributeError | TypeError.

Inductive outcome (A : Type) : Type :=
| Returned (a : A)
| Raised (e : exn).
Arguments Returned {A} a.
Arguments Raised {A} e.

Definition bind {A B : Type} (m : outcome A) (f : A -> outcome B) : outcome B :=
  match m with
  | Returned a => f a
  | Raised e => Raised e
  end.

Notation "x <- m ;; k" := (bind m (fun x => k))
  (at level 61, m at next level, right associativity).

Fixpoint chars (s : string) : list string :=
  match s with
  | EmptyString => []
  | String c r => String c EmptyString :: chars r
  end.

(** What [for x in v] iterates over: the elements of a list, the
    characters of a string, the keys of a dict; any other decoded value
    raises [TypeError]. *)
Definition py_iter (v : json) : outcome (list json) :=
  match v with
  | JArr items => Returned items
  | JStr s => Returned (map JStr (chars s))
  | JObj fields => Returned (map (fun kv => JStr (fst kv)) fields)
  | _ => Raised TypeError
  end.

(** [item.get(k, default)] on a decoded object. *)
Definition get (fields : list (string * json)) (k : string) (default : json)
  : json :=
  match dict_find String.eqb k fields with
  | Some v => v
  | None => default
  end.

(** ** [_normalize_figure] *)

(** The pattern [(\d+)\s*([A-Za-z])?$] tried at the start of [s]: the
    groups (digits, letter or empty). *)
Definition fig_tail_match (s : string) : option (string * string) :=
  let num := take_while is_decimal s in
  if is_empty num then None
  else
    let r := drop_while is_space (drop_while is_decimal s) in
    match r with
    | EmptyString => Some (num, EmptyString)
    | String c r' =>
        if is_letter c && at_dollar r' then Some (num, String c EmptyString)
        else if at_dollar r then Some (num, EmptyString)
        else None
    end.

(** [re.search]: the leftmost position where the pattern matches. *)
Fixpoint fig_tail_search (s : string) : option (string * string) :=
  match fig_tail_match s with
  | Some g => Some g
  | None =>
      match s with
      | EmptyString => None
      | String _ r => fig_tail_search r
      end
  end.

(** [re.search] of [\d+]: the first run of decimal digits. *)
Definition first_digit_run (s : string) : option string :=
  let r := drop_while (fun c => negb (is_decimal c)) s in
  if is_empty r then None else Some (take_while is_decimal r).

Definition _normalize_figure (fig : json) : string :=
  match fig with
  | JStr fig =>
      let s := strip fig in
      match fig_tail_search s with
      | None =>
          match first_digit_run s with
          | None => ""
          | Some num => "FIG. " ++ num
          end
      | Some (num, tail) => "FIG. " ++ num ++ upper tail
      end
  | _ => ""
  end.

(** ** [_figure_sort_key] *)

(** [re.search] of [([A-Z])$]. *)
Fixpoint upper_tail_search (s : string) : option string :=
  match s with
  | EmptyString => None
  | String c r =>
      if is_upper c && at_dollar r then Some (String c EmptyString)
      else upper_tail_search r
  end.

Definition _figure_sort_key (fig : string) : Z * string :=
  let num :=
    match first_digit_run fig with
    | Some d => int_of_digits d
    | None => 0
    end in
  let suf :=
    match upper_tail_search fig with
    | Some c => c
    | None => ""
    end in
  (num, suf).

(** ** [_clean_components] *)

Definition matches_component (c : string) : bool :=
  match _COMPONENT_RE_fullmatch c with Some _ => true | None => false end.

(** [comps] is the sequence the argument iterates over. *)
Definition _clean_components (order : set_iteration) (comps : list json)
  : list string :=
  let comps1 :=
    flat_map (fun c => match c with JStr c => [strip c] | _ => [] end) comps in
  let comps2 := filter matches_component comps1 in
  match comps2 with
  | [] => []
  | _ =>
      let pure_numbers := filter isdigit comps2 in
      let has_multi_digit := existsb (fun c => 2 <=? len c) pure_numbers in
      let comps3 :=
        if has_multi_digit
        then filter (fun c => negb (isdigit c && (len c <? 2))) comps2
        else comps2 in
      sorted _component_sort_key key_ltb (order comps3)
  end.

(** ** [extract_figures_with_lmm]: the merge loop and the final output *)

Record figure_record : Type := {
  page : Z;
  figure : string;
  components : list string;
  hierarchy : list json
}.

Definition merge_key : Type := Z * string.

Definition merge_key_eqb (a b : merge_key) : bool :=
  (fst a =? fst b) && String.eqb (snd a) (snd b).

(** The dict [merged]. *)
Definition merged_map : Type := list (merge_key * figure_record).

Definition lookup (key : merge_key) (merged : merged_map)
  : option figure_record :=
  dict_find merge_key_eqb key merged.

(** [merged[key]], for a key that is present. *)
Definition item_of (key : merge_key) (merged : merged_map) : figure_record :=
  match lookup key merged with
  | Some r => r
  | None => {| page := fst key; figure := snd key;
               components := []; hierarchy := [] |}
  end.

(** The body of [for item in res or []], lines 136-157, for one [item] of
    page [page_no]. *)
Definition merge_item (order : set_iteration) (page_no : Z)
  (merged : merged_map) (item : json) : outcome merged_map :=
  match item with
  | JObj fields =>
      let fig := _normalize_figure (get fields "figure" (JStr "")) in
      if is_empty fig then Returned merged
      else
        let key := (page_no, fig) in
        let merged :=
          match lookup key merged with
          | Some _ => merged
          | None =>
              dict_set merge_key_eqb key
                {| page := page_no; figure := fig;
                   components := []; hierarchy := [] |} merged
          end in
        comps <- py_iter (get fields "components" (JArr [])) ;;
        let new_comps := _clean_components order comps in
        let r := item_of key merged in
        let merged :=
          dict_set merge_key_eqb key
            {| page := page r; figure := figure r;
               components :=
                 sorted _component_sort_key key_ltb
                   (order (components r ++ new_comps)%list);
               hierarchy := hierarchy r |} merged in
        match dict_find String.eqb "hierarchy" fields with
        | None => Returned merged
        | Some h =>
            hs <- py_iter h ;;
            let r := item_of key merged in
            Returned
              (dict_set merge_key_eqb key
                 {| page := page r; figure := figure r;
                    components := components r;
                    hierarchy := (hierarchy r ++ hs)%list |} merged)
        end
  | _ => Raised AttributeError
  end.

Arguments merge_item : simpl never.

Fixpoint merge_items (order : set_iteration) (page_no : Z)
  (merged : merged_map) (res : list json) : outcome merged_map :=
  match res with
  | [] => Returned merged
  | item :: rest =>
      merged <- merge_item order page_no merged item ;;
      merge_items order page_no merged rest
  end.

(** The page loop: each page number with the entries the model returned
    for it ([res or []]). *)
Fixpoint merge_pages (order : set_iteration) (merged : merged_map)
  (responses : list (Z * list json)) : outcome merged_map :=
  match responses with
  | [] => Returned merged
  | (page_no, res) :: rest =>
      merged <- merge_items order page_no merged res ;;
      merge_pages order merged rest
  end.

Definition page_figure_key (k : merge_key) : Z * (Z * string) :=
  (fst k, _figure_sort_key (snd k)).

(** [<] on [(page, (number, suffix))]. *)
Definition page_figure_ltb (a b : Z * (Z * string)) : bool :=
  let '(p1, (n1, s1)) := a in
  let '(p2, (n2, s2)) := b in
  (p1 <? p2) || ((p1 =? p2) && ((n1 <? n2) || ((n1 =? n2) && str_ltb s1 s2))).

(** The [OrderedDict] built for one record. *)
Definition ordered_item (r : figure_record) : list (string * json) :=
  [ ("components", JArr (map JStr (components r)));
    ("hierarchy", JArr (hierarchy r));
    ("figure", JStr (figure r));
    ("page", JInt (page r)) ].

Definition final_output (merged : merged_map) : list (list (string * json)) :=
  let sorted_keys :=
    sorted page_figure_key page_figure_ltb (map fst merged) in
  map (fun k => ordered_item (item_of k merged)) sorted_keys.

Definition extract_figures_with_lmm (order : set_iteration)
  (responses : list (Z * list json)) : outcome (list (list (string * json))) :=
  merged <- merge_pages order [] responses ;;
  Returned (final_output merged).

(** ** [_parse_json_array] *)

Definition fence : string := "```".

(** [re.sub] of the fence pattern, a fence followed by an optional [json]
    and an optional newline, or an optional newline followed by a fence,
    by the empty string: every match is removed, left to right. *)
Definition strip_prefix (p s : string) : option string :=
  if String.prefix p s
  then Some (String.substring (String.length p)
               (String.length s - String.length p) s)
  else None.

Definition skip_optional (p s : string) : string :=
  match strip_prefix p s with Some r => r | None => s end.

Definition newline : string := String (ascii_of_N 10) EmptyString.

(** The length of the match of the fence pattern at the start of [s],
    0 when it does not match there: the first alternative, a fence with
    an optional [json] and an optional newline, is tried before the
    second, an optional newline and a fence. *)
Definition fence_match_length (s : string) : nat :=
  match strip_prefix fence s with
  | Some r =>
      let r := skip_optional newline (skip_optional "json" r) in
      (String.length s - String.length r)%nat
  | None =>
      match strip_prefix (newline ++ fence) s with
      | Some r => (String.length s - String.length r)%nat
      | None => O
      end
  end.

(** [skip] characters of the current match remain to be removed. *)
Fixpoint remove_fences_from (skip : nat) (s : string) : string :=
  match s with
  | EmptyString => EmptyString
  | String c r =>
      match skip with
      | S k => remove_fences_from k r
      | O =>
          match fence_match_length s with
          | S k => remove_fences_from k r
          | O => String c (remove_fences_from O r)
          end
      end
  end.

Definition remove_fences (s : string) : string := remove_fences_from O s.

Fixpoint drop_until (c : ascii) (s : string) : string :=
  match s with
  | EmptyString => EmptyString
  | String c' r => if Ascii.eqb c' c then s else drop_until c r
  end.

(** The longest prefix of [s] that ends with [c], empty when [c] does not
    occur. *)
Fixpoint keep_through_last (c : ascii) (s : string) : string :=
  match s with
  | EmptyString => EmptyString
  | String c' r =>
      let k := keep_through_last c r in
      if is_empty k
      then (if Ascii.eqb c' c then String c' EmptyString else EmptyString)
      else String c' k
  end.

(** [re.search] of an opening bracket, anything, a closing bracket, with
    [re.DOTALL]: from the first opening bracket to the last closing one. *)
Definition bracket_search (s : string) : option string :=
  match drop_until "[" s with
  | EmptyString => None
  | String _ r =>
      let k := keep_through_last "]" r in
      if is_empty k then None else Some (String "[" k)
  end.

(** The text appended by the tail fix: a double quote, then the closers
    of a list, an object and the outer list. *)
Definition tail_fix : string := String dquote "]}]".

(** [json_loads] is [json.loads]; [None] stands for a raised exception. *)
Definition _parse_json_array (json_loads : string -> option json)
  (txt : string) : json :=
  if is_empty txt then JArr []
  else
    let txt := strip txt in
    let txt := if String.prefix fence txt then remove_fences txt else txt in
    match json_loads txt with
    | Some v => v
    | None =>
        match bracket_search txt with
        | Some group1 =>
            match json_loads group1 with
            | Some v => v
            | None =>
                let fixed_txt := group1 in
                let fixed_txt :=
                  if negb (endswith fixed_txt "]")
                  then fixed_txt ++ tail_fix
                  else fixed_txt in
                match json_loads fixed_txt with
                | Some v => v
                | None => JArr []
                end
            end
        | None => JArr []
        end
    end.

(** ** [pdf_utils.py]: the figure tag pattern *)

Definition is_char_ci (u : ascii) (c : ascii) : bool :=
  Ascii.eqb (upper_char c) u.

(** [[\.\s]]: a dot or whitespace. *)
Definition is_dot_or_space (c : ascii) : bool :=
  (code c =? 46)%N || is_space c.

(** [fig_pattern], FIG then any run of dots and whitespace then one or
    more digits, case-insensitive, tried at the start of [s]. *)
Definition fig_pattern_match (s : string) : bool :=
  match s with
  | String f (String i (String g r)) =>
      is_char_ci "F" f && is_char_ci "I" i && is_char_ci "G" g
      && negb (is_empty
                 (take_while is_decimal (drop_while is_dot_or_space r)))
  | _ => false
  end.

(** [len(fig_pattern.findall(text))].  A match starts with the letter F
    and holds no other F, so matches never overlap and their number is the
    number of positions where the pattern matches. *)
Fixpoint fig_pattern_count (text : string) : nat :=
  match text with
  | EmptyString => O
  | String _ r =>
      ((if fig_pattern_match text then 1 else 0) + fig_pattern_count r)%nat
  end.

(** ** [detect_and_correct_rotation] *)

Definition angles : list Z := [0; 90; 180; 270].

(** The candidate loop, lines 46-56: [fig_count angle] is the number of
    figure tags read at that angle. *)
Fixpoint rotation_loop (fig_count : Z -> nat) (angles : list Z)
  (best_angle max_figs : Z) : Z :=
  match angles with
  | [] => best_angle
  | angle :: rest =>
      let c := Z.of_nat (fig_count angle) in
      let best_angle' := if max_figs <? c then angle else best_angle in
      let max_figs' := if max_figs <? c then c else max_figs in
      if 2 <=? c then best_angle'
      else rotation_loop fig_count rest best_angle' max_figs'
  end.

(** The same loop without the [break]: the plain stable argmax the
    specification describes. *)
Fixpoint argmax_loop (fig_count : Z -> nat) (angles : list Z)
  (best_angle max_figs : Z) : Z :=
  match angles with
  | [] => best_angle
  | angle :: rest =>
      let c := Z.of_nat (fig_count angle) in
      let best_angle' := if max_figs <? c then angle else best_angle in
      let max_figs' := if max_figs <? c then c else max_figs in
      argmax_loop fig_count rest best_angle' max_figs'
  end.

(** An image: its pixel content and its [info] dict. *)
Record image (pixels : Type) : Type := {
  pixel_data : pixels;
  info : list (string * Z)
}.
Arguments pixel_data {pixels} i.
Arguments info {pixels} i.

Section Rotation.
Variable pixels : Type.
(** [img.rotate(angle, expand=True)] on the pixel content. *)
Variable rotate : pixels -> Z -> pixels.
(** [img.copy()] followed by [thumbnail((1000, 1000))]. *)
Variable thumbnail : pixels -> pixels.
(** [pytesseract.image_to_string]. *)
Variable image_to_string : pixels -> string.

Definition fig_count_at (img : image pixels) (angle : Z) : nat :=
  let test_img := thumbnail (pixel_data img) in
  fig_pattern_count (image_to_string (rotate test_img angle)).

Definition detect_and_correct_rotation (img : image pixels) : image pixels :=
  let best_angle := rotation_loop (fig_count_at img) angles 0 (-1) in
  let img :=
    if negb (best_angle =? 0)
    then {| pixel_data := rotate (pixel_data img) best_angle;
            info := info img |}
    else img in
  {| pixel_data := pixel_data img;
     info := dict_set String.eqb "auto_rotate_deg" best_angle (info img) |}.

End Rotation.

(** ** [get_unified_content_bbox] *)

Section Unify.
(** Python numbers: the floats, with the integer 0 the right and bottom
    start from. *)
Variable num : Type.
Variable inf zero : num.
(** [img.width / detect_w] and [bbox[i] * ratio], as the float unit
    rounds them. *)
Variable truediv : Z -> Z -> num.
Variable mul : Z -> num -> num.
Variable lt : num -> num -> bool.

(** [min(a, b)] and [max(a, b)]: the first argument unless the second is
    strictly smaller, respectively greater. *)
Definition py_min (a b : num) : num := if lt b a then b else a.
Definition py_max (a b : num) : num := if lt a b then b else a.

Definition box (A : Type) : Type := A * A * A * A.

(** A page as the loop sees it: its width and the box [getbbox] found on
    its inverted grayscale proxy, if any. *)
Definition page_proxy : Type := Z * option (box Z).

Definition detect_w : Z := 800.

Fixpoint unify_loop (images : list page_proxy) (g : box num) (found_any : bool)
  : box num * bool :=
  match images with
  | [] => (g, found_any)
  | (width, bbox) :: rest =>
      let ratio := truediv width detect_w in
      match bbox with
      | Some (l, t, r, b) =>
          let '(g_left, g_top, g_right, g_bottom) := g in
          unify_loop rest
            (py_min g_left (mul l ratio), py_min g_top (mul t ratio),
             py_max g_right (mul r ratio), py_max g_bottom (mul b ratio))
            true
      | None => unify_loop rest g found_any
      end
  end.

Definition get_unified_content_bbox (images : list page_proxy)
  : option (box num) :=
  let '(g, found_any) := unify_loop images (inf, inf, zero, zero) false in
  if found_any then Some g else None.

End Unify.

(** ** [get_ocr_hints] *)

(** [comp_pattern.match(text)]: one or more digits, an optional letter,
    zero to two prime marks, then [$]. *)
Definition comp_pattern_match (s : string) : bool :=
  let digits := take_while is_decimal s in
  let r := drop_while is_decimal s in
  let r :=
    match r with
    | String c r' => if is_letter c then r' else r
    | EmptyString => r
    end in
  let r :=
    match r with
    | String c r' => if is_prime_char c then r' else r
    | EmptyString => r
    end in
  let r :=
    match r with
    | String c r' => if is_prime_char c then r' else r
    | EmptyString => r
    end in
  negb (is_empty digits) && at_dollar r.

(** One row of [image_to_data]'s output. *)
Record token : Type := {
  text : string;
  conf : Z;
  left : Z;
  top : Z;
  width : Z;
  height : Z
}.

Inductive hint_type : Type := figure_label | component.

Record hint : Type := {
  type : hint_type;
  hint_text : string;
  box_2d : list Z
}.

(** The loop body, lines 132-159, for one row.  [int(a * 1000 / d)]
    truncates the quotient; the image dimensions are positive. *)
Definition hints_of_token (w_img h_img : Z) (tok : token) : list hint :=
  let text := strip (text tok) in
  let conf := conf tok in
  if (conf <? 20) || is_empty text then []
  else if (isdigit text && (6 <? len text)) || String.eqb text "0" then []
  else
    let ymin := Z.quot (top tok * 1000) h_img in
    let xmin := Z.quot (left tok * 1000) w_img in
    let ymax := Z.quot ((top tok + height tok) * 1000) h_img in
    let xmax := Z.quot ((left tok + width tok) * 1000) w_img in
    let norm_box := [ymin; xmin; ymax; xmax] in
    if fig_pattern_match text
    then [ {| type := figure_label; hint_text := text; box_2d := norm_box |} ]
    else if comp_pattern_match text || (len text =? 1)
    then [ {| type := component; hint_text := text; box_2d := norm_box |} ]
    else [].

Definition get_ocr_hints (w_img h_img : Z) (data : list token) : list hint :=
  flat_map (hints_of_token w_img h_img) data.

(** ** Notions the properties are stated with *)

(** *** Rotation *)

(** The angles the candidate loop evaluates: up to and including the
    first one whose count reaches 2. *)
Fixpoint evaluated (fig_count : Z -> nat) (angles : list Z) : list Z :=
  match angles with
  | [] => []
  | angle :: rest =>
      if 2 <=? Z.of_nat (fig_count angle) then [angle]
      else angle :: evaluated fig_count rest
  end.

(** [a] is the first-seen element of [l] with the maximal count. *)
Definition first_argmax (fig_count : Z -> nat) (l : list Z) (a : Z) : Prop :=
  exists pre post,
    l = (pre ++ a :: post)%list
    /\ (forall b, In b pre -> (fig_count b < fig_count a)%nat)
    /\ (forall b, In b post -> (fig_count b <= fig_count a)%nat).

(** No angle after the first one whose count reaches 2 has a strictly
    higher count than it. *)
Fixpoint no_later_higher (fig_count : Z -> nat) (angles : list Z) : bool :=
  match angles with
  | [] => true
  | angle :: rest =>
      if 2 <=? Z.of_nat (fig_count angle)
      then forallb (fun b => (fig_count b <=? fig_count angle)%nat) rest
      else no_later_higher fig_count rest
  end.

(** A test page whose pixel content is its orientation: the detector
    reads three figure tags when the proxy is turned by 90 degrees and two
    at every other angle. *)
Definition demo_rotate (p angle : Z) : Z := p + angle.
Definition demo_thumbnail (p : Z) : Z := p.
Definition demo_image_to_string (p : Z) : string :=
  if p =? 90 then "FIG. 1 FIG. 2 FIG. 3" else "FIG. 1 FIG. 2".
Definition demo_page : image Z := {| pixel_data := 0; info := [] |}.

(** *** Response parsing *)

(** The decoded value is a list. *)
Definition is_list (v : json) : bool :=
  match v with JArr _ => true | _ => false end.

(** A partial decoder for the examples: it decodes the texts that are one
    decimal integer without sign or leading zero and raises on every other
    text, so it agrees with [json.loads] wherever it returns a value. *)
Definition loads_integer (txt : string) : option json :=
  match txt with
  | EmptyString => None
  | String c r =>
      if str_all is_decimal txt && (is_empty r || negb (code c =? 48)%N)
      then Some (JInt (int_of_digits txt))
      else None
  end.

(** *** Content bounds *)

(** The union of content boxes as the specification describes it: each
    page's box scaled by that page's ratio, then the minimum of lefts and
    tops and the maximum of rights and bottoms, started from the first box
    found. *)
Section UnifySpec.
Variable num : Type.
Variable inf zero : num.
Variable truediv : Z -> Z -> num.
Variable mul : Z -> num -> num.
Variable lt : num -> num -> bool.

Definition scaled_box (width : Z) (b : box Z) : box num :=
  let ratio := truediv width detect_w in
  let '(l, t, r, bt) := b in
  (mul l ratio, mul t ratio, mul r ratio, mul bt ratio).

Definition scaled_boxes (images : list page_proxy) : list (box num) :=
  flat_map
    (fun im : page_proxy =>
       match snd im with
       | Some b => [scaled_box (fst im) b]
       | None => []
       end)
    images.

Definition box_union (g b : box num) : box num :=
  let '(g_left, g_top, g_right, g_bottom) := g in
  let '(l, t, r, bt) := b in
  (py_min num lt g_left l, py_min num lt g_top t,
   py_max num lt g_right r, py_max num lt g_bottom bt).

Definition running_union (boxes : list (box num)) : option (box num) :=
  match boxes with
  | [] => None
  | b :: rest => Some (fold_left box_union rest b)
  end.

(** A scaled box is finite and its right and bottom edges are positive,
    as for every box [getbbox] returns on a page of positive width. *)
Definition finite_positive (b : box num) : Prop :=
  let '(l, t, r, bt) := b in
  lt l inf = true /\ lt t inf = true
  /\ lt zero r = true /\ lt zero bt = true.

Definition left_of (b : box num) : num := fst (fst (fst b)).
Definition top_of (b : box num) : num := snd (fst (fst b)).
Definition right_of (b : box num) : num := snd (fst b).
Definition bottom_of (b : box num) : num := snd b.

End UnifySpec.

(** Exact arithmetic, for the examples: a number is a rational or
    infinity, quotients and products are not rounded. *)
Inductive xnum : Type := Fin (q : Q) | Inf.

Definition x_truediv (a b : Z) : xnum := Fin (Qred (Qmake a (Z.to_pos b))).

Definition x_mul (a : Z) (r : xnum) : xnum :=
  match r with
  | Fin q => Fin (Qred (inject_Z a * q))
  | Inf => Inf
  end.

Definition x_lt (a b : xnum) : bool :=
  match a, b with
  | Fin p, Fin q => negb (Qle_bool q p)
  | Fin _, Inf => true
  | Inf, _ => false
  end.

Definition x_of_Z (n : Z) : xnum := Fin (inject_Z n).

(** *** Orders and sorted lists *)

(** A strict total order given by its boolean test. *)
Record strict_total {A : Type} (ltb : A -> A -> bool) : Prop := {
  st_irrefl : forall a, ltb a a = false;
  st_trans : forall a b c, ltb a b = true -> ltb b c = true -> ltb a c = true;
  st_total : forall a b, ltb a b = false -> ltb b a = false -> a = b
}.

(** The lexicographic order of pairs. *)
Definition lex_ltb {A B : Type} (ltA : A -> A -> bool) (ltB : B -> B -> bool)
  (x y : A * B) : bool :=
  ltA (fst x) (fst y) || (negb (ltA (fst y) (fst x)) && ltB (snd x) (snd y)).

(** [l] is in non-decreasing order of [key]: no element has a key
    strictly below the key of an element before it. *)
Definition sorted_by {A K : Type} (key : A -> K) (ltb : K -> K -> bool)
  (l : list A) : Prop :=
  StronglySorted (fun a b => ltb (key b) (key a) = false) l.

(** *** Shapes of strings *)

(** The last character of [s] is whitespace. *)
Fixpoint ends_with_space (s : string) : bool :=
  match s with
  | EmptyString => false
  | String c EmptyString => is_space c
  | String _ r => ends_with_space r
  end.

(** The last character of [s] is a decimal digit. *)
Fixpoint ends_with_decimal (s : string) : bool :=
  match s with
  | EmptyString => false
  | String c EmptyString => is_decimal c
  | String _ r => ends_with_decimal r
  end.

(** [s] is empty or begins with a character outside class [p]. *)
Definition stops (p : ascii -> bool) (s : string) : Prop :=
  match s with
  | EmptyString => True
  | String c _ => p c = false
  end.

Definition not_decimal (c : ascii) : bool := negb (is_decimal c).

(** [l] is empty or a single letter of [[A-Za-z]]. *)
Definition optional_letter (l : string) : Prop :=
  l = "" \/ exists c, l = String c "" /\ is_letter c = true.

(** The component shape: a non-empty run of [[a-zA-Z0-9\-]] followed by
    zero to two prime marks. *)
Definition component_shape (s : string) : Prop :=
  exists main prime,
    s = main ++ prime
    /\ main <> ""
    /\ str_all is_main_char main = true
    /\ str_all is_prime_char prime = true
    /\ (String.length prime <= 2)%nat.

(** [c] holds a letter of [[A-Za-z]]. *)
Definition contains_letter (c : string) : bool :=
  negb (str_all (fun ch => negb (is_letter ch)) c).

(** [t] ends with the figure pattern of the code: the digit run [d], any
    whitespace, and [l], an optional letter. *)
Definition trailing_figure (t d l : string) : Prop :=
  exists p w,
    t = p ++ d ++ w ++ l
    /\ ends_with_decimal p = false
    /\ d <> "" /\ str_all is_decimal d = true
    /\ str_all is_space w = true
    /\ optional_letter l.

(** [s] ends with the pattern as the specification words it: the digit
    run [d] directly followed by [l], an optional letter. *)
Definition literal_trailing_figure (s d l : string) : Prop :=
  exists p,
    s = p ++ d ++ l
    /\ ends_with_decimal p = false
    /\ d <> "" /\ str_all is_decimal d = true
    /\ optional_letter l.

(** [run] is the first run of decimal digits of [t]. *)
Definition first_run (t run : string) : Prop :=
  exists p q,
    t = p ++ run ++ q
    /\ str_all not_decimal p = true
    /\ run <> "" /\ str_all is_decimal run = true
    /\ stops is_decimal q.

(** Figure id normalisation as the specification words it. *)
Definition figure_normalization_as_stated (s : string) : Prop :=
  (forall d l, literal_trailing_figure s d l ->
     _normalize_figure (JStr s) = "FIG. " ++ d ++ upper l)
  /\ ((~ exists d l, literal_trailing_figure s d l) ->
      forall run, first_run s run ->
        _normalize_figure (JStr s) = "FIG. " ++ run)
  /\ (str_all not_decimal s = true -> _normalize_figure (JStr s) = "").

(** [t] begins with a figure tag: the letters F, I, G in either case, a
    run of dots and whitespace, and one or more digits. *)
Definition figure_tag_prefix (t : string) : Prop :=
  exists f i g sep digits rest,
    t = String f (String i (String g (sep ++ digits ++ rest)))
    /\ is_char_ci "F" f = true /\ is_char_ci "I" i = true
    /\ is_char_ci "G" g = true
    /\ str_all is_dot_or_space sep = true
    /\ digits <> "" /\ str_all is_decimal digits = true.

(** [t] is one or more digits, an optional letter and zero to two prime
    marks. *)
Definition numeral_shape (t : string) : Prop :=
  exists d l p,
    t = d ++ l ++ p
    /\ d <> "" /\ str_all is_decimal d = true
    /\ optional_letter l
    /\ str_all is_prime_char p = true /\ (String.length p <= 2)%nat.

(** *** Hints *)

(** The normalised box of a token. *)
Definition norm_box_of (w_img h_img : Z) (tok : token) : list Z :=
  [ Z.quot (top tok * 1000) h_img;
    Z.quot (left tok * 1000) w_img;
    Z.quot ((top tok + height tok) * 1000) h_img;
    Z.quot ((left tok + width tok) * 1000) w_img ].

(** A detected token with the given text and confidence, at a fixed
    place of the page. *)
Definition token_of (t : string) (c : Z) : token :=
  {| text := t; conf := c; left := 100; top := 200; width := 30; height := 20 |}.

(** *** Entries and records of the merge *)

(** The entries of a run, each with the number of the page it came
    from, in the order the merge loop visits them. *)
Definition entries_of (responses : list (Z * list json)) : list (Z * json) :=
  flat_map (fun pr => map (pair (fst pr)) (snd pr)) responses.

(** The normalised figure id of an entry. *)
Definition entry_figure (item : json) : string :=
  match item with
  | JObj fields => _normalize_figure (get fields "figure" (JStr ""))
  | _ => ""
  end.

Definition entry_key (e : Z * json) : merge_key :=
  (fst e, entry_figure (snd e)).

(** The cleaned component list of an entry. *)
Definition entry_components (order : set_iteration) (item : json)
  : list string :=
  match item with
  | JObj fields =>
      match py_iter (get fields "components" (JArr [])) with
      | Returned comps => _clean_components order comps
      | Raised _ => []
      end
  | _ => []
  end.

(** The hierarchy list of an entry, empty when it has none. *)
Definition entry_hierarchy (item : json) : list json :=
  match item with
  | JObj fields =>
      match dict_find String.eqb "hierarchy" fields with
      | Some h =>
          match py_iter h with
          | Returned hs => hs
          | Raised _ => []
          end
      | None => []
      end
  | _ => []
  end.

Definition iterable (v : json) : bool :=
  match v with
  | JArr _ | JStr _ | JObj _ => true
  | _ => false
  end.

(** A parsed model entry: an object, and, when its figure id normalises
    to a non-empty string, one whose components and hierarchy, when
    present, can be iterated over. *)
Definition well_formed_entry (item : json) : bool :=
  match item with
  | JObj fields =>
      is_empty (entry_figure item)
      || (iterable (get fields "components" (JArr []))
          && match dict_find String.eqb "hierarchy" fields with
             | Some h => iterable h
             | None => true
             end)
  | _ => false
  end.

Definition record_key (r : figure_record) : merge_key := (page r, figure r).

(** The entries of [es] that are merged under key [k]. *)
Definition entries_with_key (k : merge_key) (es : list (Z * json))
  : list (Z * json) :=
  filter (fun e => merge_key_eqb (entry_key e) k) es.

(** The merge loop over the entries of all pages. *)
Fixpoint merge_entries (order : set_iteration) (merged : merged_map)
  (es : list (Z * json)) : outcome merged_map :=
  match es with
  | [] => Returned merged
  | e :: rest =>
      merged <- merge_item order (fst e) merged (snd e) ;;
      merge_entries order merged rest
  end.

(** What one keyed entry does to the record of its key. *)
Definition merged_record (order : set_iteration) (r : figure_record)
  (item : json) : figure_record :=
  {| page := page r; figure := figure r;
     components :=
       sorted _component_sort_key key_ltb
         (order (components r ++ entry_components order item)%list);
     hierarchy := (hierarchy r ++ entry_hierarchy item)%list |}.

(** What a Figure Record holds once the entries [es] are merged: its
    components are the deduplicated union of the cleaned component lists
    of the entries of its key, in sort key order, and its hierarchy is the
    concatenation of their hierarchy lists. *)
Definition record_of_entries (order : set_iteration) (es : list (Z * json))
  (r : figure_record) : Prop :=
  snd (record_key r) <> ""
  /\ NoDup (components r)
  /\ sorted_by _component_sort_key key_ltb (components r)
  /\ (forall c,
        In c (components r)
        <-> exists e, In e es /\ entry_key e = record_key r
                      /\ In c (entry_components order (snd e)))
  /\ hierarchy r
     = flat_map (fun e => entry_hierarchy (snd e))
         (entries_with_key (record_key r) es).

(** The invariant of the merge loop after the entries [es]. *)
Definition merge_inv (order : set_iteration) (es : list (Z * json))
  (merged : merged_map) : Prop :=
  NoDup (map fst merged)
  /\ (forall k r, In (k, r) merged ->
        record_key r = k /\ record_of_entries order es r)
  /\ (forall k, In k (map fst merged)
        <-> snd k <> "" /\ exists e, In e es /\ entry_key e = k).

(** The example of the specification: two entries of page 1, both
    labelled FIG. 2, with components 10, 20 and 20, 30 and one hierarchy
    relation each. *)
Definition demo_relation : json :=
  JObj [("parent", JStr "20"); ("children", JArr [JStr "201"; JStr "202"])].

Definition demo_entry (fig : string) (comps : list string) : json :=
  JObj [ ("page", JInt 1); ("figure", JStr fig);
         ("components", JArr (map JStr comps));
         ("hierarchy", JArr [demo_relation]) ].

Definition demo_responses : list (Z * list json) :=
  [ (1, [ demo_entry "FIG. 2" ["10"; "20"];
          demo_entry "FIG. 2" ["20"; "30"] ]) ].

(** The labels that survive the shape filter and the single-digit rule,
    before deduplication and sorting. *)
Definition surviving (stripped : list string) : list string :=
  let comps := filter matches_component stripped in
  if existsb (fun c => 2 <=? len c) (filter isdigit comps)
  then filter (fun c => negb (isdigit c && (len c <? 2))) comps
  else comps.

(** *** Figure ids *)

(** The canonical form of a figure id: FIG., a space, a digit run and an
    optional upper-case letter. *)
Definition figure_id_normal_form (f : string) : Prop :=
  exists d l,
    f = "FIG. " ++ d ++ l
    /\ d <> "" /\ str_all is_decimal d = true
    /\ (l = "" \/ exists c, l = String c "" /\ is_upper c = true).

(** The stripped texts of the string elements of a decoded list, the
    first comprehension of the component cleaning. *)
Definition stripped_strings (comps : list json) : list string :=
  flat_map (fun c => match c with JStr c => [strip c] | _ => [] end) comps.

(** *** Reply texts *)

(** The text the first decoding attempt is made on: stripped, and with
    the fences removed when it starts with one. *)
Definition cleaned_text (txt : string) : string :=
  let t := strip txt in
  if String.prefix fence t then remove_fences t else t.

Definition is_backtick (c : ascii) : bool := (code c =? 96)%N.

(** A reply as the model is asked to avoid but often gives it: the body
    between an opening json fence and a closing fence, each on its own
    line. *)
Definition fenced (body : string) : string :=
  fence ++ "json" ++ newline ++ body ++ newline ++ fence.

(** *** Page replies *)

(** [extract_figures_with_lmm], lines 111-157: the page loop on what the
    model call gave for each page. *)
Section PageReplies.
(** The truth value of a decoded float, given by its text. *)
Variable float_truth : string -> bool.

(** [bool(v)]. *)
Definition truthy (v : json) : bool :=
  match v with
  | JNull => false
  | JBool b => b
  | JInt n => negb (n =? 0)
  | JFloat r => float_truth r
  | JStr s => negb (is_empty s)
  | JArr l => negb (Nat.eqb (List.length l) 0)
  | JObj f => negb (Nat.eqb (List.length f) 0)
  end.

(** [len(v)]. *)
Definition py_len (v : json) : outcome Z :=
  match v with
  | JStr s => Returned (len s)
  | JArr l => Returned (Z.of_nat (List.length l))
  | JObj f => Returned (Z.of_nat (List.length f))
  | _ => Raised TypeError
  end.

(** The [try] block, lines 124-133: [call] is the value the model call
    returned, [None] when it raised.  A falsy value is kept; of a truthy
    one the length is taken for the message, and whatever raises inside
    the block leaves the empty list. *)
Definition page_result (call : option json) : json :=
  match call with
  | None => JArr []
  | Some res =>
      if negb (truthy res) then res
      else match py_len res with
           | Returned _ => res
           | Raised _ => JArr []
           end
  end.

(** [res or []]. *)
Definition or_empty (res : json) : json :=
  if truthy res then res else JArr [].

Fixpoint run_pages (order : set_iteration) (merged : merged_map)
  (calls : list (Z * option json)) : outcome merged_map :=
  match calls with
  | [] => Returned merged
  | (page_no, call) :: rest =>
      let res := page_result call in
      items <- py_iter (or_empty res) ;;
      merged <- merge_items order page_no merged items ;;
      run_pages order merged rest
  end.

End PageReplies.

(** The entries the page loop visits for one call: the elements of a
    list, the characters of a string, the keys of an object, and nothing
    for any other value or a call that raised. *)
Definition entries_of_call (call : option json) : list json :=
  match call with
  | Some (JArr l) => l
  | Some (JStr s) => map JStr (chars s)
  | Some (JObj f) => map (fun kv => JStr (fst kv)) f
  | _ => []
  end.

(** *** Cropping *)

(** [apply_uniform_crop], [pdf_utils.py] lines 95-111. *)
Section Crop.
(** Python numbers: the edges of the unified box are floats, the padding
    and the image size are integers. *)
Variable num : Type.
Variable of_int : Z -> num.
(** [x - padding] and [x + padding]. *)
Variable sub add : num -> Z -> num.
Variable lt : num -> num -> bool.
Variable pixels : Type.
(** [img.crop(box)] on the pixel content; the new image gets a copy of
    the [info] dict. *)
Variable crop : pixels -> box num -> pixels.
(** [img.size]. *)
Variable size : pixels -> Z * Z.

(** The padded box, clamped to the image: lines 105-109. *)
Definition crop_rectangle (bbox : box num) (padding w h : Z) : box num :=
  let '(l, t, r, b) := bbox in
  let l := py_max num lt (of_int 0) (sub l padding) in
  let t := py_max num lt (of_int 0) (sub t padding) in
  let r := py_min num lt (of_int w) (add r padding) in
  let b := py_min num lt (of_int h) (add b padding) in
  (l, t, r, b).

Definition apply_uniform_crop (img : image pixels) (bbox : option (box num))
  (padding : Z) : image pixels :=
  match bbox with
  | None => img
  | Some bbox =>
      let '(w, h) := size (pixel_data img) in
      {| pixel_data := crop (pixel_data img) (crop_rectangle bbox padding w h);
         info := info img |}
  end.

End Crop.

(** Exact addition of an integer, for the examples. *)
Definition x_add (a : xnum) (n : Z) : xnum :=
  match a with
  | Fin q => Fin (Qred (q + inject_Z n))
  | Inf => Inf
  end.

Definition x_sub (a : xnum) (n : Z) : xnum := x_add a (- n).

(** *** [app.py]: the page selection of [parse] *)

(** The answers with status 400, and the [IndexError] a subscript out of
    range would raise, answered with status 500. *)
Inductive rejection : Type :=
| page_must_be_int
| page_out_of_range
| range_must_be_int
| invalid_range
| index_error.

Inductive selection (A : Type) : Type :=
| Rejected (e : rejection)
| Selected (selected : list A) (page_numbers : option (list Z)).
Arguments Rejected {A} e.
Arguments Selected {A} selected page_numbers.

(** The truth value of [request.args.get(name)]: present and not empty. *)
Definition given (param : option string) : bool :=
  match param with
  | Some s => negb (is_empty s)
  | None => false
  end.

Definition param_text (param : option string) : string :=
  match param with Some s => s | None => "" end.

(** [l[i:j]] for indices that are not negative. *)
Definition slice {A : Type} (l : list A) (i j : Z) : list A :=
  firstn (Z.to_nat j - Z.to_nat i) (skipn (Z.to_nat i) l).

(** [list(range(a, b))]. *)
Definition range (a b : Z) : list Z :=
  map (fun k => a + Z.of_nat k) (seq 0 (Z.to_nat (b - a))).

(** Lines 40-76 of [parse]: [int] is Python's conversion of a parameter
    text, [None] when it raises [ValueError]; [pages] are the page images
    of the document. *)
Definition select_pages {A : Type} (int : string -> option Z)
  (page_param frm_param to_param : option string) (pages : list A)
  : selection A :=
  let total := Z.of_nat (List.length pages) in
  if given page_param then
    match int (param_text page_param) with
    | None => Rejected page_must_be_int
    | Some p =>
        if (p <? 1) || (total <? p) then Rejected page_out_of_range
        else
          match nth_error pages (Z.to_nat (p - 1)) with
          | Some x => Selected [x] (Some [p])
          | None => Rejected index_error
          end
    end
  else if given frm_param || given to_param then
    match (if given frm_param then int (param_text frm_param) else Some 1),
          (if given to_param then int (param_text to_param) else Some total)
    with
    | Some frm, Some to =>
        if (frm <? 1) || (to <? 1) || (to <? frm) || (total <? to)
        then Rejected invalid_range
        else Selected (slice pages (frm - 1) to) (Some (range frm (to + 1)))
    | _, _ => Rejected range_must_be_int
    end
  else Selected pages None.

(** The pages with their numbers as the page loop of
    [extract_figures_with_lmm] pairs them, lines 98-99 and 111:
    [zip(page_numbers, pages)], the numbers 1 to the number of pages when
    none are given. *)
Definition numbered {A : Type} (selected : list A)
  (page_numbers : option (list Z)) : list (Z * A) :=
  let page_numbers :=
    match page_numbers with
    | Some l => l
    | None => range 1 (Z.of_nat (List.length selected) + 1)
    end in
  combine page_numbers selected.

(** *** Entries that read the same *)

(** Two entries agree on what the merge loop reads of an entry: the
    fields figure, components and hierarchy. *)
Definition same_read_fields (a b : json) : Prop :=
  match a, b with
  | JObj f, JObj g =>
      forall k, In k ["figure"; "components"; "hierarchy"] ->
                dict_find String.eqb k f = dict_find String.eqb k g
  | _, _ => a = b
  end.

(** Two runs have the same page numbers and, page by page, entries that
    agree on those fields. *)
Definition same_read_responses (r r' : list (Z * list json)) : Prop :=
  Forall2 (fun pr pr' => fst pr = fst pr'
                         /\ Forall2 same_read_fields (snd pr) (snd pr')) r r'.

(** *** The merge contract *)





(** * Properties *)

(** ** Rotation detection *)

Lemma rotation_loop_evaluated fig_count l best m :
  rotation_loop fig_count l best m
  = argmax_loop fig_count (evaluated fig_count l) best m.
Proof.
  revert best m; induction l as [|a l IH]; intros best m; simpl.
  - reflexivity.
  - destruct (2 <=? Z.of_nat (fig_count a)) eqn:E; simpl.
    + reflexivity.
    + apply IH.
Qed.

Lemma argmax_loop_acc fig_count l :
  forall seen best,
    first_argmax fig_count seen best ->
    first_argmax fig_count (seen ++ l)
      (argmax_loop fig_count l best (Z.of_nat (fig_count best))).
Proof.
  induction l as [|a l IH]; intros seen best Hb; simpl.
  - now rewrite app_nil_r.
  - replace (seen ++ a :: l)%list with ((seen ++ [a]) ++ l)%list
      by now rewrite <- app_assoc.
    destruct Hb as (pre & post & -> & Hpre & Hpost).
    destruct (Z.of_nat (fig_count best) <? Z.of_nat (fig_count a)) eqn:E.
    + apply IH. exists (pre ++ best :: post)%list, [].
      split; [reflexivity|]. split; [|intros b []].
      apply Z.ltb_lt in E. intros b Hin.
      apply in_app_or in Hin. destruct Hin as [Hin|[<-|Hin]].
      * specialize (Hpre b Hin). lia.
      * lia.
      * specialize (Hpost b Hin). lia.
    + apply IH. exists pre, (post ++ [a])%list.
      split; [now rewrite <- app_assoc|]. split; [exact Hpre|].
      apply Z.ltb_ge in E. intros b Hin.
      apply in_app_or in Hin. destruct Hin as [Hin|[<-|[]]].
      * now apply Hpost.
      * lia.
Qed.

Lemma argmax_loop_first_argmax fig_count a l best :
  first_argmax fig_count (a :: l) (argmax_loop fig_count (a :: l) best (-1)).
Proof.
  simpl.
  assert (E : (-1 <? Z.of_nat (fig_count a)) = true) by (apply Z.ltb_lt; lia).
  rewrite E.
  apply (argmax_loop_acc fig_count l [a] a).
  exists [], []. split; [reflexivity|]. split; intros b [].
Qed.

Lemma evaluated_cons fig_count a l :
  exists l', evaluated fig_count (a :: l) = a :: l'.
Proof.
  simpl. destruct (2 <=? Z.of_nat (fig_count a)); eauto.
Qed.

Lemma rotation_loop_first_argmax fig_count a l best :
  first_argmax fig_count (evaluated fig_count (a :: l))
    (rotation_loop fig_count (a :: l) best (-1)).
Proof.
  rewrite rotation_loop_evaluated.
  destruct (evaluated_cons fig_count a l) as [l' ->].
  apply argmax_loop_first_argmax.
Qed.

Lemma first_argmax_max fig_count l a :
  first_argmax fig_count l a ->
  forall b, In b l -> (fig_count b <= fig_count a)%nat.
Proof.
  intros (pre & post & -> & Hpre & Hpost) b Hin.
  apply in_app_or in Hin. destruct Hin as [Hin|[<-|Hin]].
  - specialize (Hpre b Hin). lia.
  - lia.
  - now apply Hpost.
Qed.

Lemma argmax_loop_bounds fig_count l best :
  let x := argmax_loop fig_count l best (Z.of_nat (fig_count best)) in
  (fig_count best <= fig_count x)%nat
  /\ forall b, In b l -> (fig_count b <= fig_count x)%nat.
Proof.
  intros x.
  assert (H : first_argmax fig_count ([best] ++ l) x).
  { apply argmax_loop_acc. exists [], []. split; [reflexivity|].
    split; intros b []. }
  split.
  - apply (first_argmax_max _ _ _ H). now left.
  - intros b Hb. apply (first_argmax_max _ _ _ H). now right.
Qed.

Lemma argmax_loop_keeps_best fig_count l best :
  (forall b, In b l -> (fig_count b <= fig_count best)%nat) ->
  argmax_loop fig_count l best (Z.of_nat (fig_count best)) = best.
Proof.
  induction l as [|a l IH]; intros H; simpl.
  - reflexivity.
  - assert (Ha : (fig_count a <= fig_count best)%nat) by (apply H; now left).
    assert (E : (Z.of_nat (fig_count best) <? Z.of_nat (fig_count a)) = false)
      by (apply Z.ltb_ge; lia).
    rewrite E. apply IH. intros b Hb. apply H. now right.
Qed.

Lemma early_exit_agrees fig_count l :
  forall best m,
    m < 2 ->
    no_later_higher fig_count l = true ->
    rotation_loop fig_count l best m = argmax_loop fig_count l best m.
Proof.
  induction l as [|a l IH]; intros best m Hm Hn; simpl in *.
  - reflexivity.
  - destruct (2 <=? Z.of_nat (fig_count a)) eqn:E.
    + apply Z.leb_le in E.
      assert (E' : (m <? Z.of_nat (fig_count a)) = true)
        by (apply Z.ltb_lt; lia).
      rewrite E'. symmetry. apply argmax_loop_keeps_best.
      intros b Hb. rewrite forallb_forall in Hn.
      specialize (Hn b Hb). now apply Nat.leb_le in Hn.
    + apply Z.leb_gt in E. apply IH; [|exact Hn].
      destruct (m <? Z.of_nat (fig_count a)); lia.
Qed.

Lemma early_exit_differs fig_count l :
  forall best m,
    m < 2 ->
    no_later_higher fig_count l = false ->
    rotation_loop fig_count l best m <> argmax_loop fig_count l best m.
Proof.
  induction l as [|a l IH]; intros best m Hm Hn; simpl in *.
  - discriminate.
  - destruct (2 <=? Z.of_nat (fig_count a)) eqn:E.
    + apply Z.leb_le in E.
      assert (E' : (m <? Z.of_nat (fig_count a)) = true)
        by (apply Z.ltb_lt; lia).
      rewrite E'.
      assert (Hex : exists b, In b l /\ (fig_count a < fig_count b)%nat).
      { clear - Hn. induction l as [|b l IHl]; simpl in Hn; [discriminate|].
        destruct (fig_count b <=? fig_count a)%nat eqn:Eb; simpl in Hn.
        - destruct (IHl Hn) as (c & Hc & Hlt). exists c. split; [now right|lia].
        - apply Nat.leb_gt in Eb. exists b. split; [now left|lia]. }
      destruct Hex as (b & Hb & Hlt).
      destruct (argmax_loop_bounds fig_count l a) as [_ Hmax].
      specialize (Hmax b Hb). intros Heq. rewrite <- Heq in Hmax. lia.
    + apply Z.leb_gt in E. apply IH; [|exact Hn].
      destruct (m <? Z.of_nat (fig_count a)); lia.
Qed.

(** C3, as stated, fails: with counts 2 at angle 0 and 3 at angle 90 the
    loop with the early exit returns 0 and the plain stable argmax
    returns 90. *)
Lemma early_exit_is_not_plain_argmax :
  ~ (forall fig_count : Z -> nat,
       rotation_loop fig_count angles 0 (-1)
       = argmax_loop fig_count angles 0 (-1)).
Proof.
  intros H.
  specialize (H (fun a => if a =? 0 then 2%nat else if a =? 90 then 3%nat else 0%nat)).
  vm_compute in H. discriminate.
Qed.

Lemma no_later_higher_false fig_count l :
  no_later_higher fig_count l = false ->
  exists pre a post b,
    l = (pre ++ a :: post)%list
    /\ (forall x, In x pre -> (fig_count x < 2)%nat)
    /\ (2 <= fig_count a)%nat
    /\ In b post /\ (fig_count a < fig_count b)%nat.
Proof.
  induction l as [|a l IH]; simpl; [discriminate|].
  destruct (2 <=? Z.of_nat (fig_count a)) eqn:E; intros Hn.
  - apply Z.leb_le in E.
    assert (Hex : exists b, In b l /\ (fig_count a < fig_count b)%nat).
    { clear - Hn. induction l as [|b l IHl]; simpl in Hn; [discriminate|].
      destruct (fig_count b <=? fig_count a)%nat eqn:Eb.
      - destruct (IHl Hn) as (x & Hx & Hlt). exists x. split; [now right|exact Hlt].
      - apply Nat.leb_gt in Eb. exists b. split; [now left|exact Eb]. }
    destruct Hex as (b & Hb & Hlt).
    exists [], a, l, b. repeat split; try assumption; [intros x []|lia].
  - apply Z.leb_gt in E.
    destruct (IH Hn) as (pre & a' & post & b & -> & Hpre & Ha & Hb & Hlt).
    exists (a :: pre), a', post, b. repeat split; try assumption.
    intros x [<-|Hx]; [lia|now apply Hpre].
Qed.

(** The loop with the early exit returns the first angle whose count
    reaches 2, when there is one. *)
Lemma rotation_loop_first_reaching fig_count pre a post :
  forall best m,
    m < 2 ->
    (forall x, In x pre -> (fig_count x < 2)%nat) ->
    (2 <= fig_count a)%nat ->
    rotation_loop fig_count (pre ++ a :: post) best m = a.
Proof.
  induction pre as [|x pre IH]; intros best m Hm Hpre Ha; simpl.
  - assert (E : (2 <=? Z.of_nat (fig_count a)) = true) by (apply Z.leb_le; lia).
    assert (E' : (m <? Z.of_nat (fig_count a)) = true) by (apply Z.ltb_lt; lia).
    now rewrite E, E'.
  - assert (Hx : (fig_count x < 2)%nat) by (apply Hpre; now left).
    assert (E : (2 <=? Z.of_nat (fig_count x)) = false)
      by (apply Z.leb_gt; lia).
    rewrite E. apply IH; [|intros y Hy; apply Hpre; now right|exact Ha].
    destruct (m <? Z.of_nat (fig_count x)); lia.
Qed.

(** C3, amended: for every assignment of counts to the angles, the loop
    with the early exit returns the same angle as the plain stable argmax
    exactly when no angle after the first one whose count reaches 2 has a
    strictly higher count than it; otherwise the loop with the early exit
    returns that first angle and the plain argmax returns a later angle,
    one with a strictly higher count. *)
Theorem early_exit_refines_argmax_iff (fig_count : Z -> nat) :
  let early := rotation_loop fig_count angles 0 (-1) in
  let plain := argmax_loop fig_count angles 0 (-1) in
  (early = plain <-> no_later_higher fig_count angles = true)
  /\ (no_later_higher fig_count angles = false ->
      exists pre a post,
        angles = (pre ++ a :: post)%list
        /\ (forall b, In b pre -> (fig_count b < 2)%nat)
        /\ (2 <= fig_count a)%nat
        /\ early = a
        /\ In plain post
        /\ (fig_count a < fig_count plain)%nat).
Proof.
  intros early plain. split.
  - split.
    + intros Heq. destruct (no_later_higher fig_count angles) eqn:E.
      * reflexivity.
      * exfalso. revert Heq. apply early_exit_differs; [lia|exact E].
    + apply early_exit_agrees. lia.
  - intros Hn.
    destruct (no_later_higher_false fig_count angles Hn)
      as (pre & a & post & b & Heq & Hpre & Ha & Hb & Hlt).
    exists pre, a, post.
    assert (Hmax : first_argmax fig_count angles plain)
      by apply argmax_loop_first_argmax.
    assert (Hplain : (fig_count a < fig_count plain)%nat).
    { assert (H : (fig_count b <= fig_count plain)%nat).
      { apply (first_argmax_max _ _ _ Hmax). rewrite Heq.
        apply in_or_app. right. now right. }
      lia. }
    repeat split; try assumption.
    + unfold early. rewrite Heq.
      apply rotation_loop_first_reaching; [lia|exact Hpre|exact Ha].
    + assert (Hin : In plain angles).
      { destruct Hmax as (p & q & E & _). rewrite E.
        apply in_or_app. right. now left. }
      rewrite Heq in Hin. apply in_app_or in Hin.
      destruct Hin as [Hin|[Hin|Hin]].
      * specialize (Hpre _ Hin). lia.
      * rewrite <- Hin in Hplain. lia.
      * exact Hin.
Qed.

(** ** Dictionaries *)

Section DictFacts.
Context {K V : Type}.
Variable keq : K -> K -> bool.
Hypothesis keq_eq : forall a b, keq a b = true <-> a = b.

Lemma keq_refl k : keq k k = true.
Proof. now apply keq_eq. Qed.

Lemma dict_find_set_same k (v : V) d :
  dict_find keq k (dict_set keq k v d) = Some v.
Proof.
  induction d as [|[k' v'] d IH]; simpl.
  - now rewrite keq_refl.
  - destruct (keq k k') eqn:E; simpl; rewrite E; [reflexivity|exact IH].
Qed.

Lemma dict_find_set_other k k2 (v : V) d :
  k2 <> k ->
  dict_find keq k2 (dict_set keq k v d) = dict_find keq k2 d.
Proof.
  intros Hne. induction d as [|[k' v'] d IH]; simpl.
  - destruct (keq k2 k) eqn:E; [|reflexivity].
    apply keq_eq in E. contradiction.
  - destruct (keq k k') eqn:E; simpl.
    + apply keq_eq in E. subst k'.
      destruct (keq k2 k) eqn:E2; [|reflexivity].
      apply keq_eq in E2. contradiction.
    + now rewrite IH.
Qed.

Lemma dict_set_keys_present k (v : V) d :
  dict_find keq k d <> None ->
  map fst (dict_set keq k v d) = map fst d.
Proof.
  induction d as [|[k' v'] d IH]; simpl; intros H.
  - contradiction.
  - destruct (keq k k') eqn:E; simpl; [reflexivity|].
    now rewrite IH.
Qed.

Lemma dict_set_keys_absent k (v : V) d :
  dict_find keq k d = None ->
  map fst (dict_set keq k v d) = (map fst d ++ [k])%list.
Proof.
  induction d as [|[k' v'] d IH]; simpl; intros H.
  - reflexivity.
  - destruct (keq k k') eqn:E; simpl; [discriminate|].
    now rewrite IH.
Qed.

Lemma dict_find_None_iff k (d : list (K * V)) :
  dict_find keq k d = None <-> ~ In k (map fst d).
Proof.
  induction d as [|[k' v'] d IH]; simpl.
  - tauto.
  - destruct (keq k k') eqn:E.
    + apply keq_eq in E. subst. split; [discriminate|]. intros H. elim H. now left.
    + rewrite IH. split.
      * intros H [H1|H1]; [|tauto]. subst. rewrite keq_refl in E. discriminate.
      * tauto.
Qed.

Lemma dict_find_In k (v : V) d :
  dict_find keq k d = Some v -> In (k, v) d.
Proof.
  induction d as [|[k' v'] d IH]; simpl; [discriminate|].
  destruct (keq k k') eqn:E.
  - apply keq_eq in E. subst. intros [= ->]. now left.
  - intros H. right. now apply IH.
Qed.

Lemma In_dict_find k (v : V) d :
  NoDup (map fst d) -> In (k, v) d -> dict_find keq k d = Some v.
Proof.
  induction d as [|[k' v'] d IH]; simpl; [tauto|].
  intros Hnd [H|H].
  - inversion H; subst. now rewrite keq_refl.
  - inversion Hnd as [|? ? Hni Hnd']; subst.
    destruct (keq k k') eqn:E.
    + apply keq_eq in E. subst. elim Hni.
      change k' with (fst (k', v)). now apply in_map.
    + now apply IH.
Qed.

End DictFacts.

Lemma string_eqb_eq a b : String.eqb a b = true <-> a = b.
Proof. apply String.eqb_eq. Qed.

(** ** Rotation correction *)

Lemma not_first_argmax_demo :
  ~ first_argmax
      (fig_count_at Z demo_rotate demo_thumbnail demo_image_to_string demo_page)
      angles 0.
Proof.
  intros (pre & post & Heq & _ & Hpost).
  destruct pre as [|x pre]; simpl in Heq.
  - injection Heq as <-.
    specialize (Hpost 90 (or_introl eq_refl)). vm_compute in Hpost. lia.
  - injection Heq as <- Heq.
    repeat (destruct pre as [|? pre]; simpl in Heq; try discriminate).
Qed.

(** C2, as stated, fails: on the test page the proxy reads two figure
    tags at angle 0 and three at angle 90; the loop stops at angle 0 and
    stores 0, which is not the first-seen angle with the maximal count. *)
Lemma rotation_stops_before_the_maximum :
  let fig_count :=
    fig_count_at Z demo_rotate demo_thumbnail demo_image_to_string demo_page in
  let out :=
    detect_and_correct_rotation Z demo_rotate demo_thumbnail
      demo_image_to_string demo_page in
  ~ (exists a,
       dict_find String.eqb "auto_rotate_deg" (info out) = Some a
       /\ first_argmax fig_count angles a).
Proof.
  intros fig_count out (a & Ha & Hmax).
  vm_compute in Ha. injection Ha as <-.
  now apply not_first_argmax_demo.
Qed.

(** C2, amended: for every image, with text detection a fixed function of
    the rotated proxy, the angle stored in the metadata is the first-seen
    angle with the maximal figure-tag count among the angles evaluated,
    that is up to and including the first angle whose count reaches 2;
    the full-resolution image is rotated by that angle, and left as it is
    when the angle is 0; every other metadata entry is kept; and when
    angles 0 and 90 both have the maximal count of all four the angle
    is 0. *)
Theorem detect_and_correct_rotation_spec
  (pixels : Type) (rotate : pixels -> Z -> pixels)
  (thumbnail : pixels -> pixels) (image_to_string : pixels -> string)
  (img : image pixels) :
  let fig_count := fig_count_at pixels rotate thumbnail image_to_string img in
  let out :=
    detect_and_correct_rotation pixels rotate thumbnail image_to_string img in
  exists a,
    dict_find String.eqb "auto_rotate_deg" (info out) = Some a
    /\ first_argmax fig_count (evaluated fig_count angles) a
    /\ pixel_data out
       = (if a =? 0 then pixel_data img else rotate (pixel_data img) a)
    /\ (forall k, k <> "auto_rotate_deg" ->
          dict_find String.eqb k (info out) = dict_find String.eqb k (info img))
    /\ (fig_count 0 = fig_count 90 ->
        (forall b, In b angles -> (fig_count b <= fig_count 0%Z)%nat) ->
        a = 0).
Proof.
  intros fig_count out.
  exists (rotation_loop fig_count angles 0 (-1)).
  assert (Hout : forall k,
            dict_find String.eqb k (info out)
            = dict_find String.eqb k
                (dict_set String.eqb "auto_rotate_deg"
                   (rotation_loop fig_count angles 0 (-1)) (info img))).
  { intros k. unfold out, detect_and_correct_rotation. fold fig_count.
    destruct (negb (rotation_loop fig_count angles 0 (-1) =? 0));
      reflexivity. }
  repeat split.
  - rewrite Hout. apply dict_find_set_same, string_eqb_eq.
  - apply rotation_loop_first_argmax.
  - unfold out, detect_and_correct_rotation. fold fig_count.
    destruct (rotation_loop fig_count angles 0 (-1) =? 0); reflexivity.
  - intros k Hk. rewrite Hout.
    apply dict_find_set_other; [apply string_eqb_eq|exact Hk].
  - intros Htie Hmax.
    pose proof (rotation_loop_first_argmax fig_count 0 [90; 180; 270] 0) as H.
    fold angles in H.
    destruct H as (pre & post & Heq & Hpre & _).
    destruct pre as [|x pre].
    + destruct (evaluated_cons fig_count 0 [90; 180; 270]) as [l' El].
      fold angles in El. rewrite El in Heq. simpl in Heq. now injection Heq.
    + exfalso.
      destruct (evaluated_cons fig_count 0 [90; 180; 270]) as [l' El].
      fold angles in El. rewrite El in Heq. simpl in Heq.
      injection Heq as <- Heq.
      specialize (Hpre 0 (or_introl eq_refl)).
      assert (Hin : In (rotation_loop fig_count angles 0 (-1)) angles).
      { assert (Hsub : forall l x, In x (evaluated fig_count l) -> In x l).
        { induction l as [|y l IH]; simpl; [tauto|].
          destruct (2 <=? Z.of_nat (fig_count y)); simpl; intuition. }
        apply Hsub. rewrite El. right. rewrite Heq.
        apply in_or_app. right. now left. }
      specialize (Hmax _ Hin). lia.
Qed.

(** ** The enumeration of first occurrences *)

Lemma first_seen_NoDup l : NoDup (first_seen l).
Proof. unfold first_seen. apply NoDup_rev, NoDup_nodup. Qed.

Lemma first_seen_In l x : In x (first_seen l) <-> In x l.
Proof.
  unfold first_seen. rewrite <- in_rev, nodup_In. symmetry. apply in_rev.
Qed.

Definition first_seen_order : set_iteration :=
  {| set_list := first_seen;
     set_list_NoDup := first_seen_NoDup;
     set_list_In := first_seen_In |}.

(** ** Entries whose figure is not a string *)

Lemma merge_items_app order page_no l1 l2 :
  forall merged,
    merge_items order page_no merged (l1 ++ l2)
    = (m <- merge_items order page_no merged l1 ;;
       merge_items order page_no m l2).
Proof.
  induction l1 as [|x l1 IH]; intros merged; simpl.
  - reflexivity.
  - destruct (merge_item order page_no merged x); simpl; [apply IH|reflexivity].
Qed.

Lemma merge_pages_app order l1 l2 :
  forall merged,
    merge_pages order merged (l1 ++ l2)
    = (m <- merge_pages order merged l1 ;; merge_pages order m l2).
Proof.
  induction l1 as [|[p res] l1 IH]; intros merged; simpl.
  - reflexivity.
  - destruct (merge_items order p merged res); simpl; [apply IH|reflexivity].
Qed.

Lemma normalize_figure_non_string v :
  (forall s, v <> JStr s) -> _normalize_figure v = "".
Proof.
  intros H. destruct v; try reflexivity. now elim (H s).
Qed.

(** C10: an entry whose figure value is not a string normalises to the
    empty figure id, the merge step leaves the record map as it was, and
    the run returns what it returns without that entry: no record, no
    component and no hierarchy relation comes from it. *)
Theorem non_string_figure_entry_dropped
  (order : set_iteration) (fields : list (string * json)) (v : json)
  (Hfig : dict_find String.eqb "figure" fields = Some v)
  (Hv : forall s, v <> JStr s) :
  _normalize_figure v = ""
  /\ (forall page_no merged,
        merge_item order page_no merged (JObj fields) = Returned merged)
  /\ (forall before page_no pre post after,
        extract_figures_with_lmm order
          (before ++ (page_no, pre ++ JObj fields :: post) :: after)%list
        = extract_figures_with_lmm order
            (before ++ (page_no, pre ++ post) :: after)%list).
Proof.
  assert (Hn : _normalize_figure v = "")
    by now apply normalize_figure_non_string.
  assert (Hstep : forall page_no merged,
            merge_item order page_no merged (JObj fields) = Returned merged).
  { intros page_no merged. unfold merge_item, get. rewrite Hfig, Hn.
    reflexivity. }
  repeat split; [exact Hn|exact Hstep|].
  intros before page_no pre post after.
  unfold extract_figures_with_lmm.
  rewrite !merge_pages_app.
  destruct (merge_pages order [] before) as [m|e]; simpl; [|reflexivity].
  rewrite !merge_items_app.
  destruct (merge_items order page_no m pre) as [m'|e]; simpl; [|reflexivity].
  change (merge_items order page_no m' (JObj fields :: post))
    with (x <- merge_item order page_no m' (JObj fields) ;;
          merge_items order page_no x post).
  now rewrite Hstep.
Qed.

Lemma non_string_figure_entry_dropped_witness :
  let fields :=
    [("figure", JInt 3); ("components", JArr [JStr "10"]);
     ("hierarchy", JArr [JNull])] in
  extract_figures_with_lmm first_seen_order [(1, [JObj fields])]
  = Returned [].
Proof.
  intros fields.
  assert (Hfig : dict_find String.eqb "figure" fields = Some (JInt 3))
    by reflexivity.
  assert (Hv : forall s, JInt 3 <> JStr s) by (intros s; discriminate).
  destruct (non_string_figure_entry_dropped first_seen_order fields (JInt 3)
              Hfig Hv) as (_ & _ & H).
  exact (H [] 1 [] [] []).
Defined.

(** ** The sentinel of the sort key *)

(** The sentinel is not above every leading number: the label [!] does
    not have the component shape and the numeral 10000 has it, yet the
    key of [!], with its sentinel 9999, is smaller than the key of 10000,
    and sorting places [!] first, against the comment of the code that
    non-matching labels go at the end. *)
Lemma nonmatching_label_sorts_before_long_numeral :
  matches_component "!" = false
  /\ matches_component "10000" = true
  /\ _component_sort_key "!" = (9999, "!", 9)
  /\ _component_sort_key "10000" = (10000, "10000", 0)
  /\ key_ltb (_component_sort_key "!") (_component_sort_key "10000") = true
  /\ sorted _component_sort_key key_ltb ["10000"; "!"] = ["!"; "10000"].
Proof. repeat split. Qed.

(** Below the sentinel the order is the intended one: a label whose
    stripped text has the shape and a leading number under 9999 sorts
    before every label whose stripped text does not have the shape. *)
Lemma matching_below_sentinel_sorts_first s t :
  matches_component (strip s) = false ->
  matches_component (strip t) = true ->
  fst (fst (_component_sort_key t)) < 9999 ->
  key_ltb (_component_sort_key t) (_component_sort_key s) = true.
Proof.
  unfold matches_component, _component_sort_key.
  destruct (_COMPONENT_RE_fullmatch (strip s)); [discriminate|].
  destruct (_COMPONENT_RE_fullmatch (strip t)) as [[m p]|]; [|discriminate].
  simpl. intros _ _ H. apply Z.ltb_lt in H. now rewrite H.
Qed.

(** Two labels whose stripped texts do not have the shape are ordered by
    the lexical order of their stripped texts. *)
Lemma nonmatching_labels_in_lexical_order s t :
  matches_component (strip s) = false ->
  matches_component (strip t) = false ->
  key_ltb (_component_sort_key s) (_component_sort_key t)
  = str_ltb (strip s) (strip t).
Proof.
  unfold matches_component, _component_sort_key.
  destruct (_COMPONENT_RE_fullmatch (strip s)); [discriminate|].
  destruct (_COMPONENT_RE_fullmatch (strip t)); [discriminate|].
  intros _ _. simpl.
  destruct (str_ltb (strip s) (strip t)); [reflexivity|].
  simpl. apply andb_false_r.
Qed.

(** ** The response parser *)

(** Whatever the decoder does, the parser returns a value the decoder
    returned or the empty list. *)
Lemma parse_json_array_result json_loads txt :
  _parse_json_array json_loads txt = JArr []
  \/ exists t, json_loads t = Some (_parse_json_array json_loads txt).
Proof.
  unfold _parse_json_array.
  destruct (is_empty txt); [now left|].
  set (t := if String.prefix fence (strip txt) then _ else _).
  destruct (json_loads t) eqn:E1; [right; eauto|].
  destruct (bracket_search t) as [g|]; [|now left].
  destruct (json_loads g) eqn:E2; [right; eauto|].
  set (f := if negb (endswith g "]") then _ else _).
  destruct (json_loads f) eqn:E3; [right; eauto|now left].
Qed.

(** A decoder that only ever returns lists makes the parser return a
    list. *)
Lemma parse_json_array_list_if_loads_list json_loads txt :
  (forall t v, json_loads t = Some v -> is_list v = true) ->
  is_list (_parse_json_array json_loads txt) = true.
Proof.
  intros H. destruct (parse_json_array_result json_loads txt) as [->|[t Ht]].
  - reflexivity.
  - now apply (H t).
Qed.

Lemma endswith_cons c s suffix :
  endswith s suffix = true -> endswith (String c s) suffix = true.
Proof. intros H. simpl. rewrite H. apply orb_true_r. Qed.

Lemma keep_through_last_endswith c s :
  keep_through_last c s <> "" ->
  endswith (keep_through_last c s) (String c "") = true.
Proof.
  induction s as [|x s IH]; cbn [keep_through_last]; [intros H; now elim H|].
  destruct (keep_through_last c s) as [|y k] eqn:E; cbn [is_empty].
  - destruct (Ascii.eqb_spec x c) as [->|Hne]; [|intros H; now elim H].
    intros _. simpl. now rewrite Ascii.eqb_refl.
  - intros _. apply endswith_cons. apply IH. discriminate.
Qed.

(** The text the bracket search returns always ends with a closing
    bracket, so the tail fix never appends anything: the third decoding
    attempt is the second one again. *)
Lemma bracket_search_endswith s g :
  bracket_search s = Some g -> endswith g "]" = true.
Proof.
  unfold bracket_search.
  destruct (drop_until "[" s) as [|c r]; [discriminate|].
  destruct (is_empty (keep_through_last "]" r)) eqn:E; [discriminate|].
  intros [= <-]. apply endswith_cons.
  apply keep_through_last_endswith.
  intros H. rewrite H in E. discriminate.
Qed.

(** C4 fails on the code: when the text, stripped, does not start with a
    fence and decodes, the parser returns the decoded value as it is,
    whether it is a list or not. *)
Theorem parse_json_array_returns_decoded_value
  (json_loads : string -> option json) (txt : string) (v : json)
  (Hne : is_empty txt = false)
  (Hfence : String.prefix fence (strip txt) = false)
  (Hloads : json_loads (strip txt) = Some v) :
  _parse_json_array json_loads txt = v.
Proof.
  unfold _parse_json_array. now rewrite Hne, Hfence, Hloads.
Qed.

Lemma parse_json_array_returns_decoded_value_witness :
  _parse_json_array loads_integer "42" = JInt 42
  /\ is_list (_parse_json_array loads_integer "42") = false.
Proof.
  assert (H : _parse_json_array loads_integer "42" = JInt 42).
  { apply (parse_json_array_returns_decoded_value loads_integer "42" (JInt 42));
      reflexivity. }
  split; [exact H|]. rewrite H. reflexivity.
Defined.

(** ** Unified content bounds *)

Section UnifyFacts.
Variable num : Type.
Variable inf zero : num.
Variable truediv : Z -> Z -> num.
Variable mul : Z -> num -> num.
Variable lt : num -> num -> bool.

Lemma unify_loop_spec images :
  forall g found,
    unify_loop num truediv mul lt images g found
    = (fold_left (box_union num lt) (scaled_boxes num truediv mul images) g,
       found || negb (forallb (fun im : page_proxy =>
                                 match snd im with
                                 | Some _ => false
                                 | None => true
                                 end) images)).
Proof.
  induction images as [|[w [[[[l t] r] b]|]] images IH]; intros g found; simpl.
  - now rewrite orb_false_r.
  - destruct g as [[[gl gt] gr] gb].
    rewrite IH. simpl. now rewrite orb_true_r.
  - now rewrite IH.
Qed.

Lemma scaled_boxes_nil_iff images :
  scaled_boxes num truediv mul images = []
  <-> forall im, In im images -> snd im = None.
Proof.
  induction images as [|[w [b|]] images IH]; simpl.
  - split; [intros _ im []|reflexivity].
  - split; [discriminate|]. intros H.
    specialize (H (w, Some b) (or_introl eq_refl)). discriminate.
  - rewrite IH. split.
    + intros H im [<-|Hin]; [reflexivity|now apply H].
    + intros H im Hin. apply H. now right.
Qed.

Lemma no_box_forallb images :
  forallb (fun im : page_proxy =>
             match snd im with Some _ => false | None => true end) images
  = match scaled_boxes num truediv mul images with
    | [] => true
    | _ => false
    end.
Proof.
  induction images as [|[w [b|]] images IH]; simpl; auto.
Qed.

Lemma box_union_start b :
  finite_positive num inf zero lt b ->
  box_union num lt (inf, inf, zero, zero) b = b.
Proof.
  destruct b as [[[l t] r] bt]. simpl. intros (Hl & Ht & Hr & Hb).
  unfold py_min, py_max. now rewrite Hl, Ht, Hr, Hb.
Qed.

(** The components of a union of boxes are the folds of [min] and [max]
    over the components. *)
Lemma fold_box_union_components rest :
  forall b,
    fold_left (box_union num lt) rest b
    = (fold_left (py_min num lt) (map (left_of num) rest) (left_of num b),
       fold_left (py_min num lt) (map (top_of num) rest) (top_of num b),
       fold_left (py_max num lt) (map (right_of num) rest) (right_of num b),
       fold_left (py_max num lt) (map (bottom_of num) rest) (bottom_of num b)).
Proof.
  induction rest as [|[[[l t] r] bt] rest IH]; intros [[[gl gt] gr] gb].
  - reflexivity.
  - simpl. rewrite IH. reflexivity.
Qed.

Hypothesis lt_irrefl : forall a, lt a a = false.
Hypothesis lt_trans :
  forall a b c, lt a b = true -> lt b c = true -> lt a c = true.
Hypothesis ge_trans :
  forall a b c, lt b c = false -> lt a b = false -> lt a c = false.

Lemma lt_asym a b : lt a b = true -> lt b a = false.
Proof.
  intros H. destruct (lt b a) eqn:E; [|reflexivity].
  rewrite <- (lt_irrefl a). symmetry. now apply (lt_trans a b a).
Qed.

(** The fold of [min] returns an element of the list that no element is
    below, the fold of [max] one that no element is above. *)
Lemma fold_py_min_least l :
  forall a,
    let m := fold_left (py_min num lt) l a in
    In m (a :: l) /\ forall x, In x (a :: l) -> lt x m = false.
Proof.
  induction l as [|b l IH]; intros a; simpl.
  - split; [now left|]. intros x [<-|[]]. apply lt_irrefl.
  - destruct (IH (py_min num lt a b)) as [Hin Hle].
    set (m := fold_left (py_min num lt) l (py_min num lt a b)) in *.
    assert (Hm : lt (py_min num lt a b) m = false) by (apply Hle; now left).
    assert (Ha : lt a (py_min num lt a b) = false).
    { unfold py_min. destruct (lt b a) eqn:E;
        [now apply lt_asym|apply lt_irrefl]. }
    assert (Hb : lt b (py_min num lt a b) = false).
    { unfold py_min. destruct (lt b a) eqn:E; [apply lt_irrefl|exact E]. }
    split.
    + destruct Hin as [Hin|Hin]; [|now right; right].
      rewrite <- Hin. unfold py_min. destruct (lt b a); [right|]; now left.
    + intros x [<-|[<-|Hx]].
      * exact (ge_trans _ _ _ Hm Ha).
      * exact (ge_trans _ _ _ Hm Hb).
      * apply Hle. now right.
Qed.

Lemma fold_py_max_greatest l :
  forall a,
    let m := fold_left (py_max num lt) l a in
    In m (a :: l) /\ forall x, In x (a :: l) -> lt m x = false.
Proof.
  induction l as [|b l IH]; intros a; simpl.
  - split; [now left|]. intros x [<-|[]]. apply lt_irrefl.
  - destruct (IH (py_max num lt a b)) as [Hin Hle].
    set (m := fold_left (py_max num lt) l (py_max num lt a b)) in *.
    assert (Hm : lt m (py_max num lt a b) = false) by (apply Hle; now left).
    assert (Ha : lt (py_max num lt a b) a = false).
    { unfold py_max. destruct (lt a b) eqn:E;
        [now apply lt_asym|apply lt_irrefl]. }
    assert (Hb : lt (py_max num lt a b) b = false).
    { unfold py_max. destruct (lt a b) eqn:E; [apply lt_irrefl|exact E]. }
    split.
    + destruct Hin as [Hin|Hin]; [|now right; right].
      rewrite <- Hin. unfold py_max. destruct (lt a b); [right|]; now left.
    + intros x [<-|[<-|Hx]].
      * exact (ge_trans _ _ _ Ha Hm).
      * exact (ge_trans _ _ _ Hb Hm).
      * apply Hle. now right.
Qed.

End UnifyFacts.

Lemma get_unified_content_bbox_running_union
  (num : Type) (inf zero : num) (truediv : Z -> Z -> num)
  (mul : Z -> num -> num) (lt : num -> num -> bool)
  (images : list page_proxy) :
  Forall (finite_positive num inf zero lt)
    (scaled_boxes num truediv mul images) ->
  get_unified_content_bbox num inf zero truediv mul lt images
  = running_union num lt (scaled_boxes num truediv mul images).
Proof.
  intros Hboxes.
  unfold get_unified_content_bbox. rewrite unify_loop_spec.
  rewrite (no_box_forallb num truediv mul).
  destruct (scaled_boxes num truediv mul images) as [|b rest];
    cbn [fold_left running_union orb negb].
  - reflexivity.
  - rewrite (box_union_start num inf zero lt b); [reflexivity|].
    now inversion Hboxes.
Qed.

(** Under a strict weak order on the numbers, the unified box is made of
    extreme edges: its left edge is the left edge of some page's scaled
    box and none lies further left, and likewise for the top, right and
    bottom edges. *)
Lemma unified_box_is_min_max
  (num : Type) (inf zero : num) (truediv : Z -> Z -> num)
  (mul : Z -> num -> num) (lt : num -> num -> bool)
  (lt_irrefl : forall a, lt a a = false)
  (lt_trans : forall a b c, lt a b = true -> lt b c = true -> lt a c = true)
  (ge_trans : forall a b c, lt b c = false -> lt a b = false -> lt a c = false)
  (images : list page_proxy) (g : box num) :
  let boxes := scaled_boxes num truediv mul images in
  Forall (finite_positive num inf zero lt) boxes ->
  get_unified_content_bbox num inf zero truediv mul lt images = Some g ->
  (In (left_of num g) (map (left_of num) boxes)
   /\ forall b, In b boxes -> lt (left_of num b) (left_of num g) = false)
  /\ (In (top_of num g) (map (top_of num) boxes)
      /\ forall b, In b boxes -> lt (top_of num b) (top_of num g) = false)
  /\ (In (right_of num g) (map (right_of num) boxes)
      /\ forall b, In b boxes -> lt (right_of num g) (right_of num b) = false)
  /\ (In (bottom_of num g) (map (bottom_of num) boxes)
      /\ forall b, In b boxes ->
           lt (bottom_of num g) (bottom_of num b) = false).
Proof.
  intros boxes Hboxes Hg.
  rewrite (get_unified_content_bbox_running_union num inf zero truediv mul lt
             images Hboxes) in Hg.
  fold boxes in Hg.
  destruct boxes as [|b0 rest]; [discriminate|].
  simpl in Hg. injection Hg as <-.
  rewrite fold_box_union_components. unfold left_of, top_of, right_of, bottom_of.
  cbn [fst snd].
  pose proof (fold_py_min_least num lt lt_irrefl lt_trans ge_trans
                (map (left_of num) rest) (left_of num b0)) as [Hl1 Hl2].
  pose proof (fold_py_min_least num lt lt_irrefl lt_trans ge_trans
                (map (top_of num) rest) (top_of num b0)) as [Ht1 Ht2].
  pose proof (fold_py_max_greatest num lt lt_irrefl lt_trans ge_trans
                (map (right_of num) rest) (right_of num b0)) as [Hr1 Hr2].
  pose proof (fold_py_max_greatest num lt lt_irrefl lt_trans ge_trans
                (map (bottom_of num) rest) (bottom_of num b0)) as [Hb1 Hb2].
  unfold left_of, top_of, right_of, bottom_of in *.
  repeat split; try assumption.
  - intros b Hb. apply Hl2.
    apply (in_map (fun b : box num => fst (fst (fst b)))) in Hb. exact Hb.
  - intros b Hb. apply Ht2.
    apply (in_map (fun b : box num => snd (fst (fst b)))) in Hb. exact Hb.
  - intros b Hb. apply Hr2.
    apply (in_map (fun b : box num => snd (fst b))) in Hb. exact Hb.
  - intros b Hb. apply Hb2.
    apply (in_map (fun b : box num => snd b)) in Hb. exact Hb.
Qed.

(** ** Orders *)

Section StrictTotalFacts.
Context {A : Type} (ltb : A -> A -> bool).
Hypothesis Hst : strict_total ltb.

Lemma st_asym a b : ltb a b = true -> ltb b a = false.
Proof.
  intros H. destruct (ltb b a) eqn:E; [|reflexivity].
  rewrite <- (st_irrefl ltb Hst a). symmetry.
  exact (st_trans ltb Hst a b a H E).
Qed.

Lemma st_ge_trans a b c :
  ltb b c = false -> ltb a b = false -> ltb a c = false.
Proof.
  intros Hbc Hab. destruct (ltb a c) eqn:Hac; [|reflexivity].
  destruct (ltb b a) eqn:Hba.
  - rewrite (st_trans ltb Hst b a c Hba Hac) in Hbc. discriminate.
  - assert (a = b) by now apply (st_total ltb Hst).
    subst b. rewrite Hac in Hbc. discriminate.
Qed.

End StrictTotalFacts.

Lemma lex_strict_total {A B : Type} (ltA : A -> A -> bool)
  (ltB : B -> B -> bool) :
  strict_total ltA -> strict_total ltB -> strict_total (lex_ltb ltA ltB).
Proof.
  intros HA HB. split.
  - intros [a b]. unfold lex_ltb. simpl.
    now rewrite (st_irrefl ltA HA), (st_irrefl ltB HB).
  - intros [a1 b1] [a2 b2] [a3 b3]. unfold lex_ltb. simpl. intros H12 H23.
    destruct (ltA a1 a2) eqn:E12; simpl in H12.
    + destruct (ltA a2 a3) eqn:E23; simpl in H23.
      * now rewrite (st_trans ltA HA _ _ _ E12 E23).
      * destruct (ltA a3 a2) eqn:E32; [discriminate|].
        assert (a2 = a3) by now apply (st_total ltA HA).
        subst a3. now rewrite E12.
    + destruct (ltA a2 a1) eqn:E21; [discriminate|]. simpl in H12.
      assert (a1 = a2) by now apply (st_total ltA HA).
      subst a2.
      destruct (ltA a1 a3) eqn:E13; simpl in *; [reflexivity|].
      destruct (ltA a3 a1); [discriminate|]. simpl in *.
      exact (st_trans ltB HB _ _ _ H12 H23).
  - intros [a1 b1] [a2 b2]. unfold lex_ltb. simpl. intros H12 H21.
    destruct (ltA a1 a2) eqn:E12; [discriminate|].
    destruct (ltA a2 a1) eqn:E21; [discriminate|]. simpl in *.
    f_equal; [now apply (st_total ltA HA)|now apply (st_total ltB HB)].
Qed.

Lemma Z_ltb_strict_total : strict_total Z.ltb.
Proof.
  split.
  - intros a. apply Z.ltb_irrefl.
  - intros a b c H1 H2. apply Z.ltb_lt in H1, H2. apply Z.ltb_lt. lia.
  - intros a b H1 H2. apply Z.ltb_ge in H1, H2. lia.
Qed.

Lemma ascii_compare_refl c : Ascii.compare c c = Eq.
Proof. unfold Ascii.compare. apply N.compare_refl. Qed.

Lemma ascii_compare_eq c d : Ascii.compare c d = Eq <-> c = d.
Proof.
  split; [apply Ascii.compare_eq_iff|]. intros ->. apply ascii_compare_refl.
Qed.

Lemma ascii_compare_lt_trans a b c :
  Ascii.compare a b = Lt -> Ascii.compare b c = Lt -> Ascii.compare a c = Lt.
Proof.
  unfold Ascii.compare. rewrite !N.compare_lt_iff. lia.
Qed.

Lemma string_compare_refl s : String.compare s s = Eq.
Proof.
  induction s as [|c s IH]; simpl; [reflexivity|].
  now rewrite ascii_compare_refl.
Qed.

Lemma string_compare_lt_trans a :
  forall b c,
    String.compare a b = Lt -> String.compare b c = Lt ->
    String.compare a c = Lt.
Proof.
  induction a as [|x a IH]; intros [|y b] [|z c]; simpl;
    try discriminate; auto.
  destruct (Ascii.compare x y) eqn:Exy; try discriminate;
    destruct (Ascii.compare y z) eqn:Eyz; try discriminate; intros H1 H2.
  - apply ascii_compare_eq in Exy, Eyz. subst.
    rewrite ascii_compare_refl. now apply (IH b).
  - apply ascii_compare_eq in Exy. subst. now rewrite Eyz.
  - apply ascii_compare_eq in Eyz. subst. now rewrite Exy.
  - now rewrite (ascii_compare_lt_trans _ _ _ Exy Eyz).
Qed.

Lemma str_ltb_strict_total : strict_total str_ltb.
Proof.
  split; unfold str_ltb.
  - intros a. now rewrite string_compare_refl.
  - intros a b c H1 H2.
    destruct (String.compare a b) eqn:E1; try discriminate.
    destruct (String.compare b c) eqn:E2; try discriminate.
    now rewrite (string_compare_lt_trans _ _ _ E1 E2).
  - intros a b H1 H2. apply String.compare_eq_iff.
    rewrite String.compare_antisym in H2.
    destruct (String.compare a b); simpl in *; try discriminate; reflexivity.
Qed.

Lemma str_ltb_eqb a b :
  str_ltb a b = false -> String.eqb a b = negb (str_ltb b a).
Proof.
  intros H. destruct (String.eqb_spec a b) as [->|Hne].
  - now rewrite (st_irrefl _ str_ltb_strict_total).
  - destruct (str_ltb b a) eqn:E; [reflexivity|].
    elim Hne. now apply (st_total _ str_ltb_strict_total).
Qed.

Lemma key_ltb_lex a b :
  key_ltb a b = lex_ltb (lex_ltb Z.ltb str_ltb) Z.ltb a b.
Proof.
  destruct a as [[n1 s1] p1], b as [[n2 s2] p2]. unfold key_ltb, lex_ltb.
  simpl.
  destruct (Z.ltb_spec n1 n2), (Z.ltb_spec n2 n1), (Z.eqb_spec n1 n2);
    simpl; try lia; try reflexivity.
  destruct (str_ltb s1 s2) eqn:E12; simpl; [reflexivity|].
  now rewrite (str_ltb_eqb _ _ E12).
Qed.

Lemma key_ltb_strict_total : strict_total key_ltb.
Proof.
  pose proof (lex_strict_total _ _
    (lex_strict_total _ _ Z_ltb_strict_total str_ltb_strict_total)
    Z_ltb_strict_total) as H.
  split.
  - intros a. rewrite key_ltb_lex. apply (st_irrefl _ H).
  - intros a b c. rewrite !key_ltb_lex. apply (st_trans _ H).
  - intros a b. rewrite !key_ltb_lex. apply (st_total _ H).
Qed.



(** ** The stable sort *)

Section SortedFacts.
Context {A K : Type}.
Variable key : A -> K.
Variable ltb : K -> K -> bool.
Hypothesis Hst : strict_total ltb.

Lemma insert_sorted_perm x l :
  Permutation (insert_sorted key ltb x l) (x :: l).
Proof.
  induction l as [|y l IH]; simpl.
  - reflexivity.
  - destruct (ltb (key x) (key y)); [reflexivity|].
    rewrite IH. apply perm_swap.
Qed.

Lemma fold_insert_perm l :
  forall acc,
    Permutation (fold_left (fun acc x => insert_sorted key ltb x acc) l acc)
      (acc ++ l).
Proof.
  induction l as [|x l IH]; intros acc; simpl.
  - now rewrite app_nil_r.
  - rewrite IH, insert_sorted_perm. apply Permutation_middle.
Qed.

Lemma sorted_perm l : Permutation (sorted key ltb l) l.
Proof. unfold sorted. now rewrite fold_insert_perm. Qed.

Lemma sorted_In l x : In x (sorted key ltb l) <-> In x l.
Proof.
  split; apply Permutation_in; [|symmetry]; apply sorted_perm.
Qed.

Lemma sorted_NoDup l : NoDup l -> NoDup (sorted key ltb l).
Proof.
  intros H. eapply Permutation_NoDup; [symmetry; apply sorted_perm|exact H].
Qed.

Lemma insert_sorted_sorted x l :
  sorted_by key ltb l -> sorted_by key ltb (insert_sorted key ltb x l).
Proof.
  unfold sorted_by. induction l as [|y l IH]; simpl; intros Hs.
  - repeat constructor.
  - inversion Hs as [|? ? Hl Hy]; subst.
    destruct (ltb (key x) (key y)) eqn:E.
    + constructor; [exact Hs|].
      constructor; [now apply (st_asym ltb Hst)|].
      rewrite Forall_forall in *. intros z Hz.
      apply (st_ge_trans ltb Hst _ (key y)); [|now apply Hy].
      now apply (st_asym ltb Hst).
    + constructor; [now apply IH|].
      rewrite Forall_forall in *. intros z Hz.
      apply (Permutation_in _ (insert_sorted_perm x l)) in Hz.
      destruct Hz as [<-|Hz]; [exact E|now apply Hy].
Qed.

Lemma sorted_sorted l : sorted_by key ltb (sorted key ltb l).
Proof.
  unfold sorted.
  assert (H : forall acc, sorted_by key ltb acc ->
            sorted_by key ltb
              (fold_left (fun acc x => insert_sorted key ltb x acc) l acc)).
  { induction l as [|x l IH]; intros acc Hacc; simpl; [exact Hacc|].
    apply IH. now apply insert_sorted_sorted. }
  apply H. constructor.
Qed.

End SortedFacts.

(** ** Character classes *)

Ltac char_cases c :=
  destruct c as [[] [] [] [] [] [] [] []]; vm_compute;
  intros; try reflexivity; try discriminate.

Lemma prime_not_main c : is_prime_char c = true -> is_main_char c = false.
Proof. char_cases c. Qed.

Lemma decimal_not_space c : is_decimal c = true -> is_space c = false.
Proof. char_cases c. Qed.

Lemma decimal_not_letter c : is_decimal c = true -> is_letter c = false.
Proof. char_cases c. Qed.

Lemma decimal_not_prime c : is_decimal c = true -> is_prime_char c = false.
Proof. char_cases c. Qed.

Lemma letter_not_decimal c : is_letter c = true -> is_decimal c = false.
Proof. char_cases c. Qed.

Lemma letter_not_space c : is_letter c = true -> is_space c = false.
Proof. char_cases c. Qed.

Lemma letter_not_prime c : is_letter c = true -> is_prime_char c = false.
Proof. char_cases c. Qed.

Lemma prime_not_decimal c : is_prime_char c = true -> is_decimal c = false.
Proof. char_cases c. Qed.

Lemma prime_not_letter c : is_prime_char c = true -> is_letter c = false.
Proof. char_cases c. Qed.

Lemma space_not_decimal c : is_space c = true -> is_decimal c = false.
Proof. char_cases c. Qed.

Lemma digit_char_not_letter c : is_digit_char c = true -> is_letter c = false.
Proof. char_cases c. Qed.

Lemma newline_is_space c : (code c =? 10)%N = true -> is_space c = true.
Proof. char_cases c. Qed.

(** ** Strings *)

Lemma append_nil_r s : s ++ "" = s.
Proof. induction s as [|c s IH]; simpl; [reflexivity|now rewrite IH]. Qed.

Lemma append_assoc a b c : (a ++ b) ++ c = a ++ (b ++ c).
Proof. induction a as [|x a IH]; simpl; [reflexivity|now rewrite IH]. Qed.

Lemma length_append a b :
  String.length (a ++ b) = (String.length a + String.length b)%nat.
Proof. induction a as [|x a IH]; simpl; [reflexivity|now rewrite IH]. Qed.

Lemma is_empty_true s : is_empty s = true <-> s = "".
Proof. destruct s; simpl; split; intros; try discriminate; reflexivity. Qed.

Lemma is_empty_false s : is_empty s = false <-> s <> "".
Proof.
  destruct s; simpl; split; intros H; try discriminate; try reflexivity.
  now elim H.
Qed.

Lemma str_all_app p a b : str_all p (a ++ b) = str_all p a && str_all p b.
Proof.
  induction a as [|x a IH]; simpl; [reflexivity|].
  now rewrite IH, andb_assoc.
Qed.

Lemma take_drop_while p s : take_while p s ++ drop_while p s = s.
Proof.
  induction s as [|c s IH]; simpl; [reflexivity|].
  destruct (p c); simpl; [now rewrite IH|reflexivity].
Qed.

Lemma take_while_all p s : str_all p (take_while p s) = true.
Proof.
  induction s as [|c s IH]; simpl; [reflexivity|].
  destruct (p c) eqn:E; simpl; [now rewrite E|reflexivity].
Qed.

Lemma drop_while_stops p s : stops p (drop_while p s).
Proof.
  induction s as [|c s IH]; simpl; [exact I|].
  destruct (p c) eqn:E; [exact IH|exact E].
Qed.

Lemma take_while_app p a b :
  str_all p a = true -> stops p b -> take_while p (a ++ b) = a.
Proof.
  induction a as [|x a IH]; simpl; intros Ha Hb.
  - destruct b as [|c b]; simpl in *; [reflexivity|now rewrite Hb].
  - apply andb_prop in Ha. destruct Ha as [Hx Ha]. rewrite Hx.
    now rewrite IH.
Qed.

Lemma drop_while_app p a b :
  str_all p a = true -> stops p b -> drop_while p (a ++ b) = b.
Proof.
  induction a as [|x a IH]; simpl; intros Ha Hb.
  - destruct b as [|c b]; simpl in *; [reflexivity|now rewrite Hb].
  - apply andb_prop in Ha. destruct Ha as [Hx Ha]. rewrite Hx.
    now apply IH.
Qed.

Lemma drop_while_nil_all p s : drop_while p s = "" -> str_all p s = true.
Proof.
  induction s as [|c s IH]; simpl; [reflexivity|].
  destruct (p c); [exact IH|discriminate].
Qed.

Lemma str_all_impl (p q : ascii -> bool) s :
  (forall c, p c = true -> q c = true) ->
  str_all p s = true -> str_all q s = true.
Proof.
  intros H. induction s as [|c s IH]; simpl; [reflexivity|].
  intros Hs. apply andb_prop in Hs. destruct Hs as [Hc Hs].
  now rewrite (H c Hc), IH.
Qed.

Lemma ends_with_space_app a b :
  b <> "" -> ends_with_space (a ++ b) = ends_with_space b.
Proof.
  intros Hb. induction a as [|x a IH]; simpl; [reflexivity|].
  rewrite IH. destruct (a ++ b) eqn:E; [|reflexivity].
  destruct a; simpl in E; [now elim Hb|discriminate].
Qed.

Lemma rstrip_no_trailing_space s : ends_with_space (rstrip s) = false.
Proof.
  induction s as [|c s IH]; simpl; [reflexivity|].
  destruct (rstrip s) as [|d r] eqn:E; simpl.
  - destruct (is_space c) eqn:Ec; simpl; [reflexivity|exact Ec].
  - exact IH.
Qed.

Lemma strip_no_trailing_space s : ends_with_space (strip s) = false.
Proof. apply rstrip_no_trailing_space. Qed.

(** ** The component pattern *)

Lemma COMPONENT_RE_fullmatch_iff s main prime :
  _COMPONENT_RE_fullmatch s = Some (main, prime)
  <-> s = main ++ prime
      /\ main <> ""
      /\ str_all is_main_char main = true
      /\ str_all is_prime_char prime = true
      /\ (String.length prime <= 2)%nat.
Proof.
  unfold _COMPONENT_RE_fullmatch, len. split.
  - destruct (is_empty (take_while is_main_char s)) eqn:E; [discriminate|].
    destruct (str_all is_prime_char (drop_while is_main_char s)) eqn:Ep;
      [|discriminate].
    simpl. destruct (Z.leb_spec (Z.of_nat (String.length
                       (drop_while is_main_char s))) 2); [|discriminate].
    intros [= <- <-]. repeat split.
    + now rewrite take_drop_while.
    + now apply is_empty_false.
    + apply take_while_all.
    + exact Ep.
    + lia.
  - intros (-> & Hne & Hm & Hp & Hl).
    assert (Hstop : stops is_main_char prime).
    { destruct prime as [|c r]; simpl in *; [exact I|].
      apply andb_prop in Hp. now apply prime_not_main. }
    rewrite take_while_app, drop_while_app by assumption.
    apply is_empty_false in Hne. rewrite Hne, Hp. simpl.
    destruct (Z.leb_spec (Z.of_nat (String.length prime)) 2);
      [reflexivity|lia].
Qed.

Lemma matches_component_iff s :
  matches_component s = true <-> component_shape s.
Proof.
  unfold matches_component, component_shape. split.
  - destruct (_COMPONENT_RE_fullmatch s) as [[m p]|] eqn:E; [|discriminate].
    intros _. exists m, p. now apply COMPONENT_RE_fullmatch_iff.
  - intros (m & p & H). apply COMPONENT_RE_fullmatch_iff in H.
    now rewrite H.
Qed.

(** ** The order of the component sort key *)

(** C6, as stated, fails: the label 140 with a leading space does not
    have the component shape and the label 150 has it, yet the key is
    computed on the stripped label, so the first sorts before the
    second. *)
Lemma padded_label_sorts_among_matching :
  ~ (forall s t : string,
       ~ component_shape s -> component_shape t ->
       key_ltb (_component_sort_key t) (_component_sort_key s) = true).
Proof.
  intros H. specialize (H " 140" "150").
  assert (Hs : ~ component_shape " 140").
  { intros Hc. apply matches_component_iff in Hc. discriminate. }
  assert (Ht : component_shape "150") by now apply matches_component_iff.
  specialize (H Hs Ht). discriminate.
Qed.

(** C6, amended: the sort key is computed on the label stripped of
    surrounding whitespace.  For every label [s] whose stripped text does
    not have the component shape and every label [t] whose stripped text
    has it with a leading number, the first component of its key, below
    9999, the key ranks [s] strictly after [t]; and any two labels whose
    stripped texts do not have the shape are ordered between themselves
    by the lexical order of their stripped texts. *)
Theorem component_sort_key_order (s t : string) :
  (~ component_shape (strip s) -> component_shape (strip t) ->
   fst (fst (_component_sort_key t)) < 9999 ->
   key_ltb (_component_sort_key t) (_component_sort_key s) = true
   /\ key_ltb (_component_sort_key s) (_component_sort_key t) = false)
  /\ (~ component_shape (strip s) -> ~ component_shape (strip t) ->
      key_ltb (_component_sort_key s) (_component_sort_key t)
      = str_ltb (strip s) (strip t)).
Proof.
  assert (Hno : forall x, ~ component_shape x -> matches_component x = false).
  { intros x Hx. destruct (matches_component x) eqn:E; [|reflexivity].
    elim Hx. now apply matches_component_iff. }
  split.
  - intros Hs Ht Hnum. apply Hno in Hs. apply matches_component_iff in Ht.
    pose proof (matching_below_sentinel_sorts_first s t Hs Ht Hnum) as H.
    split; [exact H|]. now apply (st_asym key_ltb key_ltb_strict_total).
  - intros Hs Ht. apply nonmatching_labels_in_lexical_order; now apply Hno.
Qed.

(** ** Component cleaning *)

Lemma set_list_nil (order : set_iteration) : order [] = [].
Proof.
  destruct (order []) as [|x l] eqn:E; [reflexivity|].
  assert (H : In x (order [])) by (rewrite E; now left).
  apply set_list_In in H. destruct H.
Qed.

Lemma set_list_two (order : set_iteration) a b :
  a <> b -> order [a; b] = [a; b] \/ order [a; b] = [b; a].
Proof.
  intros Hab.
  assert (Hp : Permutation [a; b] (order [a; b])).
  { apply NoDup_Permutation.
    - constructor; [intros [H|[]]; now elim Hab|]. constructor; [intros []|].
      constructor.
    - apply set_list_NoDup.
    - intros x. symmetry. apply set_list_In. }
  now apply Permutation_length_2_inv in Hp.
Qed.

Lemma flat_map_strings xs :
  flat_map (fun c => match c with JStr c => [strip c] | _ => [] end)
    (map JStr xs) = map strip xs.
Proof. induction xs as [|x xs IH]; simpl; [reflexivity|now rewrite IH]. Qed.

Lemma clean_components_surviving (order : set_iteration) xs :
  _clean_components order (map JStr xs)
  = sorted _component_sort_key key_ltb (order (surviving (map strip xs))).
Proof.
  unfold _clean_components, surviving. rewrite flat_map_strings.
  destruct (filter matches_component (map strip xs)) eqn:E; [|reflexivity].
  simpl. now rewrite set_list_nil.
Qed.

Lemma isdigit_no_letter c : isdigit c = true -> contains_letter c = false.
Proof.
  unfold isdigit, contains_letter. intros H. apply andb_prop in H.
  destruct H as [_ H]. apply negb_false_iff.
  revert H. apply str_all_impl. intros ch Hch.
  now rewrite digit_char_not_letter.
Qed.

Lemma surviving_In stripped c :
  In c (surviving stripped)
  <-> In c stripped /\ component_shape c
      /\ ((exists y, In y stripped /\ component_shape y
                     /\ isdigit y = true /\ 2 <= len y)
          -> ~ (isdigit c = true /\ len c < 2)).
Proof.
  unfold surviving.
  set (comps := filter matches_component stripped).
  assert (Hc : forall x, In x comps <-> In x stripped /\ component_shape x).
  { intros x. unfold comps. rewrite filter_In, matches_component_iff.
    reflexivity. }
  destruct (existsb (fun c => 2 <=? len c) (filter isdigit comps)) eqn:E.
  - apply existsb_exists in E. destruct E as (y & Hy & Hlen).
    apply filter_In in Hy. destruct Hy as [Hy Hd]. apply Hc in Hy.
    apply Z.leb_le in Hlen.
    rewrite filter_In, Hc, negb_true_iff, andb_false_iff. split.
    + intros [[Hin Hs] Hn]. repeat split; try assumption.
      intros _ [H1 H2]. apply Z.ltb_lt in H2.
      destruct Hn as [Hn|Hn]; congruence.
    + intros (Hin & Hs & Hn). split; [now split|].
      destruct (isdigit c) eqn:Ed; [right|now left].
      destruct (Z.ltb_spec (len c) 2); [|reflexivity].
      elim Hn; [|now split]. exists y. tauto.
  - rewrite Hc. split; [|tauto]. intros [Hin Hs]. repeat split; try assumption.
    intros (y & Hy & Hsy & Hd & Hlen) _.
    assert (Hex : existsb (fun c => 2 <=? len c) (filter isdigit comps) = true).
    { apply existsb_exists. exists y. split.
      - apply filter_In. split; [now apply Hc|exact Hd].
      - now apply Z.leb_le. }
    congruence.
Qed.

(** C5, as stated, fails: the label of the input has a leading space, so
    it does not have the component shape, and the cleaner keeps its
    stripped form, which is not a string of the input. *)
Lemma clean_components_not_as_stated :
  ~ (forall (order : set_iteration) (xs : list string) (c : string),
       In c (_clean_components order (map JStr xs))
       -> In c xs /\ component_shape c).
Proof.
  intros H.
  destruct (H first_seen_order [" 7"] "7") as [[Hin|[]] _].
  - now left.
  - discriminate.
Qed.

(** C5, amended: every input string is first stripped of surrounding
    whitespace; the cleaner keeps exactly the stripped strings that have
    the component shape, except that, when some such string is purely
    numeric with length at least 2, it drops every purely numeric string
    of length 1; a string holding a letter is never dropped by that rule;
    the result has no duplicates and is in the order of the component sort
    key; so the five labels of the example give G then 140. *)
Theorem clean_components_spec (order : set_iteration) (xs : list string) :
  let kept := _clean_components order (map JStr xs) in
  let stripped := map strip xs in
  NoDup kept
  /\ sorted_by _component_sort_key key_ltb kept
  /\ (forall c,
        In c kept
        <-> In c stripped /\ component_shape c
            /\ ((exists y, In y stripped /\ component_shape y
                           /\ isdigit y = true /\ 2 <= len y)
                -> ~ (isdigit c = true /\ len c < 2)))
  /\ (forall c,
        In c stripped -> component_shape c -> contains_letter c = true ->
        In c kept)
  /\ _clean_components order (map JStr ["1"; "2"; "140"; "abc!!"; "G"])
     = ["G"; "140"].
Proof.
  intros kept stripped. unfold kept, stripped.
  rewrite !clean_components_surviving.
  assert (Hin : forall c,
            In c (sorted _component_sort_key key_ltb
                    (order (surviving (map strip xs))))
            <-> In c (surviving (map strip xs))).
  { intros c. rewrite sorted_In. apply set_list_In. }
  split; [apply sorted_NoDup, set_list_NoDup|].
  split; [apply sorted_sorted, key_ltb_strict_total|].
  split; [intros c; rewrite Hin; apply surviving_In|].
  split.
  - intros c Hc Hs Hl. apply Hin, surviving_In. repeat split; try assumption.
    intros _ [Hd _]. apply isdigit_no_letter in Hd. congruence.
  - change (surviving (map strip ["1"; "2"; "140"; "abc!!"; "G"]))
      with ["140"; "G"].
    destruct (set_list_two order "140" "G") as [-> | ->];
      [discriminate|reflexivity|reflexivity].
Qed.

(** ** Figure id normalisation *)

Lemma optional_letter_stops_decimal l : optional_letter l -> stops is_decimal l.
Proof.
  intros [->|(c & -> & Hc)]; simpl; [exact I|now apply letter_not_decimal].
Qed.

Lemma optional_letter_stops_space l : optional_letter l -> stops is_space l.
Proof.
  intros [->|(c & -> & Hc)]; simpl; [exact I|now apply letter_not_space].
Qed.

Lemma stops_app_space_letter w l :
  str_all is_space w = true -> optional_letter l -> stops is_decimal (w ++ l).
Proof.
  intros Hw Hl. destruct w as [|c w]; simpl in *.
  - now apply optional_letter_stops_decimal.
  - apply andb_prop in Hw. now apply space_not_decimal.
Qed.

Lemma fig_tail_match_app d w l :
  d <> "" -> str_all is_decimal d = true -> str_all is_space w = true ->
  optional_letter l ->
  fig_tail_match (d ++ w ++ l) = Some (d, l).
Proof.
  intros Hd Hall Hw Hl. unfold fig_tail_match.
  rewrite take_while_app, drop_while_app;
    try assumption; try now apply stops_app_space_letter.
  apply is_empty_false in Hd. rewrite Hd.
  rewrite drop_while_app;
    try assumption; try now apply optional_letter_stops_space.
  destruct Hl as [->|(c & -> & Hc)]; [reflexivity|].
  now rewrite Hc.
Qed.

Lemma at_dollar_cases r :
  at_dollar r = true ->
  r = "" \/ exists c, r = String c "" /\ is_space c = true.
Proof.
  destruct r as [|c [|c' r]]; simpl; intros H; try discriminate.
  - now left.
  - right. exists c. split; [reflexivity|now apply newline_is_space].
Qed.

Lemma fig_tail_match_sound u d l :
  fig_tail_match u = Some (d, l) ->
  ends_with_space u = false ->
  exists w,
    u = d ++ w ++ l
    /\ d <> "" /\ str_all is_decimal d = true
    /\ str_all is_space w = true /\ optional_letter l.
Proof.
  unfold fig_tail_match. intros H Hend.
  destruct (is_empty (take_while is_decimal u)) eqn:Ed; [discriminate|].
  pose proof (take_drop_while is_decimal u) as Hu.
  pose proof (take_drop_while is_space (drop_while is_decimal u)) as Hy.
  pose proof (drop_while_stops is_space (drop_while is_decimal u)) as Hstop.
  set (D := take_while is_decimal u) in *.
  set (W := take_while is_space (drop_while is_decimal u)) in *.
  destruct (drop_while is_space (drop_while is_decimal u)) as [|c r'] eqn:Er.
  - injection H as <- <-. exists W. rewrite <- Hu at 1. rewrite <- Hy.
    repeat split.
    + now apply is_empty_false.
    + apply take_while_all.
    + apply take_while_all.
    + now left.
  - simpl in Hstop.
    destruct (is_letter c && at_dollar r') eqn:E1.
    + injection H as <- <-. apply andb_prop in E1. destruct E1 as [Hc Hr].
      apply at_dollar_cases in Hr. destruct Hr as [->|(n & -> & Hn)].
      * exists W. rewrite <- Hu at 1. rewrite <- Hy. repeat split.
        -- now apply is_empty_false.
        -- apply take_while_all.
        -- apply take_while_all.
        -- right. now exists c.
      * exfalso.
        assert (Hu' : u = (D ++ W ++ String c "") ++ String n "").
        { rewrite <- Hu at 1. rewrite <- Hy.
          now rewrite !append_assoc. }
        rewrite Hu', ends_with_space_app in Hend by discriminate.
        simpl in Hend. congruence.
    + destruct (at_dollar (String c r')) eqn:E2; [|discriminate].
      exfalso. apply at_dollar_cases in E2.
      destruct E2 as [E2|(n & [= -> ->] & Hn)]; [discriminate|congruence].
Qed.

(** After the digits of a match no further digit occurs. *)
Lemma tail_has_no_decimal y :
  match drop_while is_space y with
  | EmptyString => true
  | String c r' => (is_letter c && at_dollar r') || at_dollar (String c r')
  end = true ->
  str_all not_decimal y = true.
Proof.
  induction y as [|a y IH]; simpl; [reflexivity|].
  destruct (is_space a) eqn:Ea.
  - intros H. unfold not_decimal at 1.
    rewrite (space_not_decimal _ Ea). simpl. now apply IH.
  - intros H. apply orb_prop in H. destruct H as [H|H].
    + apply andb_prop in H. destruct H as [Hl Hr].
      unfold not_decimal at 1. rewrite (letter_not_decimal _ Hl). simpl.
      apply at_dollar_cases in Hr. destruct Hr as [->|(n & -> & Hn)];
        [reflexivity|].
      simpl. unfold not_decimal. now rewrite (space_not_decimal _ Hn).
    + destruct y; [|discriminate]. apply newline_is_space in H. congruence.
Qed.

Lemma fig_tail_match_no_decimal_after u g :
  fig_tail_match u = Some g ->
  str_all not_decimal (drop_while is_decimal u) = true.
Proof.
  unfold fig_tail_match. intros H.
  destruct (is_empty (take_while is_decimal u)); [discriminate|].
  apply tail_has_no_decimal.
  destruct (drop_while is_space (drop_while is_decimal u)) as [|c r'];
    [reflexivity|].
  destruct (is_letter c && at_dollar r'); [reflexivity|].
  destruct (at_dollar (String c r')); [reflexivity|discriminate].
Qed.

Lemma decimal_after_prefix p :
  forall u c,
    p <> "" -> ends_with_decimal p = false -> is_decimal c = true ->
    str_all not_decimal (drop_while is_decimal (p ++ String c u)) = false.
Proof.
  induction p as [|x p IH]; intros u c Hne Hend Hc; [now elim Hne|].
  simpl. destruct (is_decimal x) eqn:Ex.
  - destruct p as [|y p]; [simpl in Hend; congruence|].
    apply IH; [discriminate|exact Hend|exact Hc].
  - clear IH. change (String x (p ++ String c u)) with (String x p ++ String c u).
    rewrite str_all_app.
    replace (str_all not_decimal (String c u)) with false;
      [apply andb_false_r|].
    simpl. unfold not_decimal at 1. now rewrite Hc.
Qed.

Lemma ends_with_decimal_tail x p :
  p <> "" -> ends_with_decimal (String x p) = ends_with_decimal p.
Proof. destruct p; [intros H; now elim H|reflexivity]. Qed.

Lemma fig_tail_search_unfold s :
  fig_tail_search s
  = match fig_tail_match s with
    | Some g => Some g
    | None =>
        match s with
        | EmptyString => None
        | String _ r => fig_tail_search r
        end
    end.
Proof. destruct s; reflexivity. Qed.

Lemma fig_tail_search_found p :
  forall u g,
    ends_with_decimal p = false ->
    fig_tail_match u = Some g ->
    fig_tail_search (p ++ u) = Some g.
Proof.
  induction p as [|x p IH]; intros u g Hend Hu.
  - change ("" ++ u) with u. rewrite fig_tail_search_unfold. now rewrite Hu.
  - assert (Hd : exists c u', u = String c u' /\ is_decimal c = true).
    { unfold fig_tail_match in Hu. destruct u as [|c u']; [discriminate|].
      simpl in Hu. destruct (is_decimal c) eqn:Ec; [eauto|discriminate]. }
    destruct Hd as (c & u' & -> & Hc).
    assert (Hnone : fig_tail_match (String x p ++ String c u') = None).
    { destruct (fig_tail_match (String x p ++ String c u')) as [g'|] eqn:E;
        [|reflexivity].
      apply fig_tail_match_no_decimal_after in E.
      rewrite decimal_after_prefix in E; try assumption; discriminate. }
    rewrite fig_tail_search_unfold, Hnone.
    change (String x p ++ String c u') with (String x (p ++ String c u')).
    cbv iota. apply IH; [|exact Hu].
    destruct p as [|y p]; [reflexivity|exact Hend].
Qed.

Lemma fig_tail_match_cons c u d l :
  is_decimal c = true ->
  fig_tail_match u = Some (d, l) ->
  fig_tail_match (String c u) = Some (String c d, l).
Proof.
  unfold fig_tail_match. simpl. intros Hc. rewrite Hc. simpl.
  destruct (is_empty (take_while is_decimal u)); [discriminate|].
  destruct (drop_while is_space (drop_while is_decimal u)) as [|a r].
  - now intros [= <- <-].
  - destruct (is_letter a && at_dollar r); [now intros [= <- <-]|].
    destruct (at_dollar (String a r)); [now intros [= <- <-]|discriminate].
Qed.

Lemma fig_tail_search_split t :
  forall g,
    fig_tail_search t = Some g ->
    exists p u,
      t = p ++ u /\ ends_with_decimal p = false /\ fig_tail_match u = Some g.
Proof.
  induction t as [|x t IH]; intros g; rewrite fig_tail_search_unfold.
  - discriminate.
  - destruct (fig_tail_match (String x t)) as [g'|] eqn:E.
    + intros [= <-]. exists "", (String x t). now repeat split.
    + intros H. destruct (IH g H) as (p & u & -> & Hend & Hu).
      exists (String x p), u. repeat split; [|exact Hu].
      destruct p as [|y p]; [|exact Hend].
      simpl. destruct (is_decimal x) eqn:Ex; [|reflexivity].
      destruct g as [d l]. simpl in E.
      rewrite (fig_tail_match_cons x u d l Ex Hu) in E. discriminate.
Qed.

Lemma fig_tail_search_iff t d l :
  ends_with_space t = false ->
  fig_tail_search t = Some (d, l) <-> trailing_figure t d l.
Proof.
  intros Hend. split.
  - intros H. apply fig_tail_search_split in H.
    destruct H as (p & u & -> & Hp & Hu).
    assert (Hne : u <> "") by (intros ->; discriminate).
    rewrite ends_with_space_app in Hend by exact Hne.
    destruct (fig_tail_match_sound u d l Hu Hend)
      as (w & -> & Hd & Hall & Hw & Hl).
    now exists p, w.
  - intros (p & w & -> & Hp & Hd & Hall & Hw & Hl).
    apply fig_tail_search_found; [exact Hp|].
    now apply fig_tail_match_app.
Qed.

Lemma first_digit_run_of t run :
  first_run t run -> first_digit_run t = Some run.
Proof.
  intros (p & q & -> & Hp & Hne & Hall & Hq). unfold first_digit_run.
  assert (Hstop : stops (fun c => negb (is_decimal c)) (run ++ q)).
  { destruct run as [|c r]; [now elim Hne|]. simpl in *.
    apply andb_prop in Hall. destruct Hall as [Hc _]. now rewrite Hc. }
  rewrite drop_while_app; [|exact Hp|exact Hstop].
  destruct run as [|c r]; [now elim Hne|].
  simpl is_empty. cbv iota. f_equal. now apply take_while_app.
Qed.

Lemma no_decimal_no_run t :
  str_all not_decimal t = true ->
  first_digit_run t = None /\ fig_tail_search t = None.
Proof.
  intros H. split.
  - unfold first_digit_run.
    replace (drop_while (fun c => negb (is_decimal c)) t) with "";
      [reflexivity|].
    induction t as [|c t IH]; simpl in *; [reflexivity|].
    apply andb_prop in H. destruct H as [Hc Ht]. unfold not_decimal in Hc.
    rewrite Hc. now apply IH.
  - induction t as [|c t IH]; simpl in *; [reflexivity|].
    apply andb_prop in H. destruct H as [Hc Ht]. unfold not_decimal in Hc.
    apply negb_true_iff in Hc. unfold fig_tail_match. simpl. rewrite Hc.
    simpl. now apply IH.
Qed.

Lemma ends_with_decimal_app a b :
  b <> "" -> ends_with_decimal (a ++ b) = ends_with_decimal b.
Proof.
  intros Hb. induction a as [|x a IH]; simpl; [reflexivity|].
  rewrite IH. destruct (a ++ b) eqn:E; [|reflexivity].
  destruct a; simpl in E; [now elim Hb|discriminate].
Qed.

Lemma all_decimal_ends_with_decimal d :
  d <> "" -> str_all is_decimal d = true -> ends_with_decimal d = true.
Proof.
  induction d as [|c d IH]; intros Hne H; [now elim Hne|].
  simpl in H. apply andb_prop in H. destruct H as [Hc Hd].
  destruct d as [|c' d]; [exact Hc|].
  change (ends_with_decimal (String c' d) = true). apply IH;
    [discriminate|exact Hd].
Qed.

Lemma append_last_inj a b c d :
  a ++ String c "" = b ++ String d "" -> a = b /\ c = d.
Proof.
  revert b. induction a as [|x a IH]; intros [|y b]; simpl; intros H.
  - now injection H.
  - injection H as -> H. destruct b; discriminate.
  - injection H as -> H. destruct a; discriminate.
  - injection H as -> H. destruct (IH b H) as [-> ->]. now split.
Qed.

Lemma no_literal_trailing_figure_10_b :
  ~ exists d l, literal_trailing_figure "10 b" d l.
Proof.
  intros (d & l & p & Heq & _ & Hne & Hall & Hl).
  pose proof (all_decimal_ends_with_decimal d Hne Hall) as Hd.
  destruct Hl as [->|(c & -> & Hc)].
  - rewrite append_nil_r in Heq.
    assert (H : ends_with_decimal "10 b" = true)
      by (rewrite Heq, ends_with_decimal_app; assumption).
    discriminate.
  - rewrite <- append_assoc in Heq.
    change "10 b" with ("10 " ++ String "b" "") in Heq.
    apply append_last_inj in Heq. destruct Heq as [Heq _].
    assert (H : ends_with_decimal "10 " = true)
      by (rewrite Heq, ends_with_decimal_app; assumption).
    discriminate.
Qed.

(** C7, as stated, fails: the string made of 10, a space and b does not
    end with digits directly followed by an optional letter, and its
    first digit run is 10, so the statement gives FIG. 10; the code,
    whose pattern allows whitespace between the digits and the letter,
    returns FIG. 10B. *)
Lemma normalize_figure_not_as_stated :
  ~ figure_normalization_as_stated "10 b".
Proof.
  intros (_ & H & _).
  specialize (H no_literal_trailing_figure_10_b "10").
  assert (Hrun : first_run "10 b" "10").
  { exists "", " b". repeat split. discriminate. }
  specialize (H Hrun). vm_compute in H. discriminate.
Qed.

(** C7, amended: for every input string, taken after stripping
    surrounding whitespace: if it ends with a digit run, any whitespace
    and an optional letter, the output is FIG., a space, those digits and
    the uppercased letter; otherwise, if it holds a digit run, the output
    is FIG., a space and the first digit run; otherwise the output is
    empty.  So Fig 10b gives FIG. 10B and figure gives the empty
    string. *)
Theorem normalize_figure_spec (s : string) :
  let t := strip s in
  (forall d l, trailing_figure t d l ->
     _normalize_figure (JStr s) = "FIG. " ++ d ++ upper l)
  /\ ((~ exists d l, trailing_figure t d l) ->
      forall run, first_run t run ->
        _normalize_figure (JStr s) = "FIG. " ++ run)
  /\ (str_all not_decimal t = true -> _normalize_figure (JStr s) = "")
  /\ _normalize_figure (JStr "Fig 10b") = "FIG. 10B"
  /\ _normalize_figure (JStr "figure") = "".
Proof.
  intros t.
  pose proof (strip_no_trailing_space s) as Hend. fold t in Hend.
  repeat split.
  - intros d l H. apply (fig_tail_search_iff t d l Hend) in H.
    unfold _normalize_figure. fold t. now rewrite H.
  - intros Hno run Hrun. unfold _normalize_figure. fold t.
    destruct (fig_tail_search t) as [[d l]|] eqn:E.
    + elim Hno. exists d, l. now apply (fig_tail_search_iff t d l Hend).
    + now rewrite (first_digit_run_of t run Hrun).
  - intros Hno. unfold _normalize_figure. fold t.
    destruct (no_decimal_no_run t Hno) as [-> ->]. reflexivity.
Qed.

(** A string that holds a decimal digit has a first digit run. *)
Lemma first_run_exists t :
  str_all not_decimal t = false -> exists run, first_run t run.
Proof.
  intros H.
  set (nd := fun c => negb (is_decimal c)).
  exists (take_while is_decimal (drop_while nd t)).
  exists (take_while nd t), (drop_while is_decimal (drop_while nd t)).
  assert (Hne : drop_while nd t <> "").
  { intros E. apply drop_while_nil_all in E. unfold nd in E.
    unfold not_decimal in H. congruence. }
  repeat split.
  - now rewrite !take_drop_while.
  - apply take_while_all.
  - pose proof (drop_while_stops nd t) as Hs.
    destruct (drop_while nd t) as [|c r]; [now elim Hne|].
    simpl in *. unfold nd in Hs. apply negb_false_iff in Hs.
    rewrite Hs. discriminate.
  - apply take_while_all.
  - apply drop_while_stops.
Qed.

(** ** Hint filtering and classification *)

Lemma decimal_not_dot_or_space c :
  is_decimal c = true -> is_dot_or_space c = false.
Proof. char_cases c. Qed.

Lemma fig_pattern_match_iff t :
  fig_pattern_match t = true <-> figure_tag_prefix t.
Proof.
  unfold figure_tag_prefix. split.
  - destruct t as [|f [|i [|g r]]]; simpl; try discriminate.
    intros H. apply andb_prop in H. destruct H as [H Hd].
    apply andb_prop in H. destruct H as [H Hg].
    apply andb_prop in H. destruct H as [Hf Hi].
    apply negb_true_iff, is_empty_false in Hd.
    exists f, i, g, (take_while is_dot_or_space r),
      (take_while is_decimal (drop_while is_dot_or_space r)),
      (drop_while is_decimal (drop_while is_dot_or_space r)).
    repeat split; try assumption; try apply take_while_all.
    now rewrite !take_drop_while.
  - intros (f & i & g & sep & ds & rest & -> & Hf & Hi & Hg & Hs & Hne & Hd).
    simpl. rewrite Hf, Hi, Hg. simpl.
    destruct ds as [|c ds]; [now elim Hne|].
    simpl in Hd. apply andb_prop in Hd. destruct Hd as [Hc Hd].
    rewrite drop_while_app;
      [|exact Hs|simpl; now apply decimal_not_dot_or_space].
    simpl. now rewrite Hc.
Qed.

Lemma comp_pattern_match_of_shape t :
  numeral_shape t -> comp_pattern_match t = true.
Proof.
  intros (d & l & p & -> & Hne & Hd & Hl & Hp & Hlen).
  unfold comp_pattern_match.
  assert (Hstop : stops is_decimal (l ++ p)).
  { destruct Hl as [->|(c & -> & Hc)]; simpl.
    - destruct p as [|c p]; simpl in *; [exact I|].
      apply andb_prop in Hp. now apply prime_not_decimal.
    - now apply letter_not_decimal. }
  rewrite take_while_app, drop_while_app by assumption.
  apply is_empty_false in Hne. rewrite Hne. simpl.
  assert (Hprimes :
    at_dollar
      (let r := match p with
                | String c r' => if is_prime_char c then r' else p
                | EmptyString => p
                end in
       match r with
       | String c r' => if is_prime_char c then r' else r
       | EmptyString => r
       end) = true).
  { destruct p as [|c1 [|c2 [|c3 p]]]; simpl in *;
      try reflexivity; try lia.
    - apply andb_prop in Hp. destruct Hp as [-> _]. reflexivity.
    - apply andb_prop in Hp. destruct Hp as [-> Hp].
      apply andb_prop in Hp. destruct Hp as [-> _]. reflexivity. }
  destruct Hl as [->|(c & -> & Hc)]; simpl.
  - destruct p as [|c1 p]; [reflexivity|].
    simpl in Hp. pose proof Hp as Hp'. apply andb_prop in Hp'.
    destruct Hp' as [Hc1 _]. rewrite (prime_not_letter _ Hc1).
    exact Hprimes.
  - rewrite Hc. exact Hprimes.
Qed.

Lemma comp_pattern_match_shape t :
  ends_with_space t = false ->
  comp_pattern_match t = true -> numeral_shape t.
Proof.
  unfold comp_pattern_match. intros Hend H.
  apply andb_prop in H. destruct H as [Hd H].
  apply negb_true_iff, is_empty_false in Hd.
  pose proof (take_drop_while is_decimal t) as Ht.
  set (d := take_while is_decimal t) in *.
  set (r := drop_while is_decimal t) in *.
  assert (Hshape : forall l r1,
            r = l ++ r1 -> optional_letter l ->
            at_dollar
              (let r2 := match r1 with
                         | String c r' => if is_prime_char c then r' else r1
                         | EmptyString => r1
                         end in
               match r2 with
               | String c r' => if is_prime_char c then r' else r2
               | EmptyString => r2
               end) = true ->
            numeral_shape t).
  { intros l r1 Hr Hl Hdol.
    assert (Hfin : forall p rest,
              r1 = p ++ rest -> str_all is_prime_char p = true ->
              (String.length p <= 2)%nat -> at_dollar rest = true ->
              numeral_shape t).
    { intros p rest Hr1 Hp Hlen Hrest.
      apply at_dollar_cases in Hrest.
      destruct Hrest as [->|(n & -> & Hn)].
      - exists d, l, p. rewrite append_nil_r in Hr1. subst r1.
        rewrite <- Hr, Ht. repeat split; try assumption.
        apply take_while_all.
      - exfalso.
        assert (Ht' : t = (d ++ l ++ p) ++ String n "").
        { rewrite <- Ht, Hr, Hr1. now rewrite !append_assoc. }
        rewrite Ht', ends_with_space_app in Hend by discriminate.
        simpl in Hend. congruence. }
    destruct r1 as [|c1 r1']; simpl in Hdol.
    - apply (Hfin "" ""); simpl; auto.
    - destruct (is_prime_char c1) eqn:E1; simpl in Hdol.
      + destruct r1' as [|c2 r1'']; simpl in Hdol.
        * apply (Hfin (String c1 "") ""); simpl; try lia; auto.
          now rewrite E1.
        * destruct (is_prime_char c2) eqn:E2; simpl in Hdol.
          -- apply (Hfin (String c1 (String c2 "")) r1''); simpl;
               try lia; auto.
             now rewrite E1, E2.
          -- apply (Hfin (String c1 "") (String c2 r1'')); simpl;
               try lia; auto.
             now rewrite E1.
      + rewrite E1 in Hdol.
        apply (Hfin "" (String c1 r1')); simpl; try lia; auto. }
  destruct r as [|c r'] eqn:Er.
  - apply (Hshape "" ""); [reflexivity|now left|exact H].
  - destruct (is_letter c) eqn:Ec.
    + apply (Hshape (String c "") r'); [reflexivity| |exact H].
      right. now exists c.
    + apply (Hshape "" (String c r')); [reflexivity|now left|exact H].
Qed.

Lemma comp_pattern_match_iff t :
  ends_with_space t = false ->
  comp_pattern_match t = true <-> numeral_shape t.
Proof.
  intros H. split;
    [now apply comp_pattern_match_shape|apply comp_pattern_match_of_shape].
Qed.

(** C8, as stated, fails: a token whose text is one space, read with
    confidence 95, is a single-character token that none of the stated
    drop rules removes, and the extractor drops it, because it strips the
    text before testing it. *)
Lemma single_space_token_is_dropped :
  ~ (forall (w_img h_img : Z) (tok : token),
       20 <= conf tok -> text tok <> "" -> text tok <> "0" ->
       len (text tok) = 1 ->
       exists b,
         hints_of_token w_img h_img tok
         = [ {| type := component; hint_text := text tok; box_2d := b |} ]).
Proof.
  intros H.
  destruct (H 1000 1000 (token_of " " 95)) as [b Hb].
  - simpl. lia.
  - discriminate.
  - discriminate.
  - reflexivity.
  - vm_compute in Hb. discriminate.
Qed.

(** C8, amended: the text of a token is taken after stripping
    surrounding whitespace.  The token is dropped if its confidence is
    below 20, its stripped text is empty, purely numeric with length
    above 6, or the literal 0.  A surviving token whose text begins with
    a figure tag is emitted with type figure_label; any other surviving
    token whose text is one or more digits, an optional letter and zero
    to two prime marks, or has a single character, is emitted with type
    component; every other token is dropped.  The emitted text is the
    stripped text, and hints come in the order of the tokens.  The image
    has positive width and height. *)
Theorem hints_of_token_spec (w_img h_img : Z) (tok : token)
  (Hw : 0 < w_img) (Hh : 0 < h_img) :
  let t := strip (text tok) in
  let emitted ty :=
    [ {| type := ty; hint_text := t;
         box_2d := norm_box_of w_img h_img tok |} ] in
  (conf tok < 20 \/ t = "" \/ (isdigit t = true /\ 6 < len t) \/ t = "0" ->
   hints_of_token w_img h_img tok = [])
  /\ (20 <= conf tok -> t <> "" -> ~ (isdigit t = true /\ 6 < len t) ->
      t <> "0" ->
      (figure_tag_prefix t ->
       hints_of_token w_img h_img tok = emitted figure_label)
      /\ (~ figure_tag_prefix t -> numeral_shape t \/ len t = 1 ->
          hints_of_token w_img h_img tok = emitted component)
      /\ (~ figure_tag_prefix t -> ~ numeral_shape t -> len t <> 1 ->
          hints_of_token w_img h_img tok = []))
  /\ (forall before after,
        get_ocr_hints w_img h_img (before ++ tok :: after)
        = (get_ocr_hints w_img h_img before
           ++ hints_of_token w_img h_img tok
           ++ get_ocr_hints w_img h_img after)%list).
Proof.
  intros t emitted.
  pose proof (strip_no_trailing_space (text tok)) as Hend. fold t in Hend.
  unfold hints_of_token. fold t. fold (norm_box_of w_img h_img tok).
  split; [|split].
  - intros [H|[H|[[H1 H2]|H]]].
    + apply Z.ltb_lt in H. now rewrite H.
    + rewrite H. simpl. now rewrite orb_true_r.
    + apply Z.ltb_lt in H2. rewrite H1, H2. simpl.
      now destruct ((conf tok <? 20) || is_empty t).
    + rewrite H. simpl. now destruct (conf tok <? 20).
  - intros Hc Hne Hnum H0.
    assert (E1 : (conf tok <? 20) || is_empty t = false).
    { apply orb_false_iff. split; [apply Z.ltb_ge; lia|].
      now apply is_empty_false. }
    assert (E2 : (isdigit t && (6 <? len t)) || String.eqb t "0" = false).
    { apply orb_false_iff. split.
      - apply andb_false_iff. destruct (isdigit t); [right|now left].
        apply Z.ltb_ge. destruct (Z.ltb_spec 6 (len t)); [|lia].
        elim Hnum. now split.
      - now apply String.eqb_neq. }
    rewrite E1, E2.
    split; [|split].
    + intros Hf. apply fig_pattern_match_iff in Hf. now rewrite Hf.
    + intros Hf Hs.
      destruct (fig_pattern_match t) eqn:Ef;
        [elim Hf; now apply fig_pattern_match_iff|].
      destruct Hs as [Hs|Hs].
      * apply (comp_pattern_match_iff t Hend) in Hs. now rewrite Hs.
      * apply Z.eqb_eq in Hs. rewrite Hs. now rewrite orb_true_r.
    + intros Hf Hs Hl.
      destruct (fig_pattern_match t) eqn:Ef;
        [elim Hf; now apply fig_pattern_match_iff|].
      destruct (comp_pattern_match t) eqn:Ec;
        [elim Hs; now apply (comp_pattern_match_iff t Hend)|].
      apply Z.eqb_neq in Hl. now rewrite Hl.
  - intros before after. unfold get_ocr_hints.
    rewrite flat_map_app. reflexivity.
Qed.

Lemma hints_of_token_spec_witness :
  hints_of_token 1000 2000 (token_of "140'" 90)
  = [ {| type := component; hint_text := "140'";
         box_2d := [100; 100; 110; 130] |} ].
Proof.
  destruct (hints_of_token_spec 1000 2000 (token_of "140'" 90))
    as (_ & H & _); [lia|lia|].
  destruct H as (_ & H & _).
  - simpl. lia.
  - discriminate.
  - intros [H _]. discriminate.
  - discriminate.
  - apply H.
    + intros (f & i & g & sep & ds & rest & Heq & Hf & _).
      injection Heq as <- _. discriminate.
    + left. exists "140", "", "'". repeat split; try discriminate.
      * now left.
      * simpl. lia.
Defined.

(** The examples of the specification: the seven-digit numeral and the
    bare zero are dropped, FIG. 3 is a figure label, and the primed
    numeral and the single letter are components. *)
Lemma get_ocr_hints_examples :
  map (fun h => (type h, hint_text h))
    (get_ocr_hints 1000 1000
       [ token_of "0000000" 90; token_of "0" 90; token_of "FIG. 3" 90;
         token_of "140'" 90; token_of "G" 90; token_of "181a" 19 ])
  = [ (figure_label, "FIG. 3"); (component, "140'"); (component, "G") ].
Proof. reflexivity. Qed.

(** ** The merge loop *)

Lemma merge_key_eqb_eq a b : merge_key_eqb a b = true <-> a = b.
Proof.
  destruct a as [p f], b as [q g]. unfold merge_key_eqb. simpl.
  rewrite andb_true_iff, Z.eqb_eq, String.eqb_eq. split.
  - now intros [-> ->].
  - now intros [= -> ->].
Qed.

Section DictSetFacts.
Context {K V : Type}.
Variable keq : K -> K -> bool.
Hypothesis keq_eq : forall a b, keq a b = true <-> a = b.

Lemma dict_set_set k (v v0 : V) d :
  dict_set keq k v (dict_set keq k v0 d) = dict_set keq k v d.
Proof.
  induction d as [|[k' v'] d IH]; simpl.
  - now rewrite (keq_refl keq keq_eq).
  - destruct (keq k k') eqn:E; simpl; rewrite E; [reflexivity|].
    now rewrite IH.
Qed.

Lemma dict_set_keys_In k (v : V) d x :
  In x (map fst (dict_set keq k v d)) <-> In x (map fst d) \/ x = k.
Proof.
  destruct (dict_find keq k d) eqn:E.
  - rewrite dict_set_keys_present by congruence. split; [now left|].
    intros [H| ->]; [exact H|].
    apply (dict_find_In keq keq_eq) in E.
    change k with (fst (k, v0)). now apply in_map.
  - rewrite dict_set_keys_absent by exact E. rewrite in_app_iff. simpl.
    intuition.
Qed.

Lemma dict_set_keys_NoDup k (v : V) d :
  NoDup (map fst d) -> NoDup (map fst (dict_set keq k v d)).
Proof.
  intros Hnd. destruct (dict_find keq k d) eqn:E.
  - now rewrite dict_set_keys_present by congruence.
  - rewrite dict_set_keys_absent by exact E.
    apply (dict_find_None_iff keq keq_eq) in E.
    apply NoDup_app; [exact Hnd|repeat constructor; intros []|].
    intros x Hx [<-|[]]. contradiction.
Qed.

Lemma dict_set_In k (v : V) d k' v' :
  NoDup (map fst d) ->
  In (k', v') (dict_set keq k v d)
  <-> (k' = k /\ v' = v) \/ (k' <> k /\ In (k', v') d).
Proof.
  intros Hnd.
  pose proof (dict_set_keys_NoDup k v d Hnd) as Hnd'.
  split.
  - intros Hin.
    pose proof (In_dict_find keq keq_eq _ _ _ Hnd' Hin) as Hf.
    destruct (keq k' k) eqn:E.
    + apply keq_eq in E. subst k'.
      rewrite (dict_find_set_same keq keq_eq) in Hf.
      left. split; [reflexivity|congruence].
    + assert (Hne : k' <> k).
      { intros ->. rewrite (keq_refl keq keq_eq) in E. discriminate. }
      rewrite (dict_find_set_other keq keq_eq) in Hf by exact Hne.
      right. split; [exact Hne|]. now apply (dict_find_In keq keq_eq).
  - intros [[-> ->]|[Hne Hin]]; apply (dict_find_In keq keq_eq).
    + apply (dict_find_set_same keq keq_eq).
    + rewrite (dict_find_set_other keq keq_eq) by exact Hne.
      now apply (In_dict_find keq keq_eq).
Qed.

End DictSetFacts.

Lemma item_of_set k v merged :
  item_of k (dict_set merge_key_eqb k v merged) = v.
Proof.
  unfold item_of, lookup.
  now rewrite (dict_find_set_same _ merge_key_eqb_eq).
Qed.

Lemma iterable_py_iter v :
  iterable v = true -> exists l, py_iter v = Returned l.
Proof. destruct v; simpl; try discriminate; eauto. Qed.

(** The net effect of the loop body on a well-formed entry. *)
Lemma merge_item_effect order page_no merged item :
  well_formed_entry item = true ->
  merge_item order page_no merged item
  = Returned
      (if is_empty (entry_figure item) then merged
       else
         let key := (page_no, entry_figure item) in
         dict_set merge_key_eqb key
           (merged_record order (item_of key merged) item) merged).
Proof.
  destruct item as [|b|n|r|s|l|fields]; try discriminate.
  intros Hwf. unfold well_formed_entry in Hwf.
  unfold merge_item, entry_figure in *.
  set (fig := _normalize_figure (get fields "figure" (JStr ""))) in *.
  destruct (is_empty fig) eqn:Efig; [reflexivity|].
  simpl in Hwf. apply andb_prop in Hwf. destruct Hwf as [Hc Hh].
  set (key := (page_no, fig)).
  destruct (iterable_py_iter _ Hc) as [comps Ecomps].
  rewrite Ecomps. cbn [bind].
  set (merged1 := match lookup key merged with
                  | Some _ => merged
                  | None => dict_set merge_key_eqb key _ merged
                  end).
  assert (Hitem : item_of key merged1 = item_of key merged).
  { unfold merged1. destruct (lookup key merged) eqn:El; [reflexivity|].
    rewrite item_of_set. unfold item_of. now rewrite El. }
  assert (Hset : forall v,
            dict_set merge_key_eqb key v merged1
            = dict_set merge_key_eqb key v merged).
  { intros v. unfold merged1. destruct (lookup key merged); [reflexivity|].
    apply (dict_set_set _ merge_key_eqb_eq). }
  rewrite Hitem, Hset.
  unfold merged_record, entry_components, entry_hierarchy.
  rewrite Ecomps. cbn [Z.succ].
  destruct (dict_find String.eqb "hierarchy" fields) as [h|] eqn:Eh.
  - destruct (iterable_py_iter _ Hh) as [hs Ehs]. rewrite Ehs. cbn [bind].
    rewrite item_of_set. cbn [page figure components hierarchy].
    now rewrite (dict_set_set _ merge_key_eqb_eq).
  - now rewrite app_nil_r.
Qed.

Lemma merge_pages_entries order responses :
  forall merged,
    merge_pages order merged responses
    = merge_entries order merged (entries_of responses).
Proof.
  induction responses as [|[p res] responses IH]; intros merged; simpl.
  - reflexivity.
  - fold (entries_of responses). revert merged.
    induction res as [|item res IHres]; intros merged; simpl.
    + apply IH.
    + destruct (merge_item order p merged item); simpl;
        [apply IHres|reflexivity].
Qed.

Lemma filter_none {A : Type} (f : A -> bool) l :
  (forall x, In x l -> f x = false) -> filter f l = [].
Proof.
  induction l as [|x l IH]; simpl; intros H; [reflexivity|].
  rewrite (H x (or_introl eq_refl)). apply IH. intros y Hy. apply H.
  now right.
Qed.

Lemma entries_with_key_app k es1 es2 :
  entries_with_key k (es1 ++ es2)
  = (entries_with_key k es1 ++ entries_with_key k es2)%list.
Proof. apply filter_app. Qed.

Lemma entries_with_key_other k e :
  entry_key e <> k -> entries_with_key k [e] = [].
Proof.
  intros H. unfold entries_with_key. simpl.
  destruct (merge_key_eqb (entry_key e) k) eqn:E; [|reflexivity].
  apply merge_key_eqb_eq in E. contradiction.
Qed.

Lemma entries_with_key_same e :
  entries_with_key (entry_key e) [e] = [e].
Proof.
  unfold entries_with_key. simpl.
  now rewrite (proj2 (merge_key_eqb_eq _ _) eq_refl).
Qed.

(** An entry of another key leaves a record's description unchanged. *)
Lemma record_of_entries_other order es e r :
  entry_key e <> record_key r ->
  record_of_entries order es r ->
  record_of_entries order (es ++ [e]) r.
Proof.
  intros Hne (Hfig & Hnd & Hs & Hin & Hh). repeat split; try assumption.
  - intros Hc. apply Hin in Hc. destruct Hc as (e' & He' & Hk & Hc).
    exists e'. repeat split; try assumption. apply in_or_app. now left.
  - intros (e' & He' & Hk & Hc). apply Hin.
    apply in_app_or in He'. destruct He' as [He'|[<-|[]]].
    + now exists e'.
    + contradiction.
  - rewrite entries_with_key_app, entries_with_key_other by exact Hne.
    now rewrite app_nil_r.
Qed.

(** The record a key has in the map, or the fresh one, described by the
    entries merged so far. *)
Lemma item_of_described order es merged k :
  merge_inv order es merged ->
  snd k <> "" ->
  record_key (item_of k merged) = k
  /\ record_of_entries order es (item_of k merged).
Proof.
  intros (Hnd & Hrec & Hkeys) Hfig. unfold item_of, lookup.
  destruct (dict_find merge_key_eqb k merged) as [r|] eqn:E.
  - apply (dict_find_In _ merge_key_eqb_eq) in E. now apply Hrec.
  - apply (dict_find_None_iff _ merge_key_eqb_eq) in E.
    assert (Hno : forall e, In e es -> entry_key e <> k).
    { intros e He Hk. apply E, Hkeys. split; [exact Hfig|]. now exists e. }
    destruct k as [p f]. split; [reflexivity|].
    unfold record_of_entries, record_key. simpl.
    repeat split; try assumption.
    + constructor.
    + constructor.
    + intros [].
    + intros (e & He & Hk & _). now elim (Hno e He).
    + unfold entries_with_key. rewrite filter_none; [reflexivity|].
      intros e He. destruct (merge_key_eqb (entry_key e) (p, f)) eqn:Ek;
        [|reflexivity].
      apply merge_key_eqb_eq in Ek. now elim (Hno e He).
Qed.

Lemma merged_record_described order es r e :
  entry_key e = record_key r ->
  record_of_entries order es r ->
  record_of_entries order (es ++ [e]) (merged_record order r (snd e)).
Proof.
  intros Hk (Hfig & Hnd & Hs & Hin & Hh).
  unfold record_of_entries, merged_record, record_key in *. simpl in *.
  repeat split.
  - exact Hfig.
  - apply sorted_NoDup, set_list_NoDup.
  - apply sorted_sorted, key_ltb_strict_total.
  - intros Hc. apply sorted_In, set_list_In, in_app_or in Hc.
    destruct Hc as [Hc|Hc].
    + apply Hin in Hc. destruct Hc as (e' & He' & Hk' & Hc).
      exists e'. repeat split; try assumption. apply in_or_app. now left.
    + exists e. repeat split; try assumption.
      apply in_or_app. right. now left.
  - intros (e' & He' & Hk' & Hc). apply sorted_In, set_list_In, in_or_app.
    apply in_app_or in He'. destruct He' as [He'|[<-|[]]].
    + left. apply Hin. now exists e'.
    + now right.
  - rewrite entries_with_key_app, flat_map_app, <- Hh, <- Hk.
    rewrite entries_with_key_same. simpl. now rewrite app_nil_r.
Qed.

Lemma merge_item_inv order es merged e :
  merge_inv order es merged ->
  well_formed_entry (snd e) = true ->
  exists merged',
    merge_item order (fst e) merged (snd e) = Returned merged'
    /\ merge_inv order (es ++ [e]) merged'.
Proof.
  intros Hinv Hwf. rewrite (merge_item_effect _ _ _ _ Hwf).
  eexists. split; [reflexivity|].
  pose proof Hinv as (Hnd & Hrec & Hkeys).
  destruct (is_empty (entry_figure (snd e))) eqn:Efig.
  - apply is_empty_true in Efig.
    assert (Hother : forall k, snd k <> "" -> entry_key e <> k).
    { intros k Hk <-. now apply Hk. }
    split; [exact Hnd|]. split.
    + intros k r Hin. destruct (Hrec k r Hin) as [Hk Hr].
      split; [exact Hk|]. apply record_of_entries_other; [|exact Hr].
      rewrite Hk. apply Hother. destruct Hr as [Hf _]. now rewrite <- Hk.
    + intros k. rewrite Hkeys. split.
      * intros (Hk & e' & He' & Hek). split; [exact Hk|].
        exists e'. split; [apply in_or_app; now left|exact Hek].
      * intros (Hk & e' & He' & Hek). split; [exact Hk|].
        apply in_app_or in He'. destruct He' as [He'|[<-|[]]].
        -- now exists e'.
        -- now elim (Hother k Hk).
  - apply is_empty_false in Efig.
    set (key := (fst e, entry_figure (snd e))).
    change key with (entry_key e) in *.
    destruct (item_of_described order es merged (entry_key e) Hinv Efig)
      as [Hk0 Hr0].
    split; [now apply (dict_set_keys_NoDup _ merge_key_eqb_eq)|]. split.
    + intros k r Hin.
      apply (dict_set_In _ merge_key_eqb_eq _ _ _ _ _ Hnd) in Hin.
      destruct Hin as [[-> ->]|[Hne Hin]].
      * split; [exact Hk0|].
        apply merged_record_described; [now rewrite Hk0|exact Hr0].
      * destruct (Hrec k r Hin) as [Hk Hr]. split; [exact Hk|].
        apply record_of_entries_other; [|exact Hr].
        rewrite Hk. intros Heq. now apply Hne.
    + intros k. rewrite (dict_set_keys_In _ merge_key_eqb_eq), Hkeys. split.
      * intros [(Hk & e' & He' & Hek)| ->].
        -- split; [exact Hk|]. exists e'.
           split; [apply in_or_app; now left|exact Hek].
        -- split; [exact Efig|]. exists e.
           split; [apply in_or_app; right; now left|reflexivity].
      * intros (Hk & e' & He' & Hek).
        apply in_app_or in He'. destruct He' as [He'|[<-|[]]].
        -- left. split; [exact Hk|]. now exists e'.
        -- now right.
Qed.

Lemma merge_entries_inv order es :
  forall done merged,
    merge_inv order done merged ->
    forallb (fun e => well_formed_entry (snd e)) es = true ->
    exists merged',
      merge_entries order merged es = Returned merged'
      /\ merge_inv order (done ++ es) merged'.
Proof.
  induction es as [|e es IH]; intros done merged Hinv Hwf; simpl.
  - exists merged. now rewrite app_nil_r.
  - simpl in Hwf. apply andb_prop in Hwf. destruct Hwf as [He Hes].
    destruct (merge_item_inv order done merged e Hinv He)
      as (m1 & -> & Hinv1).
    cbn [bind].
    destruct (IH (done ++ [e])%list m1 Hinv1 Hes) as (m2 & -> & Hinv2).
    exists m2. split; [reflexivity|].
    now rewrite <- app_assoc in Hinv2.
Qed.

Lemma merge_inv_start order : merge_inv order [] [].
Proof.
  split; [constructor|]. split.
  - intros k r [].
  - intros k. simpl. split; [intros []|].
    intros (_ & e & [] & _).
Qed.

(** ** The final output *)


Lemma item_of_In merged k :
  In k (map fst merged) -> In (k, item_of k merged) merged.
Proof.
  intros Hin. unfold item_of, lookup.
  destruct (dict_find merge_key_eqb k merged) as [r|] eqn:E.
  - now apply (dict_find_In _ merge_key_eqb_eq).
  - apply (dict_find_None_iff _ merge_key_eqb_eq) in E. contradiction.
Qed.

(** On entries of another shape the loop raises, and the exception
    leaves the run: an entry that is not an object has no [get], and
    components that are null cannot be iterated over. *)
Lemma ill_formed_entries_raise :
  extract_figures_with_lmm first_seen_order [(1, [JStr "FIG. 1"])]
  = Raised AttributeError
  /\ extract_figures_with_lmm first_seen_order
       [(1, [JObj [("figure", JStr "FIG. 1"); ("components", JNull)]])]
     = Raised TypeError.
Proof. split; reflexivity. Qed.

(** The merge example of the specification, evaluated: one record, with
    components 10, 20, 30 and both hierarchy relations. *)
Lemma merge_example :
  extract_figures_with_lmm first_seen_order demo_responses
  = Returned
      [ [ ("components", JArr [JStr "10"; JStr "20"; JStr "30"]);
          ("hierarchy", JArr [demo_relation; demo_relation]);
          ("figure", JStr "FIG. 2");
          ("page", JInt 1) ] ].
Proof. reflexivity. Qed.

(** * Further properties of the code *)

(** ** Figure ids: canonical form *)

Lemma upper_char_of_letter c : is_letter c = true -> is_upper (upper_char c) = true.
Proof. char_cases c. Qed.

Lemma upper_char_of_upper c : is_upper c = true -> upper_char c = c.
Proof. char_cases c. Qed.

Lemma upper_is_letter c : is_upper c = true -> is_letter c = true.
Proof. char_cases c. Qed.

Lemma upper_not_space c : is_upper c = true -> is_space c = false.
Proof. char_cases c. Qed.

Lemma decimal_not_upper c : is_decimal c = true -> is_upper c = false.
Proof. char_cases c. Qed.

Lemma rstrip_id s : ends_with_space s = false -> rstrip s = s.
Proof.
  induction s as [|c s IH]; [reflexivity|].
  destruct s as [|d r].
  - simpl. intros ->. reflexivity.
  - intros H. change (ends_with_space (String d r) = false) in H.
    specialize (IH H).
    change (rstrip (String c (String d r)))
      with (if is_empty (rstrip (String d r)) && is_space c
            then EmptyString else String c (rstrip (String d r))).
    rewrite IH. reflexivity.
Qed.

Lemma strip_id c s :
  is_space c = false -> ends_with_space (String c s) = false ->
  strip (String c s) = String c s.
Proof.
  intros Hc Hend. unfold strip. cbn [lstrip]. rewrite Hc.
  now apply rstrip_id.
Qed.

Lemma all_decimal_no_trailing_space d :
  d <> "" -> str_all is_decimal d = true -> ends_with_space d = false.
Proof.
  induction d as [|c d IH]; intros Hne H; [now elim Hne|].
  simpl in H. apply andb_prop in H. destruct H as [Hc Hd].
  destruct d as [|c' d]; [simpl; now apply decimal_not_space|].
  change (ends_with_space (String c' d) = false). apply IH;
    [discriminate|exact Hd].
Qed.

Lemma normal_form_no_trailing_space d l :
  d <> "" -> str_all is_decimal d = true ->
  (l = "" \/ exists c, l = String c "" /\ is_upper c = true) ->
  ends_with_space ("FIG. " ++ d ++ l) = false.
Proof.
  intros Hne Hd [->|(c & -> & Hc)].
  - rewrite append_nil_r, ends_with_space_app by exact Hne.
    now apply all_decimal_no_trailing_space.
  - rewrite <- append_assoc, ends_with_space_app by discriminate.
    simpl. now apply upper_not_space.
Qed.

(** A canonical figure id is left as it is. *)
Lemma normalize_figure_fixes_normal_form f :
  figure_id_normal_form f -> _normalize_figure (JStr f) = f.
Proof.
  intros (d & l & -> & Hne & Hd & Hl).
  pose proof (normal_form_no_trailing_space d l Hne Hd Hl) as Hend.
  assert (Hstrip : strip ("FIG. " ++ d ++ l) = "FIG. " ++ d ++ l)
    by (apply strip_id; [reflexivity|exact Hend]).
  unfold _normalize_figure. rewrite Hstrip.
  assert (Hopt : optional_letter l).
  { destruct Hl as [->|(c & -> & Hc)]; [now left|].
    right. exists c. split; [reflexivity|now apply upper_is_letter]. }
  assert (Hsearch : fig_tail_search ("FIG. " ++ d ++ l) = Some (d, l)).
  { apply (fig_tail_search_iff _ d l Hend).
    exists "FIG. ", "". repeat split; assumption. }
  rewrite Hsearch.
  destruct Hl as [->|(c & -> & Hc)]; [reflexivity|].
  change (upper (String c "")) with (String (upper_char c) "").
  now rewrite (upper_char_of_upper c Hc).
Qed.

Lemma first_digit_run_form t run :
  first_digit_run t = Some run -> run <> "" /\ str_all is_decimal run = true.
Proof.
  unfold first_digit_run.
  pose proof (drop_while_stops (fun c => negb (is_decimal c)) t) as Hs.
  destruct (drop_while (fun c => negb (is_decimal c)) t) as [|c r];
    [discriminate|].
  simpl in Hs. apply negb_false_iff in Hs.
  cbn [is_empty]. intros H.
  assert (E : run = take_while is_decimal (String c r)) by congruence.
  rewrite E. split; [|apply take_while_all].
  cbn [take_while]. rewrite Hs. discriminate.
Qed.

Lemma normalize_figure_form v :
  _normalize_figure v = "" \/ figure_id_normal_form (_normalize_figure v).
Proof.
  destruct v as [|b|n|r|s|l|fields]; try (now left).
  unfold _normalize_figure.
  pose proof (strip_no_trailing_space s) as Hend.
  destruct (fig_tail_search (strip s)) as [[d l]|] eqn:E.
  - right. apply (fig_tail_search_iff _ d l Hend) in E.
    destruct E as (p & w & _ & _ & Hne & Hd & _ & Hl).
    exists d, (upper l). repeat split; try assumption.
    destruct Hl as [->|(c & -> & Hc)]; [now left|].
    right. exists (upper_char c). split; [reflexivity|].
    now apply upper_char_of_letter.
  - destruct (first_digit_run (strip s)) as [run|] eqn:Er; [|now left].
    right. destruct (first_digit_run_form _ _ Er) as [Hne Hd].
    exists run, "". rewrite append_nil_r. repeat split; try assumption.
    now left.
Qed.

(** X1: figure id normalisation is idempotent: normalising its own
    output returns that output, for every decoded value; and the output is
    either empty or canonical: FIG., a space, a digit run and an optional
    upper-case letter. *)
Theorem normalize_figure_idempotent (v : json) :
  _normalize_figure (JStr (_normalize_figure v)) = _normalize_figure v
  /\ (_normalize_figure v = ""
      \/ figure_id_normal_form (_normalize_figure v)).
Proof.
  split; [|apply normalize_figure_form].
  destruct (normalize_figure_form v) as [-> | H]; [reflexivity|].
  now apply normalize_figure_fixes_normal_form.
Qed.

Lemma upper_not_decimal c : is_upper c = true -> is_decimal c = false.
Proof. char_cases c. Qed.

Lemma upper_tail_search_digits d l :
  str_all is_decimal d = true ->
  (l = "" \/ exists c, l = String c "" /\ is_upper c = true) ->
  upper_tail_search (d ++ l) = match l with "" => None | _ => Some l end.
Proof.
  intros Hd Hl. induction d as [|x d IH].
  - destruct Hl as [->|(c & -> & Hc)]; [reflexivity|].
    simpl. now rewrite Hc.
  - simpl in Hd. apply andb_prop in Hd. destruct Hd as [Hx Hd].
    simpl. rewrite (decimal_not_upper x Hx). simpl. now apply IH.
Qed.

Lemma figure_sort_key_normal_form d l :
  d <> "" -> str_all is_decimal d = true ->
  (l = "" \/ exists c, l = String c "" /\ is_upper c = true) ->
  _figure_sort_key ("FIG. " ++ d ++ l) = (int_of_digits d, l).
Proof.
  intros Hne Hd Hl. unfold _figure_sort_key.
  assert (Hrun : first_digit_run ("FIG. " ++ d ++ l) = Some d).
  { apply first_digit_run_of. exists "FIG. ", l. repeat split; try assumption.
    destruct Hl as [->|(c & -> & Hc)]; [exact I|].
    simpl. now apply upper_not_decimal. }
  rewrite Hrun.
  assert (Hsuf : upper_tail_search ("FIG. " ++ d ++ l)
                 = match l with "" => None | _ => Some l end).
  { rewrite <- (upper_tail_search_digits d l Hd Hl).
    destruct d as [|x d]; [now elim Hne|]. reflexivity. }
  rewrite Hsuf. now destruct l.
Qed.

(** X2: the figure sort key of a normalised figure id is the pair of the
    number and the letter the normalisation found: when the stripped text
    ends with a digit run [d], optional whitespace and an optional letter
    [l], the key is the value of [d] with the upper-cased [l]. *)
Theorem figure_sort_key_of_normalized (s d l : string) :
  trailing_figure (strip s) d l ->
  _figure_sort_key (_normalize_figure (JStr s))
  = (int_of_digits d, upper l).
Proof.
  intros H.
  pose proof H as (p & w & _ & _ & Hne & Hd & _ & Hl).
  apply (fig_tail_search_iff _ d l (strip_no_trailing_space s)) in H.
  unfold _normalize_figure. rewrite H.
  apply figure_sort_key_normal_form; try assumption.
  destruct Hl as [->|(c & -> & Hc)]; [now left|].
  right. exists (upper_char c). split; [reflexivity|].
  now apply upper_char_of_letter.
Qed.

Lemma figure_sort_key_of_normalized_witness :
  trailing_figure (strip " Figure 12 b ") "12" "b"
  /\ _figure_sort_key (_normalize_figure (JStr " Figure 12 b "))
     = (12, "B").
Proof.
  assert (H : trailing_figure (strip " Figure 12 b ") "12" "b").
  { exists "Figure ", " ". repeat split; try reflexivity; try discriminate.
    right. exists "b"%char. now split. }
  split; [exact H|].
  exact (figure_sort_key_of_normalized " Figure 12 b " "12" "b" H).
Defined.

Lemma str_all_lstrip q s :
  (forall c, is_space c = true -> q c = true) ->
  str_all q (lstrip s) = str_all q s.
Proof.
  intros Hq. induction s as [|c s IH]; [reflexivity|].
  cbn [lstrip]. destruct (is_space c) eqn:E; [|reflexivity].
  rewrite IH. simpl. now rewrite (Hq c E).
Qed.

Lemma str_all_rstrip q s :
  (forall c, is_space c = true -> q c = true) ->
  str_all q (rstrip s) = str_all q s.
Proof.
  intros Hq. induction s as [|c s IH]; [reflexivity|].
  cbn [rstrip]. cbv zeta.
  destruct (is_empty (rstrip s) && is_space c) eqn:E.
  - apply andb_prop in E. destruct E as [E1 E2].
    apply is_empty_true in E1. rewrite E1 in IH. simpl in IH.
    simpl. now rewrite <- IH, (Hq c E2).
  - simpl. now rewrite IH.
Qed.

Lemma str_all_strip q s :
  (forall c, is_space c = true -> q c = true) ->
  str_all q (strip s) = str_all q s.
Proof.
  intros Hq. unfold strip. now rewrite str_all_rstrip, str_all_lstrip.
Qed.

(** X3: figure id normalisation of a string is empty exactly when the
    string holds no decimal digit; such entries are the ones the merge
    skips for their figure. *)
Theorem normalize_figure_empty_iff (s : string) :
  _normalize_figure (JStr s) = "" <-> str_all not_decimal s = true.
Proof.
  assert (Hs : str_all not_decimal (strip s) = str_all not_decimal s).
  { apply str_all_strip. intros c Hc. unfold not_decimal.
    now rewrite (space_not_decimal c Hc). }
  split.
  - intros H. rewrite <- Hs.
    destruct (str_all not_decimal (strip s)) eqn:E; [reflexivity|].
    destruct (first_run_exists _ E) as [run Hrun].
    apply first_digit_run_of in Hrun.
    unfold _normalize_figure in H. rewrite Hrun in H.
    destruct (fig_tail_search (strip s)) as [[d l]|]; discriminate.
  - intros H. rewrite <- Hs in H. unfold _normalize_figure.
    destruct (no_decimal_no_run _ H) as [-> ->]. reflexivity.
Qed.

(** ** Component sort keys of well-shaped labels *)

Lemma main_not_space c : is_main_char c = true -> is_space c = false.
Proof. char_cases c. Qed.

Lemma prime_not_space c : is_prime_char c = true -> is_space c = false.
Proof. char_cases c. Qed.

Lemma decimal_is_main c : is_decimal c = true -> is_main_char c = true.
Proof. char_cases c. Qed.

Lemma lower_char_decimal c : is_decimal c = true -> lower_char c = c.
Proof. char_cases c. Qed.

Lemma all_no_trailing_space q s :
  (forall c, q c = true -> is_space c = false) ->
  s <> "" -> str_all q s = true -> ends_with_space s = false.
Proof.
  intros Hq. induction s as [|c s IH]; intros Hne H; [now elim Hne|].
  simpl in H. apply andb_prop in H. destruct H as [Hc Hs].
  destruct s as [|c' s]; [simpl; now apply Hq|].
  change (ends_with_space (String c' s) = false). apply IH;
    [discriminate|exact Hs].
Qed.

Lemma shaped_label_strip m p :
  m <> "" -> str_all is_main_char m = true ->
  str_all is_prime_char p = true ->
  strip (m ++ p) = m ++ p.
Proof.
  intros Hne Hm Hp.
  assert (Hend : ends_with_space (m ++ p) = false).
  { destruct p as [|x p].
    - rewrite append_nil_r.
      now apply (all_no_trailing_space is_main_char); [apply main_not_space| |].
    - rewrite ends_with_space_app by discriminate.
      now apply (all_no_trailing_space is_prime_char);
        [apply prime_not_space| |]. }
  destruct m as [|c m]; [now elim Hne|].
  simpl in Hm. apply andb_prop in Hm. destruct Hm as [Hc _].
  apply (strip_id c (m ++ p)); [now apply main_not_space|exact Hend].
Qed.

(** The key of a label of the component shape. *)
Lemma component_sort_key_shaped m p :
  m <> "" -> str_all is_main_char m = true ->
  str_all is_prime_char p = true -> (String.length p <= 2)%nat ->
  _component_sort_key (m ++ p)
  = (if is_empty (take_while is_decimal m) then 0
     else int_of_digits (take_while is_decimal m),
     lower m, prime_rank p).
Proof.
  intros Hne Hm Hp Hlen. unfold _component_sort_key.
  rewrite (shaped_label_strip m p Hne Hm Hp).
  assert (E : _COMPONENT_RE_fullmatch (m ++ p) = Some (m, p))
    by now apply COMPONENT_RE_fullmatch_iff.
  now rewrite E.
Qed.

Lemma str_ltb_irrefl s : str_ltb s s = false.
Proof. unfold str_ltb. now rewrite string_compare_refl. Qed.

Lemma key_ltb_same_label n s r1 r2 :
  key_ltb (n, s, r1) (n, s, r2) = (r1 <? r2).
Proof.
  unfold key_ltb. rewrite Z.ltb_irrefl, Z.eqb_refl, str_ltb_irrefl.
  now rewrite String.eqb_refl.
Qed.

Lemma lower_decimal d : str_all is_decimal d = true -> lower d = d.
Proof.
  induction d as [|c d IH]; [reflexivity|]. simpl. intros H.
  apply andb_prop in H. destruct H as [Hc Hd].
  unfold lower in *. simpl. now rewrite (lower_char_decimal c Hc), IH.
Qed.

Lemma component_sort_key_numeral d :
  d <> "" -> str_all is_decimal d = true ->
  _component_sort_key d = (int_of_digits d, d, 0).
Proof.
  intros Hne Hd.
  assert (Hm : str_all is_main_char d = true)
    by (apply (str_all_impl is_decimal); [apply decimal_is_main|exact Hd]).
  pose proof (component_sort_key_shaped d "" Hne Hm eq_refl (Nat.le_0_l _))
    as H.
  rewrite append_nil_r in H. rewrite H.
  assert (Ht : take_while is_decimal d = d).
  { rewrite <- (append_nil_r d) at 1. now apply take_while_app. }
  rewrite Ht, (lower_decimal d Hd).
  destruct d; [now elim Hne|reflexivity].
Qed.

(** X4: labels made of decimal digits only are ordered by their numeric
    value, and labels of equal value (leading zeros) by their text: the
    key of [a] is below the key of [b] exactly when the number of [a] is
    smaller, or the numbers are equal and [a] is lexically before [b]. *)
Theorem numerals_sort_numerically (a b : string) :
  a <> "" -> b <> "" ->
  str_all is_decimal a = true -> str_all is_decimal b = true ->
  key_ltb (_component_sort_key a) (_component_sort_key b) = true
  <-> int_of_digits a < int_of_digits b
      \/ (int_of_digits a = int_of_digits b /\ str_ltb a b = true).
Proof.
  intros Ha Hb Hda Hdb.
  rewrite (component_sort_key_numeral a Ha Hda).
  rewrite (component_sort_key_numeral b Hb Hdb).
  unfold key_ltb. rewrite Z.ltb_irrefl, andb_false_r, orb_false_r.
  rewrite orb_true_iff, andb_true_iff, Z.ltb_lt, Z.eqb_eq. reflexivity.
Qed.

Lemma numerals_sort_numerically_witness :
  key_ltb (_component_sort_key "9") (_component_sort_key "10") = true
  <-> int_of_digits "9" < int_of_digits "10"
      \/ (int_of_digits "9" = int_of_digits "10" /\ str_ltb "9" "10" = true).
Proof.
  apply (numerals_sort_numerically "9" "10");
    try discriminate; reflexivity.
Defined.

(** X5: the five prime forms of one label are ordered plain, one
    apostrophe, one double quote, two apostrophes, two double quotes,
    whatever the main part of the label is. *)
Theorem prime_marks_order (m : string) :
  m <> "" -> str_all is_main_char m = true ->
  let k p := _component_sort_key (m ++ p) in
  let q := String squote "" in
  let qq := String dquote "" in
  key_ltb (k "") (k q) = true
  /\ key_ltb (k q) (k qq) = true
  /\ key_ltb (k qq) (k (q ++ q)) = true
  /\ key_ltb (k (q ++ q)) (k (qq ++ qq)) = true.
Proof.
  intros Hne Hm k q qq. unfold k, q, qq.
  rewrite !(component_sort_key_shaped m _ Hne Hm);
    try reflexivity; try (simpl; lia).
  rewrite !key_ltb_same_label. repeat split.
Qed.

Lemma prime_marks_order_witness :
  let k p := _component_sort_key ("140a" ++ p) in
  let q := String squote "" in
  let qq := String dquote "" in
  key_ltb (k "") (k q) = true
  /\ key_ltb (k q) (k qq) = true
  /\ key_ltb (k qq) (k (q ++ q)) = true
  /\ key_ltb (k (q ++ q)) (k (qq ++ qq)) = true.
Proof.
  apply (prime_marks_order "140a"); [discriminate|reflexivity].
Defined.

(** ** Component cleaning, on any decoded list *)

Lemma clean_components_general (order : set_iteration) comps :
  _clean_components order comps
  = sorted _component_sort_key key_ltb
      (order (surviving (stripped_strings comps))).
Proof.
  unfold _clean_components, surviving, stripped_strings.
  destruct (filter matches_component _) eqn:E; [|reflexivity].
  simpl. now rewrite set_list_nil.
Qed.

Lemma clean_components_In (order : set_iteration) comps c :
  In c (_clean_components order comps)
  <-> In c (surviving (stripped_strings comps)).
Proof.
  rewrite clean_components_general.
  rewrite sorted_In. apply set_list_In.
Qed.

Lemma clean_components_NoDup (order : set_iteration) comps :
  NoDup (_clean_components order comps).
Proof.
  rewrite clean_components_general.
  apply sorted_NoDup, set_list_NoDup.
Qed.

Lemma component_shape_strip c : component_shape c -> strip c = c.
Proof.
  intros (m & p & -> & Hne & Hm & Hp & _). now apply shaped_label_strip.
Qed.

Lemma filter_id {A : Type} (f : A -> bool) l :
  (forall x, In x l -> f x = true) -> filter f l = l.
Proof.
  induction l as [|x l IH]; intros H; [reflexivity|]. simpl.
  rewrite (H x (or_introl eq_refl)). f_equal. apply IH.
  intros y Hy. apply H. now right.
Qed.

Lemma surviving_fixed stripped l :
  (forall c, In c l <-> In c (surviving stripped)) ->
  surviving l = l.
Proof.
  intros Hl.
  assert (Hshape : forall c, In c l -> matches_component c = true).
  { intros c Hc. apply Hl, surviving_In in Hc.
    now apply matches_component_iff. }
  unfold surviving. rewrite (filter_id _ l Hshape).
  destruct (existsb (fun c => 2 <=? len c) (filter isdigit l)) eqn:E;
    [|reflexivity].
  apply existsb_exists in E. destruct E as (y & Hy & Hlen).
  apply filter_In in Hy. destruct Hy as [Hy Hdig].
  apply Z.leb_le in Hlen.
  apply filter_id. intros c Hc. apply Hl, surviving_In in Hc.
  destruct Hc as (_ & _ & Hc).
  apply Hl, surviving_In in Hy. destruct Hy as (Hy & Hys & _).
  assert (Hex : exists y, In y stripped /\ component_shape y
                          /\ isdigit y = true /\ 2 <= len y)
    by (exists y; auto).
  specialize (Hc Hex).
  destruct (isdigit c) eqn:Ed; [|reflexivity].
  destruct (Z.ltb_spec (len c) 2) as [Hlt|]; [|reflexivity].
  elim Hc. now split.
Qed.

(** X6: cleaning is stable: cleaning the cleaned list of any decoded
    list again, under any iteration order of the set, returns the same
    labels, none dropped and none changed, again in sort key order. *)
Theorem clean_components_stable (order order' : set_iteration)
  (comps : list json) :
  let kept := _clean_components order comps in
  Permutation (_clean_components order' (map JStr kept)) kept
  /\ sorted_by _component_sort_key key_ltb
       (_clean_components order' (map JStr kept)).
Proof.
  intros kept.
  assert (Hin : forall c, In c kept
                          <-> In c (surviving (stripped_strings comps)))
    by (intros c; apply clean_components_In).
  assert (Hstrip : map strip kept = kept).
  { rewrite <- (map_id kept) at 2. apply map_ext_in. intros c Hc.
    apply component_shape_strip. now apply Hin, surviving_In in Hc. }
  assert (E : _clean_components order' (map JStr kept)
              = sorted _component_sort_key key_ltb (order' kept)).
  { rewrite clean_components_surviving, Hstrip.
    now rewrite (surviving_fixed _ kept Hin). }
  rewrite E. split; [|apply sorted_sorted, key_ltb_strict_total].
  rewrite sorted_perm. apply NoDup_Permutation.
  - apply set_list_NoDup.
  - apply clean_components_NoDup.
  - intros c. apply set_list_In.
Qed.

(** ** The run: when it returns, and what it returns *)

Lemma merge_item_returns_well_formed order page_no merged item merged' :
  merge_item order page_no merged item = Returned merged' ->
  well_formed_entry item = true.
Proof.
  destruct item as [|b|n|r|s|l|fields]; unfold merge_item; try discriminate.
  unfold well_formed_entry, entry_figure.
  destruct (is_empty (_normalize_figure (get fields "figure" (JStr ""))));
    [reflexivity|].
  cbn [orb].
  destruct (get fields "components" (JArr [])); cbn [py_iter bind iterable];
    try discriminate;
    (destruct (dict_find String.eqb "hierarchy" fields) as [h|];
     [|reflexivity]);
    destruct h; cbn [py_iter bind iterable]; try discriminate; reflexivity.
Qed.

Lemma merge_entries_returns_well_formed order es :
  forall merged merged',
    merge_entries order merged es = Returned merged' ->
    forallb (fun e => well_formed_entry (snd e)) es = true.
Proof.
  induction es as [|e es IH]; intros merged merged' H; [reflexivity|].
  simpl in H.
  destruct (merge_item order (fst e) merged (snd e)) as [m1|x] eqn:E;
    [|discriminate].
  cbn [bind] in H. simpl.
  rewrite (merge_item_returns_well_formed _ _ _ _ _ E).
  now apply (IH m1 merged').
Qed.

(** X7: the run returns a result exactly when every entry of every page
    is an object whose components and hierarchy, when its figure id is
    kept, can be iterated over; with any other entry the run raises and no
    result is produced. *)
Theorem run_returns_iff_well_formed
  (order : set_iteration) (responses : list (Z * list json)) :
  (exists out, extract_figures_with_lmm order responses = Returned out)
  <-> forallb (fun e => well_formed_entry (snd e)) (entries_of responses)
      = true.
Proof.
  unfold extract_figures_with_lmm. rewrite merge_pages_entries. split.
  - intros (out & H).
    destruct (merge_entries order [] (entries_of responses)) as [m|x] eqn:E;
      [|discriminate].
    now apply (merge_entries_returns_well_formed _ _ _ _ E).
  - intros Hwf.
    destruct (merge_entries_inv order (entries_of responses) [] []
                (merge_inv_start order) Hwf) as (m & -> & _).
    now eexists.
Qed.

Lemma entries_of_page responses e :
  In e (entries_of responses) -> In (fst e) (map fst responses).
Proof.
  unfold entries_of. rewrite in_flat_map. intros ([p res] & Hpr & He).
  apply in_map_iff in He. destruct He as (item & <- & _).
  apply in_map_iff. now exists (p, res).
Qed.

Lemma entry_components_shape order item c :
  In c (entry_components order item) -> component_shape c.
Proof.
  destruct item as [|b|n|r|s|l|fields]; try (intros []).
  unfold entry_components.
  destruct (py_iter (get fields "components" (JArr []))) as [comps|x];
    [|intros []].
  intros H. now apply clean_components_In, surviving_In in H.
Qed.

(** X8: whenever the run returns, every item of the result is the
    serialisation of a record whose figure id is canonical (FIG., a space,
    a digit run, an optional upper-case letter), whose page is one of the
    page numbers of the run, and whose components are distinct labels of
    the component shape. *)
Theorem output_records_canonical
  (order : set_iteration) (responses : list (Z * list json))
  (out : list (list (string * json))) :
  extract_figures_with_lmm order responses = Returned out ->
  forall item, In item out ->
    exists r,
      item = ordered_item r
      /\ figure_id_normal_form (figure r)
      /\ In (page r) (map fst responses)
      /\ NoDup (components r)
      /\ (forall c, In c (components r) -> component_shape c).
Proof.
  unfold extract_figures_with_lmm. rewrite merge_pages_entries.
  intros H item Hitem.
  destruct (merge_entries order [] (entries_of responses)) as [m|x] eqn:E;
    [|discriminate].
  pose proof (merge_entries_returns_well_formed _ _ _ _ E) as Hwf.
  destruct (merge_entries_inv order (entries_of responses) [] []
              (merge_inv_start order) Hwf) as (m' & E' & Hinv).
  rewrite E in E'. injection E' as <-.
  cbn [bind] in H. injection H as <-.
  simpl app in Hinv. destruct Hinv as (_ & Hrec & Hkeys).
  unfold final_output in Hitem. apply in_map_iff in Hitem.
  destruct Hitem as (k & <- & Hk).
  apply sorted_In in Hk. pose proof (item_of_In m k Hk) as Hin.
  destruct (Hrec _ _ Hin) as [Hkey (Hne & Hnd & _ & Hcomp & _)].
  apply Hkeys in Hk. destruct Hk as (_ & e & He & Hek).
  exists (item_of k m). split; [reflexivity|].
  assert (Hfig : figure (item_of k m) = entry_figure (snd e)).
  { unfold record_key in Hkey. rewrite <- Hek in Hkey at 3.
    unfold entry_key in Hkey. congruence. }
  assert (Hpage : page (item_of k m) = fst e).
  { unfold record_key in Hkey. rewrite <- Hek in Hkey at 3.
    unfold entry_key in Hkey. congruence. }
  split.
  - unfold record_key in Hne. simpl in Hne. rewrite Hfig in Hne |- *.
    destruct (snd e) as [|b|n|r|s|l|fields]; try (now elim Hne).
    unfold entry_figure in *.
    destruct (normalize_figure_form (get fields "figure" (JStr "")))
      as [H0|H0]; [now elim Hne|exact H0].
  - split; [rewrite Hpage; now apply entries_of_page|].
    split; [exact Hnd|].
    intros c Hc. apply Hcomp in Hc. destruct Hc as (e' & _ & _ & Hc).
    now apply entry_components_shape in Hc.
Qed.

Lemma output_records_canonical_witness :
  exists r,
    [ ("components", JArr [JStr "10"; JStr "20"; JStr "30"]);
      ("hierarchy", JArr [demo_relation; demo_relation]);
      ("figure", JStr "FIG. 2");
      ("page", JInt 1) ] = ordered_item r
    /\ figure_id_normal_form (figure r)
    /\ In (page r) (map fst demo_responses)
    /\ NoDup (components r)
    /\ (forall c, In c (components r) -> component_shape c).
Proof.
  exact (output_records_canonical first_seen_order demo_responses _ eq_refl
           _ (or_introl eq_refl)).
Defined.

(** ** Reply parsing *)

Lemma parse_json_array_attempts
  (json_loads : string -> option json) (txt : string) :
  _parse_json_array json_loads txt
  = if is_empty txt then JArr []
    else
      match json_loads (cleaned_text txt) with
      | Some v => v
      | None =>
          match bracket_search (cleaned_text txt) with
          | Some span =>
              match json_loads span with
              | Some v => v
              | None => JArr []
              end
          | None => JArr []
          end
      end.
Proof.
  unfold _parse_json_array, cleaned_text.
  destruct (is_empty txt); [reflexivity|].
  set (t := if String.prefix fence (strip txt) then _ else _).
  destruct (json_loads t); [reflexivity|].
  destruct (bracket_search t) as [g|] eqn:E; [|reflexivity].
  destruct (json_loads g) eqn:E2; [reflexivity|].
  rewrite (bracket_search_endswith _ _ E). cbn [negb]. now rewrite E2.
Qed.

(** X9: the tail fix of the parser never changes its result.  For every
    decoder and every text, the parser returns the empty list on the
    empty text, else the decoding of the cleaned text, else the decoding
    of the span from its first opening bracket to its last closing
    bracket, else the empty list: the third attempt, on the fixed text,
    is the second attempt again. *)
Theorem parse_json_array_two_attempts
  (json_loads : string -> option json) (txt : string) :
  _parse_json_array json_loads txt
  = if is_empty txt then JArr []
    else
      match json_loads (cleaned_text txt) with
      | Some v => v
      | None =>
          match bracket_search (cleaned_text txt) with
          | Some span =>
              match json_loads span with
              | Some v => v
              | None => JArr []
              end
          | None => JArr []
          end
      end.
Proof. apply parse_json_array_attempts. Qed.

Lemma remove_fences_from_skip a s :
  remove_fences_from (String.length a) (a ++ s) = remove_fences_from O s.
Proof. induction a as [|c a IH]; [reflexivity|exact IH]. Qed.

Lemma backtick_not_space c : is_backtick c = true -> is_space c = false.
Proof. char_cases c. Qed.

Lemma prefix_cons a p c s :
  String.prefix (String a p) (String c s)
  = if ascii_dec a c then String.prefix p s else false.
Proof. reflexivity. Qed.

Lemma prefix_fence_no_backtick c s :
  is_backtick c = false -> String.prefix fence (String c s) = false.
Proof.
  intros Hc. unfold fence. rewrite prefix_cons.
  destruct (ascii_dec "`" c) as [<-|_]; [discriminate|reflexivity].
Qed.

Lemma fence_match_length_plain c s :
  is_backtick c = false ->
  (c = ascii_of_N 10 -> String.prefix fence s = false) ->
  fence_match_length (String c s) = O.
Proof.
  intros Hc Hs. unfold fence_match_length, strip_prefix.
  rewrite (prefix_fence_no_backtick c s Hc).
  change (newline ++ fence) with (String (ascii_of_N 10) fence).
  rewrite prefix_cons.
  destruct (ascii_dec (ascii_of_N 10) c) as [<-|_]; [|reflexivity].
  now rewrite (Hs eq_refl).
Qed.

Lemma remove_fences_body body :
  str_all (fun c => negb (is_backtick c)) body = true ->
  remove_fences_from O (body ++ newline ++ fence) = body.
Proof.
  induction body as [|c body IH]; intros H; [reflexivity|].
  simpl in H. apply andb_prop in H. destruct H as [Hc Hb].
  apply negb_true_iff in Hc.
  change ((String c body ++ newline ++ fence))
    with (String c (body ++ newline ++ fence)).
  cbn [remove_fences_from].
  rewrite fence_match_length_plain; [now rewrite IH|exact Hc|].
  intros _. destruct body as [|d body].
  - reflexivity.
  - simpl in Hb. apply andb_prop in Hb. destruct Hb as [Hd _].
    apply negb_true_iff in Hd. now apply prefix_fence_no_backtick.
Qed.

Lemma substring_all r : String.substring 0 (String.length r) r = r.
Proof. induction r as [|c r IH]; simpl; [reflexivity|now rewrite IH]. Qed.

Lemma prefix_app p r : String.prefix p (p ++ r) = true.
Proof.
  induction p as [|a p IH]; [now destruct r|].
  change (String a p ++ r) with (String a (p ++ r)). rewrite prefix_cons.
  destruct (ascii_dec a a) as [_|H]; [exact IH|now elim H].
Qed.

Lemma strip_prefix_app p r : strip_prefix p (p ++ r) = Some r.
Proof.
  unfold strip_prefix. rewrite prefix_app, length_append.
  replace (String.length p + String.length r - String.length p)%nat
    with (String.length r) by lia.
  f_equal. induction p as [|a p IH]; [apply substring_all|exact IH].
Qed.

Lemma remove_fences_from_match c r k :
  fence_match_length (String c r) = S k ->
  remove_fences_from O (String c r) = remove_fences_from k r.
Proof. intros H. cbn [remove_fences_from]. now rewrite H. Qed.

Lemma fence_match_length_opening tail :
  fence_match_length (fence ++ "json" ++ newline ++ tail) = 8%nat.
Proof.
  unfold fence_match_length. rewrite strip_prefix_app.
  unfold skip_optional. rewrite strip_prefix_app, strip_prefix_app.
  rewrite !length_append.
  change (String.length fence) with 3%nat.
  change (String.length "json") with 4%nat.
  change (String.length newline) with 1%nat. lia.
Qed.

Lemma cleaned_text_fenced body :
  str_all (fun c => negb (is_backtick c)) body = true ->
  cleaned_text (fenced body) = body.
Proof.
  intros Hb. unfold cleaned_text.
  assert (Hend : ends_with_space (fenced body) = false).
  { unfold fenced. rewrite <- !append_assoc.
    rewrite ends_with_space_app by discriminate. reflexivity. }
  assert (Hstrip : strip (fenced body) = fenced body).
  { unfold fenced, fence in *. now apply strip_id. }
  rewrite Hstrip.
  assert (Hp : String.prefix fence (fenced body) = true)
    by (unfold fenced; apply prefix_app).
  rewrite Hp. unfold remove_fences.
  pose proof (fence_match_length_opening (body ++ newline ++ fence)) as Hlen.
  change (fence ++ "json" ++ newline ++ body ++ newline ++ fence)
    with (String "`" (("``json" ++ newline) ++ body ++ newline ++ fence))
    in Hlen.
  change (fenced body)
    with (String "`" (("``json" ++ newline) ++ body ++ newline ++ fence)).
  rewrite (remove_fences_from_match _ _ _ Hlen).
  change 7%nat with (String.length ("``json" ++ newline)).
  rewrite remove_fences_from_skip. now apply remove_fences_body.
Qed.

(** X10: a fenced reply is read as its body.  When the body holds no
    backtick and the decoder accepts it, the parser returns the decoded
    body for the reply that wraps it in an opening json fence and a
    closing fence, each on its own line. *)
Theorem parse_json_array_fenced
  (json_loads : string -> option json) (body : string) (v : json) :
  str_all (fun c => negb (is_backtick c)) body = true ->
  json_loads body = Some v ->
  _parse_json_array json_loads (fenced body) = v.
Proof.
  intros Hb Hv. rewrite parse_json_array_attempts.
  rewrite (cleaned_text_fenced body Hb), Hv. reflexivity.
Qed.

Lemma parse_json_array_fenced_witness :
  _parse_json_array loads_integer (fenced "42") = JInt 42.
Proof.
  apply (parse_json_array_fenced loads_integer "42" (JInt 42)); reflexivity.
Defined.

(** ** The page loop on the replies *)

Section PageRepliesFacts.
Variable float_truth : string -> bool.

Lemma page_result_items call :
  py_iter (or_empty float_truth (page_result float_truth call))
  = Returned (entries_of_call call).
Proof.
  destruct call as [v|]; [|reflexivity].
  destruct v as [|b|n|r|s|l|f]; unfold page_result, or_empty;
    cbn [truthy py_len entries_of_call].
  - reflexivity.
  - now destruct b.
  - destruct (n =? 0) eqn:E; cbn [negb truthy py_len]; rewrite ?E;
      reflexivity.
  - destruct (float_truth r) eqn:E; cbn [negb truthy py_len]; rewrite ?E;
      reflexivity.
  - now destruct s.
  - now destruct l.
  - now destruct f.
Qed.

Lemma run_pages_merge_pages order calls :
  forall merged,
    run_pages float_truth order merged calls
    = merge_pages order merged
        (map (fun pc => (fst pc, entries_of_call (snd pc))) calls).
Proof.
  induction calls as [|[p call] calls IH]; intros merged; [reflexivity|].
  cbn [run_pages map fst snd merge_pages].
  rewrite page_result_items. cbn [bind].
  destruct (merge_items order p merged (entries_of_call call)); cbn [bind];
    [apply IH|reflexivity].
Qed.

End PageRepliesFacts.

(** X11: a page whose call raised, or whose reply decoded to a value
    that is falsy or has no length (null, a boolean, a number, an empty
    list, string or object), adds nothing: the page loop goes on and ends
    as if the page were not there. *)
Theorem page_without_entries_is_skipped
  (float_truth : string -> bool) (order : set_iteration)
  (merged : merged_map) (before after : list (Z * option json))
  (page_no : Z) (call : option json) :
  match call with
  | None => True
  | Some v => iterable v = false \/ truthy float_truth v = false
  end ->
  run_pages float_truth order merged (before ++ (page_no, call) :: after)
  = run_pages float_truth order merged (before ++ after).
Proof.
  intros H. rewrite !run_pages_merge_pages, !map_app.
  cbn [map fst snd]. rewrite !merge_pages_app.
  destruct (merge_pages order merged _) as [m|x]; [|reflexivity].
  cbn [bind].
  assert (E : entries_of_call call = []).
  { destruct call as [v|]; [|reflexivity].
    destruct H as [H|H]; destruct v as [|b|n|r|s|l|f]; try discriminate;
      try reflexivity.
    - now destruct s.
    - now destruct l.
    - now destruct f. }
  rewrite E. reflexivity.
Qed.

Lemma page_without_entries_is_skipped_witness :
  run_pages (fun _ => true) first_seen_order []
    ([(1, Some (JArr [demo_entry "FIG. 2" ["10"]]))]
     ++ (2, Some (JInt 42)) :: [(3, None)])
  = run_pages (fun _ => true) first_seen_order []
      ([(1, Some (JArr [demo_entry "FIG. 2" ["10"]]))] ++ [(3, None)]).
Proof.
  apply (page_without_entries_is_skipped (fun _ => true) first_seen_order []
           [(1, Some (JArr [demo_entry "FIG. 2" ["10"]]))] [(3, None)]
           2 (Some (JInt 42))).
  now left.
Defined.

(** X12: a reply that decoded to a non-empty object, such as a single
    figure instead of a list of figures, or to a non-empty string, aborts
    the run: once the pages before it are merged, the page loop raises
    AttributeError at its first key or character, whatever follows. *)
Theorem keyed_reply_aborts_the_run
  (float_truth : string -> bool) (order : set_iteration)
  (merged merged' : merged_map) (before after : list (Z * option json))
  (page_no : Z) (v : json) :
  run_pages float_truth order merged before = Returned merged' ->
  (exists k x f, v = JObj ((k, x) :: f))
  \/ (exists c s, v = JStr (String c s)) ->
  run_pages float_truth order merged (before ++ (page_no, Some v) :: after)
  = Raised AttributeError.
Proof.
  intros Hbefore Hv. rewrite run_pages_merge_pages in Hbefore.
  rewrite run_pages_merge_pages, map_app. cbn [map fst snd].
  rewrite merge_pages_app, Hbefore. cbn [bind merge_pages].
  destruct Hv as [(k & x & f & ->)|(c & s & ->)]; reflexivity.
Qed.

Lemma keyed_reply_aborts_the_run_witness :
  run_pages (fun _ => true) first_seen_order []
    ([(1, Some (JArr [demo_entry "FIG. 2" ["10"]]))]
     ++ (2, Some (demo_entry "FIG. 3" ["20"])) :: [(3, None)])
  = Raised AttributeError.
Proof.
  eapply (keyed_reply_aborts_the_run (fun _ => true) first_seen_order []).
  - reflexivity.
  - left. unfold demo_entry. eauto.
Defined.

(** ** Exact arithmetic is ordered *)

Lemma x_lt_Fin p q : x_lt (Fin p) (Fin q) = true <-> (p < q)%Q.
Proof.
  unfold x_lt. rewrite negb_true_iff. split.
  - intros H. apply Qnot_le_lt. intros Hle.
    apply Qle_bool_iff in Hle. congruence.
  - intros H. destruct (Qle_bool q p) eqn:E; [|reflexivity].
    apply Qle_bool_iff in E. exfalso. exact (Qlt_not_le _ _ H E).
Qed.

Lemma x_lt_Fin_false p q : x_lt (Fin p) (Fin q) = false <-> (q <= p)%Q.
Proof.
  unfold x_lt. rewrite negb_false_iff. apply Qle_bool_iff.
Qed.

Lemma x_lt_irrefl a : x_lt a a = false.
Proof.
  destruct a as [p|]; [|reflexivity]. apply x_lt_Fin_false, Qle_refl.
Qed.

Lemma x_lt_trans a b c :
  x_lt a b = true -> x_lt b c = true -> x_lt a c = true.
Proof.
  destruct a as [p|], b as [q|], c as [r|]; try discriminate;
    try reflexivity.
  rewrite !x_lt_Fin. apply Qlt_trans.
Qed.

Lemma x_ge_trans a b c :
  x_lt b c = false -> x_lt a b = false -> x_lt a c = false.
Proof.
  destruct a as [p|], b as [q|], c as [r|]; try discriminate;
    try reflexivity.
  rewrite !x_lt_Fin_false. intros H1 H2. exact (Qle_trans _ _ _ H1 H2).
Qed.

(** ** The unified content box *)

(** C9: for every sequence of pages whose scaled boxes are finite with
    positive right and bottom edges, the comparison of the numbers being
    a strict order whose negation is transitive, the unified box is the
    running union of the pages' boxes, each scaled by its page's ratio
    width/800; when there is one, its left and top edges are the minimum
    of the lefts and tops and its right and bottom edges the maximum of
    the rights and bottoms of the scaled boxes of the pages that yielded a
    box: each is the edge of one of them and no other lies beyond it; and
    it is absent exactly when no page yielded a box. *)
Theorem get_unified_content_bbox_spec
  (num : Type) (inf zero : num) (truediv : Z -> Z -> num)
  (mul : Z -> num -> num) (lt : num -> num -> bool)
  (lt_irrefl : forall a, lt a a = false)
  (lt_trans : forall a b c, lt a b = true -> lt b c = true -> lt a c = true)
  (ge_trans : forall a b c, lt b c = false -> lt a b = false -> lt a c = false)
  (images : list page_proxy)
  (Hboxes : Forall (finite_positive num inf zero lt)
              (scaled_boxes num truediv mul images)) :
  let boxes := scaled_boxes num truediv mul images in
  let unified := get_unified_content_bbox num inf zero truediv mul lt images in
  unified = running_union num lt boxes
  /\ (forall g, unified = Some g ->
        (In (left_of num g) (map (left_of num) boxes)
         /\ forall b, In b boxes ->
              lt (left_of num b) (left_of num g) = false)
        /\ (In (top_of num g) (map (top_of num) boxes)
            /\ forall b, In b boxes ->
                 lt (top_of num b) (top_of num g) = false)
        /\ (In (right_of num g) (map (right_of num) boxes)
            /\ forall b, In b boxes ->
                 lt (right_of num g) (right_of num b) = false)
        /\ (In (bottom_of num g) (map (bottom_of num) boxes)
            /\ forall b, In b boxes ->
                 lt (bottom_of num g) (bottom_of num b) = false))
  /\ (unified = None <-> forall im, In im images -> snd im = None).
Proof.
  intros boxes unified.
  pose proof (get_unified_content_bbox_running_union num inf zero truediv
                mul lt images Hboxes) as Heq.
  split; [exact Heq|]. split.
  - intros g Hg.
    exact (unified_box_is_min_max num inf zero truediv mul lt lt_irrefl
             lt_trans ge_trans images g Hboxes Hg).
  - unfold unified. rewrite Heq, <- (scaled_boxes_nil_iff num truediv mul).
    destruct (scaled_boxes num truediv mul images); simpl.
    + split; reflexivity.
    + split; discriminate.
Qed.

(** In exact arithmetic: three pages of which two have content, the
    first at ratio 2 with proxy box (10, 10, 90, 90) and the third at
    ratio 1 with proxy box (5, 30, 50, 60).  The unified box is
    (5, 20, 180, 180): its left edge comes from the third page, the other
    three from the first.  The example of the specification, one
    contributing page of three, gives (20, 20, 180, 180), and pages
    without content give no box. *)
Lemma get_unified_content_bbox_spec_witness :
  let images :=
    [(1600, Some (10, 10, 90, 90)); (800, None); (800, Some (5, 30, 50, 60))]
    in
  let boxes := scaled_boxes xnum x_truediv x_mul images in
  let g := (x_of_Z 5, x_of_Z 20, x_of_Z 180, x_of_Z 180) in
  get_unified_content_bbox xnum Inf (x_of_Z 0) x_truediv x_mul x_lt images
  = Some g
  /\ ((In (left_of xnum g) (map (left_of xnum) boxes)
       /\ forall b, In b boxes ->
            x_lt (left_of xnum b) (left_of xnum g) = false)
      /\ (In (top_of xnum g) (map (top_of xnum) boxes)
          /\ forall b, In b boxes ->
               x_lt (top_of xnum b) (top_of xnum g) = false)
      /\ (In (right_of xnum g) (map (right_of xnum) boxes)
          /\ forall b, In b boxes ->
               x_lt (right_of xnum g) (right_of xnum b) = false)
      /\ (In (bottom_of xnum g) (map (bottom_of xnum) boxes)
          /\ forall b, In b boxes ->
               x_lt (bottom_of xnum g) (bottom_of xnum b) = false))
  /\ get_unified_content_bbox xnum Inf (x_of_Z 0) x_truediv x_mul x_lt
       [(1600, None); (1600, Some (10, 10, 90, 90)); (1600, None)]
     = Some (x_of_Z 20, x_of_Z 20, x_of_Z 180, x_of_Z 180)
  /\ get_unified_content_bbox xnum Inf (x_of_Z 0) x_truediv x_mul x_lt
       [(1600, None); (1200, None)] = None.
Proof.
  intros images boxes g.
  assert (H : Forall (finite_positive xnum Inf (x_of_Z 0) x_lt)
                (scaled_boxes xnum x_truediv x_mul images)).
  { repeat constructor. }
  destruct (get_unified_content_bbox_spec xnum Inf (x_of_Z 0) x_truediv
              x_mul x_lt x_lt_irrefl x_lt_trans x_ge_trans images H)
    as (_ & Hext & _).
  split; [reflexivity|].
  split; [exact (Hext g eq_refl)|].
  split; reflexivity.
Defined.

(** ** The unified box over the pages *)

Lemma scaled_box_In (num : Type) (truediv : Z -> Z -> num)
  (mul : Z -> num -> num) images width b :
  In (width, Some b) images ->
  In (scaled_box num truediv mul width b) (scaled_boxes num truediv mul images).
Proof.
  intros H. unfold scaled_boxes. apply in_flat_map.
  exists (width, Some b). split; [exact H|now left].
Qed.

(** X13: the unified box contains the scaled content box of every page
    that has one: no page's left or top edge lies before the unified left
    or top edge, and no page's right or bottom edge lies beyond the
    unified right or bottom edge.  The comparison of the numbers is a
    strict order whose negation is transitive, and the scaled boxes are
    finite with positive right and bottom edges. *)
Theorem unified_box_contains_every_page
  (num : Type) (inf zero : num) (truediv : Z -> Z -> num)
  (mul : Z -> num -> num) (lt : num -> num -> bool)
  (lt_irrefl : forall a, lt a a = false)
  (lt_trans : forall a b c, lt a b = true -> lt b c = true -> lt a c = true)
  (ge_trans : forall a b c, lt b c = false -> lt a b = false -> lt a c = false)
  (images : list page_proxy) (g : box num) (width : Z) (b : box Z) :
  Forall (finite_positive num inf zero lt)
    (scaled_boxes num truediv mul images) ->
  get_unified_content_bbox num inf zero truediv mul lt images = Some g ->
  In (width, Some b) images ->
  let sb := scaled_box num truediv mul width b in
  lt (left_of num sb) (left_of num g) = false
  /\ lt (top_of num sb) (top_of num g) = false
  /\ lt (right_of num g) (right_of num sb) = false
  /\ lt (bottom_of num g) (bottom_of num sb) = false.
Proof.
  intros Hboxes Hg Hin sb.
  destruct (unified_box_is_min_max num inf zero truediv mul lt lt_irrefl
              lt_trans ge_trans images g Hboxes Hg)
    as ((_ & Hl) & (_ & Ht) & (_ & Hr) & (_ & Hb)).
  pose proof (scaled_box_In num truediv mul images width b Hin) as Hsb.
  repeat split; [apply Hl|apply Ht|apply Hr|apply Hb]; exact Hsb.
Qed.

Lemma unified_box_contains_every_page_witness :
  let images :=
    [(1600, Some (10, 10, 90, 90)); (800, None); (800, Some (5, 20, 50, 60))]
    in
  let sb := scaled_box xnum x_truediv x_mul 800 (5, 20, 50, 60) in
  let g := (x_of_Z 5, x_of_Z 20, x_of_Z 180, x_of_Z 180) in
  x_lt (left_of xnum sb) (left_of xnum g) = false
  /\ x_lt (top_of xnum sb) (top_of xnum g) = false
  /\ x_lt (right_of xnum g) (right_of xnum sb) = false
  /\ x_lt (bottom_of xnum g) (bottom_of xnum sb) = false.
Proof.
  intros images sb g.
  apply (unified_box_contains_every_page xnum Inf (x_of_Z 0) x_truediv x_mul
           x_lt x_lt_irrefl x_lt_trans x_ge_trans images g 800 (5, 20, 50, 60)).
  - repeat constructor.
  - reflexivity.
  - simpl. auto.
Defined.

Lemma scaled_boxes_Permutation (num : Type) (truediv : Z -> Z -> num)
  (mul : Z -> num -> num) images images' :
  Permutation images images' ->
  Permutation (scaled_boxes num truediv mul images)
    (scaled_boxes num truediv mul images').
Proof.
  intros H. unfold scaled_boxes. induction H; simpl.
  - constructor.
  - now apply Permutation_app_head.
  - rewrite !app_assoc. apply Permutation_app_tail, Permutation_app_comm.
  - etransitivity; eassumption.
Qed.

(** X14: the unified box does not depend on the order of the pages.  For
    two orderings of the same pages the function returns no box for both,
    or two boxes whose edges are pairwise equal as numbers: neither is
    below the other. *)
Theorem unified_box_ignores_page_order
  (num : Type) (inf zero : num) (truediv : Z -> Z -> num)
  (mul : Z -> num -> num) (lt : num -> num -> bool)
  (lt_irrefl : forall a, lt a a = false)
  (lt_trans : forall a b c, lt a b = true -> lt b c = true -> lt a c = true)
  (ge_trans : forall a b c, lt b c = false -> lt a b = false -> lt a c = false)
  (images images' : list page_proxy) :
  Permutation images images' ->
  Forall (finite_positive num inf zero lt)
    (scaled_boxes num truediv mul images) ->
  match get_unified_content_bbox num inf zero truediv mul lt images,
        get_unified_content_bbox num inf zero truediv mul lt images' with
  | None, None => True
  | Some g, Some g' =>
      let same a c := lt a c = false /\ lt c a = false in
      same (left_of num g) (left_of num g')
      /\ same (top_of num g) (top_of num g')
      /\ same (right_of num g) (right_of num g')
      /\ same (bottom_of num g) (bottom_of num g')
  | _, _ => False
  end.
Proof.
  intros Hperm Hboxes.
  pose proof (scaled_boxes_Permutation num truediv mul _ _ Hperm) as Hp.
  assert (Hboxes' : Forall (finite_positive num inf zero lt)
                      (scaled_boxes num truediv mul images')).
  { rewrite Forall_forall in *. intros x Hx. apply Hboxes.
    eapply Permutation_in; [symmetry; exact Hp|exact Hx]. }
  pose proof (unified_box_is_min_max num inf zero truediv mul lt lt_irrefl
                lt_trans ge_trans images) as H1.
  pose proof (unified_box_is_min_max num inf zero truediv mul lt lt_irrefl
                lt_trans ge_trans images') as H2.
  rewrite (get_unified_content_bbox_running_union num inf zero truediv mul lt
             images Hboxes) in *.
  rewrite (get_unified_content_bbox_running_union num inf zero truediv mul lt
             images' Hboxes') in *.
  destruct (scaled_boxes num truediv mul images) as [|b0 rest] eqn:E;
    destruct (scaled_boxes num truediv mul images') as [|b0' rest'] eqn:E'.
  - exact I.
  - apply Permutation_nil in Hp. discriminate.
  - symmetry in Hp. apply Permutation_nil in Hp. discriminate.
  - cbn [running_union] in *.
    specialize (H1 _ Hboxes eq_refl). specialize (H2 _ Hboxes' eq_refl).
    cbv zeta in H1, H2.
    destruct H1 as ((Il & Hl) & (It & Ht) & (Ir & Hr) & (Ib & Hb)).
    destruct H2 as ((Il' & Hl') & (It' & Ht') & (Ir' & Hr') & (Ib' & Hb')).
    assert (Hto : forall x, In x (b0 :: rest) -> In x (b0' :: rest'))
      by (intros x; apply Permutation_in; exact Hp).
    assert (Hfrom : forall x, In x (b0' :: rest') -> In x (b0 :: rest))
      by (intros x; apply Permutation_in; symmetry; exact Hp).
    apply in_map_iff in Il, It, Ir, Ib, Il', It', Ir', Ib'.
    destruct Il as (xl & El & Il), It as (xt & Et & It),
             Ir as (xr & Er & Ir), Ib as (xb & Eb & Ib).
    destruct Il' as (yl & El' & Il'), It' as (yt & Et' & It'),
             Ir' as (yr & Er' & Ir'), Ib' as (yb & Eb' & Ib').
    repeat split.
    + rewrite <- El. apply Hl'. now apply Hto.
    + rewrite <- El'. apply Hl. now apply Hfrom.
    + rewrite <- Et. apply Ht'. now apply Hto.
    + rewrite <- Et'. apply Ht. now apply Hfrom.
    + rewrite <- Er'. apply Hr. now apply Hfrom.
    + rewrite <- Er. apply Hr'. now apply Hto.
    + rewrite <- Eb'. apply Hb. now apply Hfrom.
    + rewrite <- Eb. apply Hb'. now apply Hto.
Qed.

Lemma unified_box_ignores_page_order_witness :
  match get_unified_content_bbox xnum Inf (x_of_Z 0) x_truediv x_mul x_lt
          [(1600, Some (10, 10, 90, 90)); (800, Some (5, 20, 50, 60))],
        get_unified_content_bbox xnum Inf (x_of_Z 0) x_truediv x_mul x_lt
          [(800, Some (5, 20, 50, 60)); (1600, Some (10, 10, 90, 90))] with
  | None, None => True
  | Some g, Some g' =>
      let same a c := x_lt a c = false /\ x_lt c a = false in
      same (left_of xnum g) (left_of xnum g')
      /\ same (top_of xnum g) (top_of xnum g')
      /\ same (right_of xnum g) (right_of xnum g')
      /\ same (bottom_of xnum g) (bottom_of xnum g')
  | _, _ => False
  end.
Proof.
  apply (unified_box_ignores_page_order xnum Inf (x_of_Z 0) x_truediv x_mul
           x_lt x_lt_irrefl x_lt_trans x_ge_trans).
  - apply perm_swap.
  - repeat constructor.
Defined.

(** ** Cropping *)

(** X15: cropping never reaches outside the image on the sides it
    clamps and keeps the metadata.  Without a box the image is returned as
    it is; with one, the result is the crop of the pixel content to a
    rectangle whose left and top edges are not below 0 and whose right and
    bottom edges are not above the width and the height of the image, and
    the [info] dict, with the rotation angle stored there, is carried
    over.  The comparison of the numbers is a strict order. *)
Theorem apply_uniform_crop_within_image
  (num : Type) (of_int : Z -> num) (sub add : num -> Z -> num)
  (lt : num -> num -> bool) (pixels : Type)
  (crop : pixels -> box num -> pixels) (size : pixels -> Z * Z)
  (lt_irrefl : forall a, lt a a = false)
  (lt_trans : forall a b c, lt a b = true -> lt b c = true -> lt a c = true)
  (img : image pixels) (padding : Z) :
  apply_uniform_crop num of_int sub add lt pixels crop size img None padding
  = img
  /\ forall bbox,
       let out :=
         apply_uniform_crop num of_int sub add lt pixels crop size img
           (Some bbox) padding in
       info out = info img
       /\ exists rect,
            pixel_data out = crop (pixel_data img) rect
            /\ lt (left_of num rect) (of_int 0) = false
            /\ lt (top_of num rect) (of_int 0) = false
            /\ lt (of_int (fst (size (pixel_data img)))) (right_of num rect)
               = false
            /\ lt (of_int (snd (size (pixel_data img)))) (bottom_of num rect)
               = false.
Proof.
  assert (Hasym : forall a b, lt a b = true -> lt b a = false).
  { intros a b H. destruct (lt b a) eqn:E; [|reflexivity].
    rewrite <- (lt_irrefl a). symmetry. exact (lt_trans a b a H E). }
  assert (Hmax : forall z x, lt (py_max num lt z x) z = false).
  { intros z x. unfold py_max. destruct (lt z x) eqn:E;
      [now apply Hasym|apply lt_irrefl]. }
  assert (Hmin : forall z x, lt z (py_min num lt z x) = false).
  { intros z x. unfold py_min. destruct (lt x z) eqn:E;
      [now apply Hasym|apply lt_irrefl]. }
  split; [reflexivity|].
  intros [[[l t] r] b] out. unfold out, apply_uniform_crop.
  destruct (size (pixel_data img)) as [w h]. cbn [info pixel_data fst snd].
  split; [reflexivity|].
  eexists. split; [reflexivity|].
  unfold crop_rectangle, left_of, top_of, right_of, bottom_of.
  cbn [fst snd]. repeat split; [apply Hmax|apply Hmax|apply Hmin|apply Hmin].
Qed.

Lemma apply_uniform_crop_within_image_witness :
  let img := {| pixel_data := (1000, 1000); info := [("auto_rotate_deg", 90)] |}
    in
  let crop (p : Z * Z) (rect : box xnum) := p in
  let size (p : Z * Z) := p in
  apply_uniform_crop xnum x_of_Z x_sub x_add x_lt (Z * Z) crop size img None 40
  = img
  /\ forall bbox,
       let out :=
         apply_uniform_crop xnum x_of_Z x_sub x_add x_lt (Z * Z) crop size img
           (Some bbox) 40 in
       info out = info img
       /\ exists rect,
            pixel_data out = crop (pixel_data img) rect
            /\ x_lt (left_of xnum rect) (x_of_Z 0) = false
            /\ x_lt (top_of xnum rect) (x_of_Z 0) = false
            /\ x_lt (x_of_Z (fst (size (pixel_data img)))) (right_of xnum rect)
               = false
            /\ x_lt (x_of_Z (snd (size (pixel_data img))))
                 (bottom_of xnum rect) = false.
Proof.
  intros img crop size.
  exact (apply_uniform_crop_within_image xnum x_of_Z x_sub x_add x_lt (Z * Z)
           crop size x_lt_irrefl x_lt_trans img 40).
Defined.

(** The crop example of the specification, in exact arithmetic: the box
    (10, 10, 90, 90) with padding 40 on a 1000 by 1000 image gives the
    rectangle (0, 0, 130, 130). *)
Lemma crop_rectangle_example :
  crop_rectangle xnum x_of_Z x_sub x_add x_lt
    (x_of_Z 10, x_of_Z 10, x_of_Z 90, x_of_Z 90) 40 1000 1000
  = (x_of_Z 0, x_of_Z 0, x_of_Z 130, x_of_Z 130).
Proof. reflexivity. Qed.

(** ** OCR hints *)

(** X16: every hint comes from a token of confidence at least 20, and
    for tokens that lie inside the image its box is inside the 0 to 1000
    square and well ordered: 0 <= ymin <= ymax <= 1000 and
    0 <= xmin <= xmax <= 1000; there are at most as many hints as
    tokens. *)
Theorem hint_boxes_within_range (w_img h_img : Z) (data : list token) :
  0 < w_img -> 0 < h_img ->
  (forall tok, In tok data ->
     0 <= left tok /\ 0 <= width tok /\ left tok + width tok <= w_img
     /\ 0 <= top tok /\ 0 <= height tok /\ top tok + height tok <= h_img) ->
  (List.length (get_ocr_hints w_img h_img data) <= List.length data)%nat
  /\ forall h, In h (get_ocr_hints w_img h_img data) ->
       exists tok ymin xmin ymax xmax,
         In tok data /\ 20 <= conf tok
         /\ hint_text h = strip (text tok)
         /\ box_2d h = [ymin; xmin; ymax; xmax]
         /\ 0 <= ymin <= ymax /\ ymax <= 1000
         /\ 0 <= xmin <= xmax /\ xmax <= 1000.
Proof.
  intros Hw Hh Hin.
  assert (Hone : forall tok,
            (List.length (hints_of_token w_img h_img tok) <= 1)%nat).
  { intros tok. unfold hints_of_token.
    repeat match goal with |- context [if ?c then _ else _] => destruct c end;
      simpl; lia. }
  split.
  - unfold get_ocr_hints. clear Hin.
    induction data as [|tok data IH]; simpl; [lia|].
    rewrite length_app. specialize (Hone tok). lia.
  - intros h Hhint. unfold get_ocr_hints in Hhint.
    apply in_flat_map in Hhint. destruct Hhint as (tok & Htok & Hhint).
    destruct (Hin tok Htok) as (Hl & Hwd & Hlw & Ht & Hht & Hth).
    assert (Hq : forall a b d, 0 < d -> 0 <= a -> a <= b -> b <= d ->
              0 <= Z.quot (a * 1000) d <= Z.quot (b * 1000) d
              /\ Z.quot (b * 1000) d <= 1000).
    { intros a b d Hd Ha Hab Hbd. repeat split.
      - apply Z.quot_pos; lia.
      - apply Z.quot_le_mono; lia.
      - transitivity (Z.quot (1000 * d) d);
          [apply Z.quot_le_mono; lia|rewrite Z.quot_mul; lia]. }
    destruct (Hq (top tok) (top tok + height tok) h_img Hh Ht) as [Hy1 Hy2];
      [lia|lia|].
    destruct (Hq (left tok) (left tok + width tok) w_img Hw Hl) as [Hx1 Hx2];
      [lia|lia|].
    exists tok. unfold hints_of_token in Hhint.
    destruct (conf tok <? 20) eqn:Ec; [destruct Hhint|].
    apply Z.ltb_ge in Ec.
    cbn [orb] in Hhint.
    destruct (is_empty (strip (text tok))); [destruct Hhint|].
    destruct ((isdigit (strip (text tok)) && (6 <? len (strip (text tok))))
              || String.eqb (strip (text tok)) "0"); [destruct Hhint|].
    destruct (fig_pattern_match (strip (text tok)));
      [|destruct (comp_pattern_match (strip (text tok))
                  || (len (strip (text tok)) =? 1)); [|destruct Hhint]];
      (destruct Hhint as [<-|[]]; cbn [hint_text box_2d];
       do 4 eexists; repeat split; try reflexivity; try eassumption; lia).
Qed.

Lemma hint_boxes_within_range_witness :
  let data := [ token_of "FIG. 3" 90; token_of "140'" 90; token_of "x" 5 ] in
  (List.length (get_ocr_hints 1000 1000 data) <= List.length data)%nat
  /\ forall h, In h (get_ocr_hints 1000 1000 data) ->
       exists tok ymin xmin ymax xmax,
         In tok data /\ 20 <= conf tok
         /\ hint_text h = strip (text tok)
         /\ box_2d h = [ymin; xmin; ymax; xmax]
         /\ 0 <= ymin <= ymax /\ ymax <= 1000
         /\ 0 <= xmin <= xmax /\ xmax <= 1000.
Proof.
  intros data. apply (hint_boxes_within_range 1000 1000 data); try lia.
  intros tok [<-|[<-|[<-|[]]]]; simpl; lia.
Defined.

(** ** Page selection *)

Lemma combine_range_In {A : Type} (a : Z) (m : nat) :
  forall (s : nat) (l : list A) n x,
    In (n, x) (combine (map (fun k => a + Z.of_nat k) (seq s m)) l) ->
    exists k, (k < m)%nat /\ n = a + Z.of_nat (s + k)
              /\ nth_error l k = Some x.
Proof.
  induction m as [|m IH]; intros s l n x H; [destruct H|].
  destruct l as [|y l]; [destruct H|].
  cbn [seq map combine] in H. destruct H as [H|H].
  - injection H as <- <-. exists O. rewrite Nat.add_0_r.
    repeat split. lia.
  - destruct (IH (S s) l n x H) as (k & Hk & -> & Hx).
    exists (S k). repeat split; [lia|f_equal; lia|exact Hx].
Qed.

Lemma map_snd_combine {A B : Type} (a : list A) :
  forall b : list B,
    (List.length b <= List.length a)%nat -> map snd (combine a b) = b.
Proof.
  induction a as [|x a IH]; intros [|y b] H; simpl in *;
    try reflexivity; [lia|].
  f_equal. apply IH. lia.
Qed.

Lemma range_length a b : List.length (range a b) = Z.to_nat (b - a).
Proof. unfold range. now rewrite length_map, length_seq. Qed.

Lemma nth_error_slice {A : Type} (l : list A) i j k x :
  nth_error (slice l i j) k = Some x ->
  nth_error l (Z.to_nat i + k) = Some x.
Proof.
  unfold slice. rewrite nth_error_firstn.
  destruct (k <? Z.to_nat j - Z.to_nat i)%nat; [|discriminate].
  now rewrite nth_error_skipn.
Qed.

Lemma slice_length {A : Type} (l : list A) i j :
  0 <= i <= j -> j <= Z.of_nat (List.length l) ->
  List.length (slice l i j) = Z.to_nat (j - i).
Proof.
  intros Hij Hj. unfold slice. rewrite length_firstn, length_skipn. lia.
Qed.

(** X17: the pages handed to the extraction are labelled with their own
    page numbers.  Whatever the parameters, the selection never fails on a
    subscript; and when it succeeds, the page loop pairs every selected
    page with a number, each number lies between 1 and the number of
    pages of the document, and the page paired with number n is page n of
    the document. *)
Theorem selected_pages_keep_their_numbers
  (A : Type) (int : string -> option Z)
  (page_param frm_param to_param : option string) (pages : list A) :
  select_pages int page_param frm_param to_param pages
  <> Rejected index_error
  /\ forall selected page_numbers,
       select_pages int page_param frm_param to_param pages
       = Selected selected page_numbers ->
       map snd (numbered selected page_numbers) = selected
       /\ forall n x,
            In (n, x) (numbered selected page_numbers) ->
            1 <= n <= Z.of_nat (List.length pages)
            /\ nth_error pages (Z.to_nat (n - 1)) = Some x.
Proof.
  unfold select_pages.
  set (total := Z.of_nat (List.length pages)).
  destruct (given page_param).
  - destruct (int (param_text page_param)) as [p|];
      [|split; [discriminate|intros ? ? [=]]].
    destruct ((p <? 1) || (total <? p)) eqn:E;
      [split; [discriminate|intros ? ? [=]]|].
    apply orb_false_iff in E. destruct E as [E1 E2].
    apply Z.ltb_ge in E1, E2.
    destruct (nth_error pages (Z.to_nat (p - 1))) as [x|] eqn:Ex.
    + split; [discriminate|]. intros selected page_numbers [= <- <-].
      split; [reflexivity|].
      intros n y [[= <- <-]|[]]. split; [lia|exact Ex].
    + exfalso. apply nth_error_None in Ex. unfold total in E2. lia.
  - destruct (given frm_param || given to_param).
    + destruct (if given frm_param then int (param_text frm_param) else Some 1)
        as [frm|]; [|split; [discriminate|intros ? ? [=]]].
      destruct (if given to_param then int (param_text to_param)
                else Some total)
        as [to|]; [|split; [discriminate|intros ? ? [=]]].
      destruct ((frm <? 1) || (to <? 1) || (to <? frm) || (total <? to)) eqn:E;
        [split; [discriminate|intros ? ? [=]]|].
      rewrite !orb_false_iff in E. destruct E as [[[E1 E2] E3] E4].
      apply Z.ltb_ge in E1, E2, E3, E4.
      split; [discriminate|]. intros selected page_numbers [= <- <-].
      unfold numbered. split.
      * apply map_snd_combine. rewrite range_length, slice_length;
          unfold total in E4; lia.
      * intros n x H. unfold range in H.
        apply combine_range_In in H. destruct H as (k & Hk & -> & Hx).
        apply nth_error_slice in Hx. split; [lia|].
        replace (Z.to_nat (frm + Z.of_nat (0 + k) - 1))
          with (Z.to_nat (frm - 1) + k)%nat by lia.
        exact Hx.
    + split; [discriminate|]. intros selected page_numbers [= <- <-].
      unfold numbered. split.
      * apply map_snd_combine. rewrite range_length. lia.
      * intros n x H. unfold range in H.
        apply combine_range_In in H. destruct H as (k & Hk & -> & Hx).
        split; [fold total; lia|].
        replace (Z.to_nat (1 + Z.of_nat (0 + k) - 1)) with k by lia.
        exact Hx.
Qed.

(** X18: a page range is served exactly when it lies in the document.
    With no page parameter and a from or a to parameter, each read as an
    integer, from defaulting to 1 and to defaulting to the number of
    pages: when 1 <= from <= to <= number of pages the selection is the
    to - from + 1 pages from..to of the document, numbered from..to; in
    every other case the request is rejected as an invalid range. *)
Theorem page_range_selection
  (A : Type) (int : string -> option Z)
  (page_param frm_param to_param : option string) (pages : list A)
  (frm to : Z) :
  let total := Z.of_nat (List.length pages) in
  given page_param = false ->
  given frm_param || given to_param = true ->
  (if given frm_param then int (param_text frm_param) else Some 1)
  = Some frm ->
  (if given to_param then int (param_text to_param) else Some total)
  = Some to ->
  (1 <= frm <= to /\ to <= total ->
   select_pages int page_param frm_param to_param pages
   = Selected (slice pages (frm - 1) to) (Some (range frm (to + 1)))
   /\ List.length (slice pages (frm - 1) to) = Z.to_nat (to - frm + 1)
   /\ map fst (numbered (slice pages (frm - 1) to)
                 (Some (range frm (to + 1))))
      = range frm (to + 1))
  /\ (~ (1 <= frm <= to /\ to <= total) ->
      select_pages int page_param frm_param to_param pages
      = Rejected invalid_range).
Proof.
  intros total Hp Hg Hfrm Hto. unfold select_pages. fold total.
  rewrite Hp, Hg, Hfrm, Hto.
  destruct ((frm <? 1) || (to <? 1) || (to <? frm) || (total <? to)) eqn:E.
  - rewrite !orb_true_iff, !Z.ltb_lt in E. split; [lia|reflexivity].
  - rewrite !orb_false_iff, !Z.ltb_ge in E. split; [|lia].
    intros H. split; [reflexivity|].
    assert (Hlen : List.length (slice pages (frm - 1) to)
                   = Z.to_nat (to - frm + 1)).
    { rewrite slice_length; unfold total in *; [f_equal|..]; lia. }
    split; [exact Hlen|].
    unfold numbered.
    assert (Hfst : forall (a : list Z) (b : list A),
              List.length a = List.length b -> map fst (combine a b) = a).
    { induction a as [|x a IH]; intros [|y b] Hl; simpl in *;
        try reflexivity; try discriminate.
      f_equal. apply IH. lia. }
    apply Hfst. rewrite range_length, Hlen. f_equal. lia.
Qed.

Lemma page_range_selection_witness :
  let pages := ["a"; "b"; "c"; "d"; "e"] in
  let int (s : string) :=
    if str_all is_decimal s && negb (is_empty s)
    then Some (int_of_digits s) else None in
  (1 <= 2 <= 5 /\ 5 <= 5 ->
   select_pages int None (Some "2") None pages
   = Selected (slice pages (2 - 1) 5) (Some (range 2 (5 + 1)))
   /\ List.length (slice pages (2 - 1) 5) = Z.to_nat (5 - 2 + 1)
   /\ map fst (numbered (slice pages (2 - 1) 5) (Some (range 2 (5 + 1))))
      = range 2 (5 + 1))
  /\ (~ (1 <= 2 <= 5 /\ 5 <= 5) ->
      select_pages int None (Some "2") None pages = Rejected invalid_range).
Proof.
  intros pages int.
  apply (page_range_selection string int None (Some "2") None pages 2 5);
    reflexivity.
Defined.

(** ** Rotation: when a page is turned *)

Lemma evaluated_incl fig_count l a :
  In a (evaluated fig_count l) -> In a l.
Proof.
  induction l as [|b l IH]; simpl; [intros []|].
  destruct (2 <=? Z.of_nat (fig_count b)).
  - intros [<-|[]]. now left.
  - intros [<-|H]; [now left|right; now apply IH].
Qed.

(** X19: a page is turned only for more figure tags.  The stored angle
    is one of 0, 90, 180 and 270; when it is not 0 the detector read
    strictly more figure tags at that angle than on the upright proxy;
    and when the upright proxy already shows two figure tags the page is
    left as it is, whatever the other angles would show. *)
Theorem rotation_only_for_more_tags
  (pixels : Type) (rotate : pixels -> Z -> pixels)
  (thumbnail : pixels -> pixels) (image_to_string : pixels -> string)
  (img : image pixels) :
  let fig_count := fig_count_at pixels rotate thumbnail image_to_string img in
  let out :=
    detect_and_correct_rotation pixels rotate thumbnail image_to_string img in
  exists a,
    dict_find String.eqb "auto_rotate_deg" (info out) = Some a
    /\ In a angles
    /\ (a <> 0 -> (fig_count 0%Z < fig_count a)%nat)
    /\ ((2 <= fig_count 0%Z)%nat -> a = 0 /\ pixel_data out = pixel_data img).
Proof.
  intros fig_count out.
  exists (rotation_loop fig_count angles 0 (-1)).
  pose proof (rotation_loop_first_argmax fig_count 0 [90; 180; 270] 0) as Harg.
  fold angles in Harg.
  split.
  - unfold out, detect_and_correct_rotation. fold fig_count.
    destruct (negb (rotation_loop fig_count angles 0 (-1) =? 0));
      cbn [info]; apply dict_find_set_same, string_eqb_eq.
  - split.
    + destruct Harg as (pre & post & E & _).
      apply (evaluated_incl fig_count). rewrite E.
      apply in_or_app. right. now left.
    + split.
      * intros Hne. destruct Harg as (pre & post & E & Hpre & _).
        destruct (evaluated_cons fig_count 0 [90; 180; 270]) as [l' El].
        fold angles in El. rewrite El in E.
        destruct pre as [|x pre].
        -- simpl in E. injection E as E _. now elim Hne.
        -- simpl in E. injection E as <- _. apply Hpre. now left.
      * intros H2.
        assert (Ha : rotation_loop fig_count angles 0 (-1) = 0).
        { unfold angles. cbn [rotation_loop].
          assert (E : (2 <=? Z.of_nat (fig_count 0)) = true)
            by (apply Z.leb_le; lia).
          rewrite E. now destruct (-1 <? Z.of_nat (fig_count 0)). }
        split; [exact Ha|].
        unfold out, detect_and_correct_rotation. fold fig_count.
        now rewrite Ha.
Qed.

(** ** The order of canonical figure ids *)

(** X20: records are ordered by page, then by figure number, then by
    figure letter: for two canonical figure ids the key of the first page
    and id is below that of the second exactly when its page is smaller,
    or the pages are equal and its number is smaller, or pages and numbers
    are equal and its letter is lexically smaller, no letter first. *)
Theorem canonical_figures_order (p1 p2 : Z) (d1 l1 d2 l2 : string) :
  d1 <> "" -> str_all is_decimal d1 = true ->
  (l1 = "" \/ exists c, l1 = String c "" /\ is_upper c = true) ->
  d2 <> "" -> str_all is_decimal d2 = true ->
  (l2 = "" \/ exists c, l2 = String c "" /\ is_upper c = true) ->
  page_figure_ltb (page_figure_key (p1, "FIG. " ++ d1 ++ l1))
                  (page_figure_key (p2, "FIG. " ++ d2 ++ l2)) = true
  <-> p1 < p2
      \/ (p1 = p2
          /\ (int_of_digits d1 < int_of_digits d2
              \/ (int_of_digits d1 = int_of_digits d2
                  /\ str_ltb l1 l2 = true))).
Proof.
  intros Hn1 Hd1 Hl1 Hn2 Hd2 Hl2. unfold page_figure_key. cbn [fst snd].
  rewrite (figure_sort_key_normal_form d1 l1 Hn1 Hd1 Hl1).
  rewrite (figure_sort_key_normal_form d2 l2 Hn2 Hd2 Hl2).
  unfold page_figure_ltb.
  rewrite !orb_true_iff, !andb_true_iff, !orb_true_iff, !andb_true_iff.
  rewrite !Z.ltb_lt, !Z.eqb_eq. reflexivity.
Qed.

Lemma canonical_figures_order_witness :
  page_figure_ltb (page_figure_key (3, "FIG. " ++ "2" ++ "B"))
                  (page_figure_key (3, "FIG. " ++ "10" ++ "")) = true
  <-> 3 < 3
      \/ (3 = 3
          /\ (int_of_digits "2" < int_of_digits "10"
              \/ (int_of_digits "2" = int_of_digits "10"
                  /\ str_ltb "B" "" = true))).
Proof.
  apply (canonical_figures_order 3 3 "2" "B" "10" "");
    try discriminate; try reflexivity.
  - right. exists "B"%char. now split.
  - now left.
Defined.

(** ** What the merge reads of an entry *)

Lemma merge_item_same_read_fields order page_no merged a b :
  same_read_fields a b ->
  merge_item order page_no merged a = merge_item order page_no merged b.
Proof.
  destruct a as [|x|n|r|s|l|f], b as [|y|m|q|t|k|g]; simpl;
    try (intros [=]; subst; reflexivity); try (intros H; now rewrite H).
  intros H. unfold merge_item, get.
  rewrite (H "figure"), (H "components"), (H "hierarchy");
    simpl; auto.
Qed.

Lemma merge_items_same_read_fields order page_no res res' :
  Forall2 same_read_fields res res' ->
  forall merged,
    merge_items order page_no merged res
    = merge_items order page_no merged res'.
Proof.
  induction 1 as [|a b res res' Hab _ IH]; intros merged; [reflexivity|].
  cbn [merge_items]. rewrite (merge_item_same_read_fields _ _ _ a b Hab).
  destruct (merge_item order page_no merged b); cbn [bind];
    [apply IH|reflexivity].
Qed.

(** X21: the merge reads three fields of an entry and nothing else:
    figure, components and hierarchy.  Two runs over the same page
    numbers whose entries agree on these fields, whatever page or other
    field the entries carry, end the same way, with the same result or the
    same exception. *)
Theorem run_reads_three_fields
  (order : set_iteration) (responses responses' : list (Z * list json)) :
  same_read_responses responses responses' ->
  extract_figures_with_lmm order responses
  = extract_figures_with_lmm order responses'.
Proof.
  intros H. unfold extract_figures_with_lmm. f_equal.
  generalize (@nil (merge_key * figure_record)).
  induction H as [|[p res] [p' res'] r r' [Hp Hres] _ IH]; intros merged;
    [reflexivity|].
  cbn [fst snd] in Hp, Hres. subst p'. cbn [merge_pages].
  rewrite (merge_items_same_read_fields order p res res' Hres).
  destruct (merge_items order p merged res'); cbn [bind];
    [apply IH|reflexivity].
Qed.

Lemma run_reads_three_fields_witness :
  extract_figures_with_lmm first_seen_order
    [(1, [JObj [("page", JInt 7); ("figure", JStr "Fig 2");
                ("components", JArr [JStr "10"]); ("note", JNull)]])]
  = extract_figures_with_lmm first_seen_order
      [(1, [JObj [("figure", JStr "Fig 2");
                  ("components", JArr [JStr "10"])]])].
Proof.
  apply (run_reads_three_fields first_seen_order).
  repeat constructor.
  intros k [<-|[<-|[<-|[]]]]; reflexivity.
Defined.

(** ** The merge and finalize contract *)







(** Outside the shape the contract is proved for, the loop raises and
    the exception leaves the run: a hierarchy that is null cannot be
    iterated over. *)
Lemma null_hierarchy_entry_raises :
  extract_figures_with_lmm first_seen_order
    [(1, [JObj [("figure", JStr "FIG. 1");
                ("components", JArr [JStr "10"]);
                ("hierarchy", JNull)]])]
  = Raised TypeError.
Proof. reflexivity. Qed.
